(** * netplan-ebs: the merge-and-resolve core of the netplan parser

    A shallow embedding of [src/netplan/parser.py] (class [Parser]) and of
    the interface queries that [src/bin/netplan-parser.py] calls.

    Python containers are mutable and shared by reference, and
    [Parser._combine_dicts] merges in place, so the embedding keeps an
    explicit object store: lists and dictionaries live in the store and are
    named by location, scalars are immutable and carried by value. *)

From Stdlib Require Import ZArith Lia Ascii.
From stdpp Require Import base option list strings sorting gmap.

Set Warnings "-register-all,-clear-no-such-hyp".

Local Open Scope Z_scope.
Local Open Scope string_scope.
Local Open Scope list_scope.
Local Open Scope nat_scope.

(** ** Python values *)

(** A binary float: a finite value [m * 2^e], an infinity or a NaN.  The
    only operation the parser applies to a float is the comparison with the
    integer [2]. *)
Inductive pyfloat :=
| FFinite (m e : Z)
| FInf (negative : bool)
| FNaN.

Inductive scalar :=
| SNone
| SBool (b : bool)
| SInt (n : Z)
| SFloat (f : pyfloat)
| SStr (s : string).

Abbreviation loc := nat.

(** A value is a scalar or a reference to a container of the store. *)
Inductive value :=
| VScalar (s : scalar)
| VRef (l : loc).

(** A dictionary is kept in insertion order.  Its keys are strings, as the
    names of netplan are; a document in which a mapping has a key of
    another type (a number, a boolean or null, which YAML allows) is outside
    this embedding, and nothing below speaks of it. *)
Inductive obj :=
| OList (xs : list value)
| ODict (kvs : list (string * value)).

Abbreviation heap := (list obj).

(** The exceptions the parser meets.  [Exception r] is the plain
    [Exception(...)] that [parse_file] raises, with its message kept
    structured. *)
Inductive reason :=
| NotADictionary                        (* 'The contents is not a YAML dictionary' *)
| NoNetwork                             (* 'No "network" top-level element' *)
| NoVersion                             (* 'No "network/version" element' *)
| UnsupportedVersion (ver : value)      (* 'Unsupported format version {ver}' *)
| UnsupportedSections (missing : list string).
                                        (* 'Unsupported section(s) {ms}' *)

Inductive exn :=
| Exception (r : reason)
| AttributeError
| TypeError
| KeyError (key : string)
| RecursionError
| DecodeError (detail : string)         (* raised by open() or by the YAML decoder *)
| ParseFileException (fname : string) (inner : exn).

Abbreviation result A := (exn + A)%type.

Definition bind {A B} (m : result A) (k : A -> result B) : result B :=
  match m with
  | inl e => inl e
  | inr a => k a
  end.

Notation "'try' x := m 'in' k" := (bind m (fun x => k))
  (at level 10, x pattern, m at level 100, k at level 200).

(** ** Dictionaries as insertion-ordered association lists *)

Fixpoint dict_get {A} (k : string) (d : list (string * A)) : option A :=
  match d with
  | [] => None
  | (k', v) :: d' => if String.eqb k k' then Some v else dict_get k d'
  end.

(** [d[k] = v]: overwrite in place when the key exists, append otherwise. *)
Fixpoint dict_set {A} (k : string) (v : A) (d : list (string * A)) : list (string * A) :=
  match d with
  | [] => [(k, v)]
  | (k', v') :: d' =>
      if String.eqb k k' then (k, v) :: d' else (k', v') :: dict_set k v d'
  end.

Fixpoint dict_del {A} (k : string) (d : list (string * A)) : list (string * A) :=
  match d with
  | [] => []
  | (k', v') :: d' => if String.eqb k k' then d' else (k', v') :: dict_del k d'
  end.

Definition dict_keys {A} (d : list (string * A)) : list string := map fst d.

Definition dict_mem {A} (k : string) (d : list (string * A)) : bool :=
  match dict_get k d with Some _ => true | None => false end.

(** ** Operations of the Python object model used by the parser *)

Definition isinstance_list (v : value) (h : heap) : bool :=
  match v with
  | VRef l => match h !! l with Some (OList _) => true | _ => false end
  | VScalar _ => false
  end.

Definition isinstance_dict (v : value) (h : heap) : bool :=
  match v with
  | VRef l => match h !! l with Some (ODict _) => true | _ => false end
  | VScalar _ => false
  end.

Definition is_substring (s1 s2 : string) : bool :=
  match String.index 0 s1 s2 with Some _ => true | None => false end.

Definition value_eq_str (key : string) (v : value) : bool :=
  match v with
  | VScalar (SStr s) => String.eqb s key
  | _ => false
  end.

(** [key in cur]: key lookup in a dictionary, element comparison in a
    list, substring test in a string, [TypeError] on the other scalars. *)
Definition py_contains (key : string) (cur : value) (h : heap) : result bool :=
  match cur with
  | VRef l =>
      match h !! l with
      | Some (ODict kvs) => inr (dict_mem key kvs)
      | Some (OList xs) => inr (existsb (value_eq_str key) xs)
      | None => inl TypeError
      end
  | VScalar (SStr s) => inr (is_substring key s)
  | VScalar _ => inl TypeError
  end.

(** [cur[key]] with a string key. *)
Definition py_getitem (cur : value) (key : string) (h : heap) : result value :=
  match cur with
  | VRef l =>
      match h !! l with
      | Some (ODict kvs) =>
          match dict_get key kvs with
          | Some v => inr v
          | None => inl (KeyError key)
          end
      | _ => inl TypeError
      end
  | VScalar _ => inl TypeError
  end.

(** [cur[key] = v] with a string key. *)
Definition py_setitem (cur : value) (key : string) (v : value) (h : heap) : result heap :=
  match cur with
  | VRef l =>
      match h !! l with
      | Some (ODict kvs) => inr (<[l := ODict (dict_set key v kvs)]> h)
      | _ => inl TypeError
      end
  | VScalar _ => inl TypeError
  end.

(** [del cur[key]]. *)
Definition py_delitem (cur : value) (key : string) (h : heap) : result heap :=
  match cur with
  | VRef l =>
      match h !! l with
      | Some (ODict kvs) =>
          if dict_mem key kvs then inr (<[l := ODict (dict_del key kvs)]> h)
          else inl (KeyError key)
      | _ => inl TypeError
      end
  | VScalar _ => inl TypeError
  end.

(** [target.extend(src)]; the one call site has checked that [src] is a
    list object. *)
Definition py_extend (target src : value) (h : heap) : result heap :=
  match target with
  | VRef l =>
      match h !! l with
      | Some (OList xs) =>
          match src with
          | VRef l' =>
              match h !! l' with
              | Some (OList ys) => inr (<[l := OList (xs ++ ys)]> h)
              | _ => inl TypeError
              end
          | VScalar _ => inl TypeError
          end
      | _ => inl AttributeError
      end
  | VScalar _ => inl AttributeError
  end.

(** [d.items()]: only dictionaries have the method. *)
Definition py_items (d : value) (h : heap) : result (list (string * value)) :=
  match d with
  | VRef l =>
      match h !! l with
      | Some (ODict kvs) => inr kvs
      | _ => inl AttributeError
      end
  | VScalar _ => inl AttributeError
  end.

(** [d.get(key)]: the value, or [None] when the key is missing. *)
Definition py_get (d : value) (key : string) (h : heap) : result value :=
  match d with
  | VRef l =>
      match h !! l with
      | Some (ODict kvs) =>
          inr (match dict_get key kvs with Some v => v | None => VScalar SNone end)
      | _ => inl AttributeError
      end
  | VScalar _ => inl AttributeError
  end.

Definition is_None (v : value) : bool :=
  match v with VScalar SNone => true | _ => false end.

Definition float_eq_int (f : pyfloat) (n : Z) : bool :=
  match f with
  | FFinite m e =>
      if (0 <=? e)%Z then (m * 2 ^ e =? n)%Z else (m =? n * 2 ^ (- e))%Z
  | _ => false
  end.

(** [v == n] for an integer literal [n]. *)
Definition py_eq_int (v : value) (n : Z) : bool :=
  match v with
  | VScalar (SInt k) => (k =? n)%Z
  | VScalar (SBool b) => ((if b then 1 else 0) =? n)%Z
  | VScalar (SFloat f) => float_eq_int f n
  | _ => false
  end.

(** ** Parser._combine_dicts *)

(** One iteration of the loop body of [_combine_dicts], with the recursive
    call passed in. *)
Definition combine_item (rec : value -> value -> heap -> result heap)
    (cur : value) (kv : string * value) (h : heap) : result heap :=
  let '(key, value) := kv in
  try present := py_contains key cur h in
  if negb present then py_setitem cur key value h
  else if isinstance_list value h then
    try target := py_getitem cur key h in
    py_extend target value h
  else if isinstance_dict value h then
    try sub := py_getitem cur key h in
    rec sub value h
  else py_setitem cur key value h.

Fixpoint run_items (step : string * value -> heap -> result heap)
    (items : list (string * value)) (h : heap) : result heap :=
  match items with
  | [] => inr h
  | kv :: rest => try h' := step kv h in run_items step rest h'
  end.

(** [depth] is the number of stack frames left; running out of them is
    Python's [RecursionError].  The items of [new] are those that it has
    when the loop starts: a list in Python 2, and in Python 3 a view of a
    dictionary that the loop leaves as it is as long as no object of
    [new] is reached from [cur].  Where one is, Python 3 reads the view as
    the loop has changed it, or raises [RuntimeError] when its size has
    changed, and this definition follows Python 2. *)
Fixpoint _combine_dicts (depth : nat) (cur new : value) (h : heap) : result heap :=
  match depth with
  | O => inl RecursionError
  | S depth' =>
      try items := py_items new h in
      run_items (combine_item (_combine_dicts depth') cur) items h
  end.

(** ** The document decoder and the file system *)

(** What [yaml.load] builds for one file: a root value and the containers
    it allocated, with locations counted from the first of them.  Anchors
    and aliases of the YAML text make two places of a document name one
    container. *)
Definition pydoc : Type := value * list obj.

Definition shift_value (off : nat) (v : value) : value :=
  match v with
  | VRef l => VRef (off + l)
  | VScalar s => VScalar s
  end.

Definition shift_obj (off : nat) (o : obj) : obj :=
  match o with
  | OList xs => OList (map (shift_value off) xs)
  | ODict kvs => ODict (map (fun kv => (fst kv, shift_value off (snd kv))) kvs)
  end.

(** The decoded objects are new: they are placed after every object of the
    store. *)
Definition load_doc (d : pydoc) (h : heap) : value * heap :=
  (shift_value (length h) (fst d), h ++ map (shift_obj (length h)) (snd d)).

(** The file-system capabilities that [find_files] consumes; [listdir] is
    asked for directories only, and gives their entries in any order. *)
Record filesystem := {
  isdir : string -> bool;             (* os.path.isdir *)
  isfile : string -> bool;            (* os.path.isfile *)
  listdir : string -> list string;    (* os.listdir *)
}.

Definition startswith (pre s : string) : bool := String.prefix pre s.

Definition endswith (suf s : string) : bool :=
  if String.length suf <=? String.length s then
    String.eqb (String.substring (String.length s - String.length suf) (String.length suf) s) suf
  else false.

(** [os.path.join(a, b)] of posixpath. *)
Definition path_join (a b : string) : string :=
  if startswith "/" b then b
  else if String.eqb a "" || endswith "/" a then a +:+ b
  else a +:+ "/" +:+ b.

(** [os.path.basename(p)]: what follows the last slash. *)
Fixpoint basename (p : string) : string :=
  match p with
  | EmptyString => EmptyString
  | String c p' =>
      if is_substring "/" p then basename p' else p
  end.

(** ** Parser *)

Inductive iface_class :=
| BondInterface
| BridgeInterface
| EthernetInterface
| VLANInterface
| WirelessInterface.

(** [Parser.BY_SECTION] *)
Definition BY_SECTION : list (string * iface_class) :=
  [ ("bonds", BondInterface);
    ("bridges", BridgeInterface);
    ("ethernets", EthernetInterface);
    ("vlans", VLANInterface);
    ("wifis", WirelessInterface) ].

(** [Parser.NETPLAN_DIRS] *)
Definition NETPLAN_DIRS : list string :=
  [ "/lib/netplan"; "/etc/netplan"; "/run/netplan" ].

(** [sorted(...)] on strings: code-point order. *)
Definition sorted (l : list string) : list string := merge_sort String.le l.

(** [dict(pairs)]: a later pair overrides an earlier one with the same key. *)
Definition dict_of_pairs {A} (pairs : list (string * A)) : list (string * A) :=
  fold_left (fun d kv => dict_set (fst kv) (snd kv) d) pairs [].

Fixpoint map_result {A B} (f : A -> result B) (l : list A) : result (list B) :=
  match l with
  | [] => inr []
  | x :: l' => try y := f x in try ys := map_result f l' in inr (y :: ys)
  end.

(** The [(name, path)] pairs that one directory contributes. *)
Definition dir_entries (fs : filesystem) (d : string) : list (string * string) :=
  filter (fun i => isfile fs (snd i) = true)
    (map (fun f => (f, path_join d f))
       (filter (fun s => endswith ".yaml" s = true) (listdir fs d))).

(** The dictionary [files] of [Parser.find_files]. *)
Definition find_files_dict (fs : filesystem) (dirs : list string) : list (string * string) :=
  dict_of_pairs
    (concat (map (dir_entries fs) (filter (fun d => isdir fs d = true) dirs))).

(** [Parser.find_files] *)
Definition find_files (fs : filesystem) (dirs : list string) : result (list string) :=
  let files := find_files_dict fs dirs in
  map_result
    (fun name => match dict_get name files with
                 | Some p => inr p
                 | None => inl (KeyError name)
                 end)
    (sorted (dict_keys files)).

(** [parse_file], the function nested in [_combine_files].  [read_yaml]
    stands for [open] followed by [yaml.load]; [skeys] is the set of the
    keys of [BY_SECTION]. *)
Definition parse_file (read_yaml : string -> result pydoc) (skeys : list string)
    (fname : string) (h : heap) : result (value * heap) :=
  try doc := read_yaml fname in
  let '(contents, h) := load_doc doc h in
  if negb (isinstance_dict contents h) then inl (Exception NotADictionary) else
  try net := py_get contents "network" h in
  if is_None net then inl (Exception NoNetwork) else
  try ver := py_get net "version" h in
  if is_None ver then inl (Exception NoVersion) else
  if negb (py_eq_int ver 2) then inl (Exception (UnsupportedVersion ver)) else
  try h := py_delitem net "version" h in
  try keys := py_items net h in
  let missing :=
    sorted (filter (fun k => negb (bool_decide (k ∈ skeys))) (dict_keys keys)) in
  if negb (bool_decide (missing = [])) then inl (Exception (UnsupportedSections missing))
  else inr (net, h).

(** Modelled from the spec: the interface classes of [interface.py] are not
    under src/; an interface is built from the name, the section and the
    definition, passed through unchanged, and its class is the one that
    [BY_SECTION] gives for the section. *)
Record Interface := {
  iface_class_of : iface_class;
  iface_name : string;
  iface_section : string;
  iface_data : value;
}.

(** The [try ... except Exception] around one file of the loop of
    [_combine_files]. *)
Definition load_one (read_yaml : string -> result pydoc) (depth : nat) (skeys : list string)
    (raw : value) (fname : string) (h : heap) : result heap :=
  match (try (net, h1) := parse_file read_yaml skeys fname h in
         _combine_dicts depth raw net h1) with
  | inl exc => inl (ParseFileException fname exc)
  | inr h' => inr h'
  end.

Fixpoint load_files (read_yaml : string -> result pydoc) (depth : nat) (skeys : list string)
    (raw : value) (files : list string) (h : heap) : result heap :=
  match files with
  | [] => inr h
  | fname :: rest =>
      try h' := load_one read_yaml depth skeys raw fname h in
      load_files read_yaml depth skeys raw rest h'
  end.

(** The second loop of [_combine_files]: one interface object per
    (section, name, definition). *)
Definition build_section (section : string) (ifaces : value) (h : heap)
    (data : list (string * Interface)) : result (list (string * Interface)) :=
  try cls := match dict_get section BY_SECTION with
             | Some c => inr c
             | None => inl (KeyError section)
             end in
  try items := py_items ifaces h in
  inr (fold_left
         (fun data kv =>
            dict_set (fst kv)
              {| iface_class_of := cls; iface_name := fst kv;
                 iface_section := section; iface_data := snd kv |} data)
         items data).

Fixpoint build_interfaces (sections : list (string * value)) (h : heap)
    (data : list (string * Interface)) : result (list (string * Interface)) :=
  match sections with
  | [] => inr data
  | (section, ifaces) :: rest =>
      try data' := build_section section ifaces h data in
      build_interfaces rest h data'
  end.

(** [Parser._combine_files]; the result comes with the store that the
    definitions of the interfaces live in. *)
Definition _combine_files (read_yaml : string -> result pydoc) (depth : nat)
    (files : list string) (h : heap) : result (list (string * Interface) * heap) :=
  let raw := VRef (length h) in
  let h := h ++ [ODict []] in
  let skeys := dict_keys BY_SECTION in
  try h := load_files read_yaml depth skeys raw files h in
  try sections := py_items raw h in
  try data := build_interfaces sections h [] in
  inr (data, h).

(** [Parser.parse]; [NetPlan(...)] wraps the dictionary of interfaces. *)
Definition parse (fs : filesystem) (read_yaml : string -> result pydoc) (depth : nat)
    (dirs : list string) (exclude : option (list string)) (h : heap)
  : result (list (string * Interface) * heap) :=
  try files := find_files fs dirs in
  let files :=
    match exclude with
    | Some exs => filter (fun f => basename f ∉ exs) files
    | None => files
    end in
  _combine_files read_yaml depth files h.

(** ** Documents without shared containers *)

(** A document as a tree: what a store value denotes when no container is
    reached along two paths. *)
Inductive tree :=
| TScalar (s : scalar)
| TList (ts : list tree)
| TDict (kts : list (string * tree)).

(** [rep h v t fp]: in the store [h] the value [v] unfolds to the tree
    [t], and [fp] is the set of the containers met on the way, each of
    them on one path only.  A dictionary object has distinct keys. *)
Inductive rep (h : heap) : value -> tree -> gset loc -> Prop :=
| rep_scalar s : rep h (VScalar s) (TScalar s) ∅
| rep_list l vs ts fp :
    h !! l = Some (OList vs) ->
    rep_elems h vs ts fp ->
    l ∉ fp ->
    rep h (VRef l) (TList ts) ({[l]} ∪ fp)
| rep_dict l kvs kts fp :
    h !! l = Some (ODict kvs) ->
    NoDup (dict_keys kvs) ->
    rep_items h kvs kts fp ->
    l ∉ fp ->
    rep h (VRef l) (TDict kts) ({[l]} ∪ fp)
with rep_elems (h : heap) : list value -> list tree -> gset loc -> Prop :=
| rep_elems_nil : rep_elems h [] [] ∅
| rep_elems_cons v vs t ts fp1 fp2 :
    rep h v t fp1 ->
    rep_elems h vs ts fp2 ->
    fp1 ## fp2 ->
    rep_elems h (v :: vs) (t :: ts) (fp1 ∪ fp2)
with rep_items (h : heap) : list (string * value) -> list (string * tree) -> gset loc -> Prop :=
| rep_items_nil : rep_items h [] [] ∅
| rep_items_cons k v kvs t kts fp1 fp2 :
    rep h v t fp1 ->
    rep_items h kvs kts fp2 ->
    fp1 ## fp2 ->
    rep_items h ((k, v) :: kvs) ((k, t) :: kts) (fp1 ∪ fp2).

Scheme rep_mut := Minimality for rep Sort Prop
  with rep_elems_mut := Minimality for rep_elems Sort Prop
  with rep_items_mut := Minimality for rep_items Sort Prop.

Combined Scheme rep_mutind from rep_mut, rep_elems_mut, rep_items_mut.

(** [v] denotes [t] and shares nothing. *)
Definition unshared (h : heap) (v : value) (t : tree) : Prop :=
  exists fp, rep h v t fp.

(** Two documents of the store that share nothing, neither inside nor
    with each other: what the decoder builds from two texts without
    aliases. *)
Definition separate (h : heap) (cur : value) (tc : tree) (new : value) (tn : tree) : Prop :=
  exists fpc fpn, rep h cur tc fpc /\ rep h new tn fpn /\ fpc ## fpn.

(** Reading a tree back from the store, to [fuel] levels. *)
Fixpoint reify (fuel : nat) (h : heap) (v : value) : option tree :=
  match fuel with
  | O => None
  | S fuel' =>
      match v with
      | VScalar s => Some (TScalar s)
      | VRef l =>
          match h !! l with
          | Some (OList xs) => TList <$> mapM (reify fuel' h) xs
          | Some (ODict kvs) =>
              TDict <$> mapM (fun kv => pair (fst kv) <$> reify fuel' h (snd kv)) kvs
          | None => None
          end
      end
  end.

(** The objects that the decoder allocates for a text without aliases:
    children first, then their container. *)
Fixpoint build (t : tree) (objs : list obj) : value * list obj :=
  match t with
  | TScalar s => (VScalar s, objs)
  | TList ts =>
      let '(vs, objs') :=
        (fix go (ts : list tree) (objs : list obj) : list value * list obj :=
           match ts with
           | [] => ([], objs)
           | t :: ts' =>
               let '(v, o1) := build t objs in
               let '(vs, o2) := go ts' o1 in
               (v :: vs, o2)
           end) ts objs in
      (VRef (length objs'), objs' ++ [OList vs])
  | TDict kts =>
      let '(kvs, objs') :=
        (fix go (kts : list (string * tree)) (objs : list obj)
           : list (string * value) * list obj :=
           match kts with
           | [] => ([], objs)
           | (k, t) :: kts' =>
               let '(v, o1) := build t objs in
               let '(kvs, o2) := go kts' o1 in
               ((k, v) :: kvs, o2)
           end) kts objs in
      (VRef (length objs'), objs' ++ [ODict kvs])
  end.

Definition doc_of_tree (t : tree) : pydoc := build t [].

(** *** The merge on trees *)

Definition tree_eq_str (key : string) (t : tree) : bool :=
  match t with
  | TScalar (SStr s) => String.eqb s key
  | _ => false
  end.

Definition tree_contains (key : string) (cur : tree) : result bool :=
  match cur with
  | TDict kts => inr (dict_mem key kts)
  | TList ts => inr (existsb (tree_eq_str key) ts)
  | TScalar (SStr s) => inr (is_substring key s)
  | TScalar _ => inl TypeError
  end.

Definition tree_getitem (cur : tree) (key : string) : result tree :=
  match cur with
  | TDict kts =>
      match dict_get key kts with
      | Some t => inr t
      | None => inl (KeyError key)
      end
  | _ => inl TypeError
  end.

Definition tree_setitem (cur : tree) (key : string) (t : tree) : result tree :=
  match cur with
  | TDict kts => inr (TDict (dict_set key t kts))
  | _ => inl TypeError
  end.

Definition tree_extend (target : tree) (ys : list tree) : result tree :=
  match target with
  | TList xs => inr (TList (xs ++ ys))
  | _ => inl AttributeError
  end.

(** The loop body of [_combine_dicts] on trees: what was done in place to
    the container under [key] is put back under [key]. *)
Definition combine_tree_item (rec : tree -> tree -> result tree)
    (kv : string * tree) (cur : tree) : result tree :=
  let '(key, value) := kv in
  try present := tree_contains key cur in
  if negb present then tree_setitem cur key value
  else match value with
       | TList ys =>
           try target := tree_getitem cur key in
           try target' := tree_extend target ys in
           tree_setitem cur key target'
       | TDict _ =>
           try sub := tree_getitem cur key in
           try sub' := rec sub value in
           tree_setitem cur key sub'
       | TScalar _ => tree_setitem cur key value
       end.

Fixpoint run_tree_items (step : string * tree -> tree -> result tree)
    (items : list (string * tree)) (cur : tree) : result tree :=
  match items with
  | [] => inr cur
  | kv :: rest => try cur' := step kv cur in run_tree_items step rest cur'
  end.

(** [_combine_dicts] on documents that share nothing. *)
Fixpoint combine_trees (depth : nat) (cur new : tree) : result tree :=
  match depth with
  | O => inl RecursionError
  | S depth' =>
      match new with
      | TDict items => run_tree_items (combine_tree_item (combine_trees depth')) items cur
      | _ => inl AttributeError
      end
  end.

(** The value found by following a path of keys through dictionaries. *)
Fixpoint tree_get (path : list string) (t : tree) : option tree :=
  match path with
  | [] => Some t
  | k :: path' =>
      match t with
      | TDict kts =>
          match dict_get k kts with
          | Some t' => tree_get path' t'
          | None => None
          end
      | _ => None
      end
  end.

(** The nesting depth of the dictionaries of a tree. *)
Fixpoint dict_depth (t : tree) : nat :=
  match t with
  | TDict kts =>
      S ((fix go (kts : list (string * tree)) : nat :=
            match kts with
            | [] => 0
            | (_, t') :: kts' => Nat.max (dict_depth t') (go kts')
            end) kts)
  | _ => 0
  end.

(** *** The rules of the merge *)

(** The keys of every dictionary of the tree are distinct. *)
Fixpoint distinct_keys (t : tree) : Prop :=
  match t with
  | TScalar _ => True
  | TList ts =>
      (fix go (ts : list tree) : Prop :=
         match ts with
         | [] => True
         | t' :: ts' => distinct_keys t' /\ go ts'
         end) ts
  | TDict kts =>
      NoDup (dict_keys kts) /\
      (fix go (kts : list (string * tree)) : Prop :=
         match kts with
         | [] => True
         | (_, t') :: kts' => distinct_keys t' /\ go kts'
         end) kts
  end.

(** The types of [cur] and [new] agree wherever the merge looks at both:
    a sequence meets a sequence, and a mapping is merged into a value that
    is mergeable with it.  Into a value that is no mapping only the empty
    mapping is merged. *)
Fixpoint mergeable (cur new : tree) {struct new} : Prop :=
  match new with
  | TDict items =>
      match cur with
      | TDict c =>
          (fix go (items : list (string * tree)) : Prop :=
             match items with
             | [] => True
             | (k, v) :: items' =>
                 match dict_get k c with
                 | None => True
                 | Some u =>
                     match v with
                     | TList _ => match u with TList _ => True | _ => False end
                     | TDict _ => mergeable u v
                     | TScalar _ => True
                     end
                 end /\ go items'
             end) items
      | _ => items = []
      end
  | _ => False
  end.

(** The rule of the merge for one key: [a] is the value of the key in the
    accumulator, [b] its value in the new document, [r] its value in the
    result; [rec] merges the mappings under the key. *)
Definition merge_rule (rec : tree -> tree -> result tree) (a b r : option tree) : Prop :=
  match b with
  | None => r = a
  | Some v =>
      match a with
      | None => r = Some v
      | Some u =>
          match v with
          | TList ys => exists xs, u = TList xs /\ r = Some (TList (xs ++ ys))
          | TDict _ => exists m, rec u v = inr m /\ r = Some m
          | TScalar _ => r = Some v
          end
      end
  end.

(** The rules of the deep merge, key by key, as a relation between the
    accumulator, the new document and the result: a key that the new
    document does not have keeps its value; a key that only the new
    document has is copied; where both have the key, a new sequence is
    appended to the sequence that is there, a new mapping is merged into
    the value that is there by the same rules, and any other new value
    replaces it.  Merging the empty mapping changes nothing, whatever it
    is merged into. *)
Inductive merged : tree -> tree -> tree -> Prop :=
| merged_mappings a b r :
    (forall k, merged_key (dict_get k a) (dict_get k b) (dict_get k r)) ->
    merged (TDict a) (TDict b) (TDict r)
| merged_nothing u :
    merged u (TDict []) u
with merged_key : option tree -> option tree -> option tree -> Prop :=
| merged_kept u :
    merged_key u None u
| merged_copied v :
    merged_key None (Some v) (Some v)
| merged_appended xs ys :
    merged_key (Some (TList xs)) (Some (TList ys)) (Some (TList (xs ++ ys)))
| merged_recursive u b m :
    merged u (TDict b) m ->
    merged_key (Some u) (Some (TDict b)) (Some m)
| merged_replaced u s :
    merged_key (Some u) (Some (TScalar s)) (Some (TScalar s)).

(** A key of a mapping of the accumulator, at the end of [path], that the
    mapping of the new document at [path] does not have, has in [r] the
    value [x] that it has in the accumulator [a]. *)
Definition keeps_left_only (a b r : tree) : Prop :=
  forall path k da db x,
    tree_get path a = Some (TDict da) ->
    tree_get path b = Some (TDict db) ->
    dict_get k da = Some x ->
    dict_get k db = None ->
    tree_get (path ++ [k]) r = Some x.

(** What a step of the merge in the store [h] must give when the same
    step on trees gives [rt]: the same error, or a store in which [cur]
    denotes the tree of [rt], unshared, inside the footprints [fpc] and
    [fpn] of the two documents, outside of which nothing has changed. *)
Definition merged_into (h : heap) (cur : value) (fpc fpn : gset loc)
    (rt : result tree) (rh : result heap) : Prop :=
  match rt with
  | inr tc' =>
      exists h' fp', rh = inr h' /\ rep h' cur tc' fp' /\
        fp' ⊆ fpc ∪ fpn /\ (forall l, l ∉ fpc ∪ fpn -> h' !! l = h !! l)
  | inl e => rh = inl e
  end.

(** The merge in the store does to unshared documents what the merge on
    trees does. *)
Definition refines (rec_h : value -> value -> heap -> result heap)
    (rec_t : tree -> tree -> result tree) : Prop :=
  forall h cur new tc tn fpc fpn,
    rep h cur tc fpc -> rep h new tn fpn -> fpc ## fpn ->
    merged_into h cur fpc fpn (rec_t tc tn) (rec_h cur new h).

(** ** The configuration container and its two queries *)

(** Modelled from the spec: [config.py] (class [NetPlan]) and
    [interface.py] are not under src/.  An interface is of one of five
    kinds; a bond or a bridge carries the names of its members, a VLAN the
    name of its link, an Ethernet or a wireless interface refers to no
    other interface. *)
Inductive netif :=
| Ethernet (name : string) (raw_definition : value)
| Wireless (name : string) (raw_definition : value)
| Bond (name : string) (raw_definition : value) (members : list string)
| Bridge (name : string) (raw_definition : value) (members : list string)
| VLAN (name : string) (raw_definition : value) (link : string).

(** Modelled from the spec: the outgoing references of an interface. *)
Definition references (i : netif) : list string :=
  match i with
  | Bond _ _ members | Bridge _ _ members => members
  | VLAN _ _ link => [link]
  | Ethernet _ _ | Wireless _ _ => []
  end.

(** Modelled from the spec: the kinds without outgoing references. *)
Definition is_physical (i : netif) : bool :=
  match i with
  | Ethernet _ _ | Wireless _ _ => true
  | _ => false
  end.

Inductive query_error :=
| UnresolvedNames (missing : list string)
| WorklistExhausted.

(** The work that is left for the closure: the names on the worklist and
    the references of the interfaces not visited yet. *)
Definition pending (cfg : gmap string netif) (visited : list string) : nat :=
  sum_list
    (map (fun kv => length (references (snd kv)))
       (filter (fun kv => fst kv ∉ visited) (map_to_list cfg))).

(** Modelled from the spec: the closure over a worklist of names with a
    list of the names visited so far (latest first), following the
    outgoing references of each interface.  A name that is not a key of
    the container is dropped. *)
Fixpoint closure (fuel : nat) (cfg : gmap string netif) (work visited : list string)
  : option (list string) :=
  match work with
  | [] => Some visited
  | x :: work' =>
      match fuel with
      | O => None
      | S fuel' =>
          if bool_decide (x ∈ visited) then closure fuel' cfg work' visited
          else match cfg !! x with
               | None => closure fuel' cfg work' visited
               | Some i => closure fuel' cfg (references i ++ work') (x :: visited)
               end
      end
  end.

(** The names in the order of their visit. *)
Definition visit_order (cfg : gmap string netif) (seed_names : list string)
  : option (list string) :=
  reverse <$> closure (length seed_names + pending cfg []) cfg seed_names [].

(** Modelled from the spec: [NetPlan.get_all_interfaces]; names that the
    container does not have are reported, all of them. *)
Definition get_all_interfaces (cfg : gmap string netif) (seed_names : list string)
  : query_error + gmap string netif :=
  let missing := sorted (remove_dups (filter (fun n => cfg !! n = None) seed_names)) in
  if negb (bool_decide (missing = [])) then inl (UnresolvedNames missing)
  else match visit_order cfg seed_names with
       | Some names => inr (filter (fun kv => fst kv ∈ names) cfg)
       | None => inl WorklistExhausted
       end.

(** Modelled from the spec: [NetPlan.get_physical_interfaces]. *)
Definition get_physical_interfaces (cfg : gmap string netif) (seed_names : list string)
  : query_error + gmap string netif :=
  match get_all_interfaces cfg seed_names with
  | inl e => inl e
  | inr all => inr (filter (fun kv => is_physical (snd kv) = true) all)
  end.

(** ** Observations used to state the properties *)

(** The items of the dictionary that [v] names among the objects of a
    decoded document. *)
Definition doc_dict (d : pydoc) (v : value) : option (list (string * value)) :=
  match v with
  | VRef l => match snd d !! l with Some (ODict kvs) => Some kvs | _ => None end
  | VScalar _ => None
  end.

(** The items of the mapping under the top-level key [network], when the
    document is a mapping and has a mapping there. *)
Definition doc_network (d : pydoc) : option (list (string * value)) :=
  match doc_dict d (fst d) with
  | Some kvs =>
      match dict_get "network" kvs with
      | Some net => doc_dict d net
      | None => None
      end
  | None => None
  end.

(** What the three shape checks of [parse_file] raise on a document that
    has no mapping under [network]. *)
Definition shape_error (d : pydoc) : exn :=
  match doc_dict d (fst d) with
  | None => Exception NotADictionary
  | Some kvs =>
      match dict_get "network" kvs with
      | None | Some (VScalar SNone) => Exception NoNetwork
      | Some _ => AttributeError
      end
  end.

(** The error that the version checks of [parse_file] raise on the items
    of a [network] mapping. *)
Definition version_error (off : nat) (net : list (string * value)) : reason :=
  match dict_get "version" net with
  | None | Some (VScalar SNone) => NoVersion
  | Some ver => UnsupportedVersion (shift_value off ver)
  end.

(** The version marker is there and equal to [2]. *)
Definition version_ok (net : list (string * value)) : bool :=
  match dict_get "version" net with
  | Some ver => negb (is_None ver) && py_eq_int ver 2
  | None => false
  end.

(** The section names of a [network] mapping, the version marker apart,
    that [BY_SECTION] does not have. *)
Definition unknown_sections (net : list (string * value)) : list string :=
  filter (fun k => k ∉ dict_keys BY_SECTION) (dict_keys (dict_del "version" net)).

(** One file of the loop of [_combine_files], before the exception is
    wrapped. *)
Definition file_step (read_yaml : string -> result pydoc) (depth : nat)
    (raw : value) (fname : string) (h : heap) : result heap :=
  try (net, h1) := parse_file read_yaml (dict_keys BY_SECTION) fname h in
  _combine_dicts depth raw net h1.

(** The files [pre] were loaded into a new accumulator made in the store
    [h0], and left the store [h]. *)
Definition loaded (read_yaml : string -> result pydoc) (depth : nat)
    (h0 : heap) (pre : list string) (h : heap) : Prop :=
  load_files read_yaml depth (dict_keys BY_SECTION) (VRef (length h0)) pre
    (h0 ++ [ODict []]) = inr h.

Definition obj_values (o : obj) : list value :=
  match o with
  | OList xs => xs
  | ODict kvs => map snd kvs
  end.

(** No object of the store holds a reference to the location [r]. *)
Definition no_ref (r : loc) (h : heap) : Prop :=
  forall l o, h !! l = Some o -> VRef r ∉ obj_values o.

(** The directory [d] has a regular file [name] with the suffix. *)
Definition occurs (fs : filesystem) (d name : string) : Prop :=
  isdir fs d = true /\ name ∈ listdir fs d /\
  endswith ".yaml" name = true /\ isfile fs (path_join d name) = true.

(** [d] is the last directory of [dirs] in which [name] occurs. *)
Definition last_occurrence (fs : filesystem) (dirs : list string) (name d : string) : Prop :=
  exists ds1 ds2, dirs = ds1 ++ d :: ds2 /\ occurs fs d name /\
    forall d', d' ∈ ds2 -> ~ occurs fs d' name.

(** A merge into another object than [r] leaves [r] as it is. *)
Definition keeps_accumulator (r : loc) (rec : value -> value -> heap -> result heap) : Prop :=
  forall cur new h h', no_ref r h -> cur <> VRef r -> rec cur new h = inr h' ->
    no_ref r h' /\ h' !! r = h !! r.

(** The accumulator [raw] of [_combine_files]: a dictionary at [r] whose
    keys are section names, and to which no object refers. *)
Definition accumulator_ok (r : loc) (h : heap) : Prop :=
  no_ref r h /\
  exists kvs, h !! r = Some (ODict kvs) /\ dict_keys kvs ⊆ dict_keys BY_SECTION.

(** The file decodes to a document that passes every check of
    [parse_file]. *)
Definition valid_file (read_yaml : string -> result pydoc) (fname : string) : Prop :=
  exists d items,
    read_yaml fname = inr d /\ doc_network d = Some items /\
    version_ok items = true /\ unknown_sections items = [].

(** ** Tactics *)

(** Case analysis on the comparison of two keys. *)
Ltac case_key k k' :=
  destruct (String.eqb_spec k k') as [->|?]; simpl in *; try done.

(** Builds the derivation of [rep] for a value of a store that is given in
    full; the disjointness conditions are left to [set_solver]. *)
Ltac solve_rep :=
  lazymatch goal with
  | |- rep _ (VScalar _) _ _ => apply rep_scalar
  | |- rep _ (VRef _) (TList _) _ =>
      eapply rep_list; [reflexivity | solve_rep | set_solver]
  | |- rep _ (VRef _) (TDict _) _ =>
      eapply rep_dict; [reflexivity | compute_done | solve_rep | set_solver]
  | |- rep_elems _ [] _ _ => apply rep_elems_nil
  | |- rep_elems _ (_ :: _) _ _ =>
      eapply rep_elems_cons; [solve_rep | solve_rep | set_solver]
  | |- rep_items _ [] _ _ => apply rep_items_nil
  | |- rep_items _ (_ :: _) _ _ =>
      eapply rep_items_cons; [solve_rep | solve_rep | set_solver]
  end.

Ltac solve_separate :=
  eexists _, _; split_and!; [solve_rep | solve_rep | set_solver].

(** ** Example inputs *)

Definition ex_base : tree :=
  TDict [("network", TDict
    [("version", TScalar (SInt 2));
     ("ethernets", TDict [("eth0", TDict
        [("dhcp4", TScalar (SBool true));
         ("addresses", TList [TScalar (SStr "10.0.0.2/24")])])]);
     ("vlans", TDict [("vlan10", TDict
        [("id", TScalar (SInt 10)); ("link", TScalar (SStr "eth0"))])])])].

Definition ex_override : tree :=
  TDict [("network", TDict
    [("version", TScalar (SInt 2));
     ("vlans", TDict [("vlan10", TDict [("id", TScalar (SInt 20))])])])].

Definition ex_version1 : tree :=
  TDict [("network", TDict
    [("version", TScalar (SInt 1)); ("ethernets", TDict [])])].

Definition ex_tunnels : tree :=
  TDict [("network", TDict
    [("version", TScalar (SInt 2));
     ("tunnels", TDict []); ("ethernets", TDict []); ("routes", TList [])])].

Definition ex_two_keys : tree :=
  TDict [("network", TDict
    [("version", TScalar (SInt 2)); ("ethernets", TDict [("eth1", TDict [])])]);
         ("renderer", TScalar (SStr "networkd"))].

Definition ex_sequence : tree := TList [TScalar (SStr "network")].

Definition ex_scalar_section : tree :=
  TDict [("network", TDict
    [("version", TScalar (SInt 2)); ("ethernets", TScalar (SInt 5))])].

(** What the decoder builds for a text in which [eth1] takes the addresses
    of [eth0] by an alias:
<<
network:
  version: 2
  ethernets:
    eth0:
      addresses: &a [10.0.0.2/24]
    eth1:
      addresses: *a
>>
    The two interfaces hold one list object. *)
Definition ex_anchor : pydoc :=
  (VRef 5,
   [ OList [VScalar (SStr "10.0.0.2/24")];
     ODict [("addresses", VRef 0)];
     ODict [("addresses", VRef 0)];
     ODict [("eth0", VRef 1); ("eth1", VRef 2)];
     ODict [("version", VScalar (SInt 2)); ("ethernets", VRef 3)];
     ODict [("network", VRef 4)] ]).

Definition ex_more : tree :=
  TDict [("network", TDict
    [("version", TScalar (SInt 2));
     ("ethernets", TDict [("eth0", TDict
        [("addresses", TList [TScalar (SStr "10.0.0.9/24")])])])])].

Definition ex_files : list (string * result pydoc) :=
  [ ("01-base.yaml", inr (doc_of_tree ex_base));
    ("50-override.yaml", inr (doc_of_tree ex_override));
    ("20-version1.yaml", inr (doc_of_tree ex_version1));
    ("30-tunnels.yaml", inr (doc_of_tree ex_tunnels));
    ("40-two-keys.yaml", inr (doc_of_tree ex_two_keys));
    ("60-sequence.yaml", inr (doc_of_tree ex_sequence));
    ("65-scalar-section.yaml", inr (doc_of_tree ex_scalar_section));
    ("70-broken.yaml", inl (DecodeError "mapping values are not allowed here"));
    ("80-anchor.yaml", inr ex_anchor);
    ("90-more.yaml", inr (doc_of_tree ex_more)) ].

Definition ex_read_yaml (fname : string) : result pydoc :=
  match dict_get fname ex_files with
  | Some r => r
  | None => inl (DecodeError "No such file or directory")
  end.

(** Two directories of the default three: [50-site.yaml] is in both,
    [sub.yaml] is a directory, [/run/netplan] does not exist. *)
Definition ex_fs : filesystem :=
  {| isdir d := bool_decide (d ∈ ["/lib/netplan"; "/etc/netplan"; "/etc/netplan/sub.yaml"]);
     isfile p := bool_decide (p ∈ ["/lib/netplan/50-site.yaml"; "/lib/netplan/01-base.yaml";
                                   "/lib/netplan/README"; "/etc/netplan/50-site.yaml";
                                   "/etc/netplan/10-lan.yaml"]);
     listdir d :=
       if String.eqb d "/lib/netplan" then ["50-site.yaml"; "README"; "01-base.yaml"]
       else if String.eqb d "/etc/netplan" then ["sub.yaml"; "50-site.yaml"; "10-lan.yaml"]
       else [] |}.

(** A bridge and a bond that name each other, a VLAN on an Ethernet
    interface, and a reference to an interface that is not configured. *)
Definition ex_cfg : gmap string netif :=
  list_to_map
    [ ("eth0", Ethernet "eth0" (VScalar SNone));
      ("wlan0", Wireless "wlan0" (VScalar SNone));
      ("vlan10", VLAN "vlan10" (VScalar SNone) "eth0");
      ("br0", Bridge "br0" (VScalar SNone) ["bond0"]);
      ("bond0", Bond "bond0" (VScalar SNone) ["br0"]);
      ("br1", Bridge "br1" (VScalar SNone) ["vlan10"; "br0"; "eth7"]) ].

(** An accumulator (at location 2) and a new document (at location 5)
    that share nothing. *)
Definition ex_store : heap :=
  [ OList [VScalar (SStr "10.0.0.2/24")];
    ODict [("id", VScalar (SInt 10)); ("link", VScalar (SStr "eth0"))];
    ODict [("addresses", VRef 0); ("vlan10", VRef 1); ("mtu", VScalar (SInt 1500))];
    OList [VScalar (SStr "10.0.0.3/24")];
    ODict [("id", VScalar (SInt 20))];
    ODict [("addresses", VRef 3); ("vlan10", VRef 4); ("mtu", VScalar (SInt 9000));
           ("dhcp4", VScalar (SBool false))] ].

Definition ex_A : list (string * tree) :=
  [ ("addresses", TList [TScalar (SStr "10.0.0.2/24")]);
    ("vlan10", TDict [("id", TScalar (SInt 10)); ("link", TScalar (SStr "eth0"))]);
    ("mtu", TScalar (SInt 1500)) ].

Definition ex_B : list (string * tree) :=
  [ ("addresses", TList [TScalar (SStr "10.0.0.3/24")]);
    ("vlan10", TDict [("id", TScalar (SInt 20))]);
    ("mtu", TScalar (SInt 9000));
    ("dhcp4", TScalar (SBool false)) ].

(** Accumulators and new documents whose types differ under the key [k]:
    a number meets the empty mapping (locations 0 and 2), and a number
    meets a sequence (locations 0 and 4). *)
Definition ex_store_types : heap :=
  [ ODict [("k", VScalar (SInt 1))];
    ODict [];
    ODict [("k", VRef 1)];
    OList [VScalar (SInt 2)];
    ODict [("k", VRef 3)] ].

(** An accumulator (location 3) in which [eth0] and [eth1] hold one list
    object, and a new document (location 6) that has [eth0] only. *)
Definition ex_store_alias : heap :=
  [ OList [VScalar (SStr "10.0.0.2/24")];
    ODict [("addresses", VRef 0)];
    ODict [("addresses", VRef 0)];
    ODict [("eth0", VRef 1); ("eth1", VRef 2)];
    OList [VScalar (SStr "10.0.0.9/24")];
    ODict [("addresses", VRef 4)];
    ODict [("eth0", VRef 5)] ].



(** ** The interfaces of the configuration *)

(** The interface [i] stored under [name] was built from a definition
    that a section of [sections] has for this name: it carries the name,
    the section, the class that [BY_SECTION] gives for the section, and
    the definition as it is in the store. *)
Definition built_from (sections : list (string * value)) (h : heap)
    (name : string) (i : Interface) : Prop :=
  iface_name i = name /\
  dict_get (iface_section i) BY_SECTION = Some (iface_class_of i) /\
  exists ifaces defs,
    (iface_section i, ifaces) ∈ sections /\ py_items ifaces h = inr defs /\
    (name, iface_data i) ∈ defs.

(** ** File systems and stores compared *)

(** The file system [fs] without the directory entries whose name is in
    [names]. *)
Definition without (fs : filesystem) (names : list string) : filesystem :=
  {| isdir := isdir fs;
     isfile := isfile fs;
     listdir d := filter (fun name => name ∉ names) (listdir fs d) |}.

(** The object [o'] is of the kind of [o] and has kept what [o] had: a
    list its elements, a dictionary its keys, in their order and before
    whatever was added. *)
Definition obj_grows (o o' : obj) : Prop :=
  match o, o' with
  | OList xs, OList xs' => xs `prefix_of` xs'
  | ODict kvs, ODict kvs' => dict_keys kvs `prefix_of` dict_keys kvs'
  | _, _ => False
  end.

(** The store [h'] has the objects of [h], each of them grown, and no
    other. *)
Definition grows (h h' : heap) : Prop :=
  length h' = length h /\
  forall l o, h !! l = Some o -> exists o', h' !! l = Some o' /\ obj_grows o o'.

(** ** The overlay of files without aliases *)

(** The file decodes to a document without shared containers that passes
    the checks of [parse_file]; [sections] is what the document has under
    [network], as a tree and without the version marker. *)
Definition alias_free (read_yaml : string -> result pydoc) (fname : string)
    (sections : list (string * tree)) : Prop :=
  exists d t items ver,
    read_yaml fname = inr d /\ unshared (snd d) (fst d) t /\
    tree_get ["network"] t = Some (TDict items) /\
    dict_get "version" items = Some (TScalar ver) /\
    py_eq_int (VScalar ver) 2 = true /\
    sections = dict_del "version" items /\
    dict_keys sections ⊆ dict_keys BY_SECTION.

(** The loop over the files of [_combine_files] on trees: the sections of
    each file are merged into the accumulator, and the exception of a merge
    is wrapped with the name of the file. *)
Fixpoint overlay (depth : nat) (acc : tree) (docs : list (string * list (string * tree)))
  : result tree :=
  match docs with
  | [] => inr acc
  | (fname, sections) :: rest =>
      match combine_trees depth acc (TDict sections) with
      | inl exc => inl (ParseFileException fname exc)
      | inr acc' => overlay depth acc' rest
      end
  end.

(** ** The command-line tool *)







(** ** Further example inputs *)



(** A file that defines [br0] in two sections. *)
Definition ex_two_sections : tree :=
  TDict [("network", TDict
    [("version", TScalar (SInt 2));
     ("ethernets", TDict [("br0", TDict [("dhcp4", TScalar (SBool true))])]);
     ("bridges", TDict [("br0", TDict [("interfaces", TList [TScalar (SStr "eth0")])])])])].

Definition ex_read_two_sections (fname : string) : result pydoc :=
  if String.eqb fname "10-two-sections.yaml" then inr (doc_of_tree ex_two_sections)
  else ex_read_yaml fname.

(** The sections of [ex_base] and of [ex_override], by file. *)
Definition ex_docs : list (string * list (string * tree)) :=
  [ ("01-base.yaml",
     [("ethernets", TDict [("eth0", TDict
         [("dhcp4", TScalar (SBool true));
          ("addresses", TList [TScalar (SStr "10.0.0.2/24")])])]);
      ("vlans", TDict [("vlan10", TDict
         [("id", TScalar (SInt 10)); ("link", TScalar (SStr "eth0"))])])]);
    ("50-override.yaml",
     [("vlans", TDict [("vlan10", TDict [("id", TScalar (SInt 20))])])]) ].

(** What the overlay of [ex_docs] gives. *)
Definition ex_overlay : list (string * tree) :=
  [ ("ethernets", TDict [("eth0", TDict
       [("dhcp4", TScalar (SBool true));
        ("addresses", TList [TScalar (SStr "10.0.0.2/24")])])]);
    ("vlans", TDict [("vlan10", TDict
       [("id", TScalar (SInt 20)); ("link", TScalar (SStr "eth0"))])]) ].
(** * Properties *)

(** ** Dictionaries *)

Section dict.
Context {A : Type}.
Implicit Types (d : list (string * A)) (k : string) (v : A).

Lemma dict_get_Some_elem k v d : dict_get k d = Some v -> (k, v) ∈ d.
Proof.
  induction d as [|[k' v'] d IH]; simpl; [done|].
  case_key k k'; intros ?; simplify_eq; [left | right; auto].
Qed.

Lemma dict_get_elem k v d : NoDup (dict_keys d) -> (k, v) ∈ d -> dict_get k d = Some v.
Proof.
  induction d as [|[k' v'] d IH]; simpl; intros Hnd Hin; [by apply elem_of_nil in Hin|].
  apply NoDup_cons in Hnd as [Hk' Hnd].
  apply elem_of_cons in Hin as [[= -> ->]|Hin].
  - by rewrite String.eqb_refl.
  - case_key k k'; [|by apply IH]. exfalso. apply Hk'.
    apply list_elem_of_fmap. by exists (k', v).
Qed.

Lemma dict_get_None k d : dict_get k d = None <-> k ∉ dict_keys d.
Proof.
  induction d as [|[k' v'] d IH]; simpl.
  - split; [|done]. intros _ ?%elem_of_nil. done.
  - rewrite not_elem_of_cons. case_key k k'; naive_solver.
Qed.

Lemma dict_mem_true k d : dict_mem k d = true <-> k ∈ dict_keys d.
Proof.
  unfold dict_mem. destruct (dict_get k d) eqn:E.
  - split; [|done]. intros _. destruct (decide (k ∈ dict_keys d)); [done|].
    apply dict_get_None in n. congruence.
  - apply dict_get_None in E. naive_solver.
Qed.

Lemma dict_mem_false k d : dict_mem k d = false <-> k ∉ dict_keys d.
Proof. rewrite <- dict_mem_true. destruct (dict_mem k d); naive_solver. Qed.

Lemma dict_get_set_eq k v d : dict_get k (dict_set k v d) = Some v.
Proof.
  induction d as [|[k' v'] d IH]; simpl.
  - by rewrite String.eqb_refl.
  - case_key k k'; [by rewrite String.eqb_refl|].
    by case_key k k'.
Qed.

Lemma dict_get_set_ne k k' v d : k <> k' -> dict_get k' (dict_set k v d) = dict_get k' d.
Proof.
  intros Hne. induction d as [|[k2 v2] d IH]; simpl.
  - by case_key k' k.
  - case_key k k2; by case_key k' k2.
Qed.

Lemma dict_keys_set k v d :
  dict_keys (dict_set k v d) = if dict_mem k d then dict_keys d else dict_keys d ++ [k].
Proof.
  unfold dict_mem. induction d as [|[k' v'] d IH]; simpl; [done|].
  case_key k k'.
  unfold dict_keys in *. rewrite IH. by destruct (dict_get k d).
Qed.

Lemma dict_keys_set_elem k k' v d :
  k' ∈ dict_keys (dict_set k v d) <-> k' = k \/ k' ∈ dict_keys d.
Proof.
  rewrite dict_keys_set. destruct (dict_mem k d) eqn:E.
  - apply dict_mem_true in E. naive_solver.
  - rewrite elem_of_app, list_elem_of_singleton. naive_solver.
Qed.

Lemma dict_set_NoDup k v d : NoDup (dict_keys d) -> NoDup (dict_keys (dict_set k v d)).
Proof.
  intros Hd. rewrite dict_keys_set. destruct (dict_mem k d) eqn:E; [done|].
  apply dict_mem_false in E. apply NoDup_app. split_and!; [done| |apply NoDup_singleton].
  intros x Hx ->%list_elem_of_singleton. done.
Qed.

Lemma dict_keys_del_subseteq k d : dict_keys (dict_del k d) ⊆ dict_keys d.
Proof.
  induction d as [|[k' v'] d IH]; simpl; [done|].
  case_key k k'; set_solver.
Qed.

End dict.

(** ** Reading a decoded document in the store *)

Section loaded_doc.
Context (d : pydoc) (h : heap).
Local Abbreviation n := (length h).
Local Abbreviation h1 := (h ++ map (shift_obj n) (snd d)).

Lemma lookup_loaded_new l : h1 !! (n + l) = shift_obj n <$> snd d !! l.
Proof.
  rewrite lookup_app_r by lia.
  replace (length h + l - length h) with l by lia. by rewrite list_lookup_fmap.
Qed.

Lemma dict_get_shift key kvs :
  dict_get key (map (fun kv => (fst kv, shift_value n (snd kv))) kvs)
  = shift_value n <$> dict_get key kvs.
Proof.
  induction kvs as [|[k v] kvs IH]; simpl; [done|]. by case_key key k.
Qed.

Lemma dict_del_shift key kvs :
  dict_del key (map (fun kv => (fst kv, shift_value n (snd kv))) kvs)
  = map (fun kv => (fst kv, shift_value n (snd kv))) (dict_del key kvs).
Proof.
  induction kvs as [|[k v] kvs IH]; simpl; [done|]. case_key key k. by rewrite IH.
Qed.

Lemma dict_keys_shift kvs :
  dict_keys (map (fun kv => (fst kv, shift_value n (snd kv))) kvs) = dict_keys kvs.
Proof. unfold dict_keys. rewrite map_map. done. Qed.

Lemma dict_mem_shift key kvs :
  dict_mem key (map (fun kv => (fst kv, shift_value n (snd kv))) kvs) = dict_mem key kvs.
Proof. unfold dict_mem. rewrite dict_get_shift. by destruct (dict_get key kvs). Qed.

Lemma lookup_loaded_dict v kvs :
  doc_dict d v = Some kvs ->
  exists l, shift_value n v = VRef (n + l) /\
    h1 !! (n + l) = Some (ODict (map (fun kv => (fst kv, shift_value n (snd kv))) kvs)).
Proof.
  destruct v as [s|l]; simpl; [done|]. intros Hd. exists l. split; [done|].
  rewrite lookup_loaded_new. destruct (snd d !! l) as [[xs|kvs']|]; by simplify_eq.
Qed.

Lemma isinstance_dict_loaded v :
  isinstance_dict (shift_value n v) h1 = bool_decide (is_Some (doc_dict d v)).
Proof.
  destruct v as [s|l]; simpl; [done|].
  rewrite lookup_loaded_new. by destruct (snd d !! l) as [[xs|kvs']|].
Qed.

Lemma py_get_loaded v key kvs :
  doc_dict d v = Some kvs ->
  py_get (shift_value n v) key h1
  = inr (shift_value n (default (VScalar SNone) (dict_get key kvs))).
Proof.
  intros (l & -> & Hl)%lookup_loaded_dict. simpl. rewrite Hl, dict_get_shift.
  by destruct (dict_get key kvs).
Qed.

Lemma py_get_loaded_None v key :
  doc_dict d v = None -> py_get (shift_value n v) key h1 = inl AttributeError.
Proof.
  destruct v as [s|l]; simpl; [done|]. rewrite lookup_loaded_new.
  by destruct (snd d !! l) as [[xs|kvs']|].
Qed.

End loaded_doc.

Lemma is_None_shift n v : is_None (shift_value n v) = is_None v.
Proof. by destruct v as [[]|]. Qed.

Lemma py_eq_int_shift n v k : py_eq_int (shift_value n v) k = py_eq_int v k.
Proof. by destruct v as [[]|]. Qed.

Lemma is_None_true v : is_None v = true <-> v = VScalar SNone.
Proof. destruct v as [[]|]; naive_solver. Qed.

(** ** parse_file *)

Section parse_file.
Context (read_yaml : string -> result pydoc) (skeys : list string).
Context (fname : string) (h : heap) (d : pydoc).
Hypothesis Hread : read_yaml fname = inr d.

Lemma parse_file_decode_error e h' :
  read_yaml fname = inl e -> parse_file read_yaml skeys fname h' = inl e.
Proof. intros He. unfold parse_file. by rewrite He. Qed.

(** No mapping under [network]: one of the three shape errors. *)
Lemma parse_file_shape :
  doc_network d = None ->
  parse_file read_yaml skeys fname h = inl (shape_error d).
Proof.
  intros Hnet. unfold parse_file, doc_network, shape_error in *.
  rewrite Hread. simpl. rewrite isinstance_dict_loaded.
  destruct (doc_dict d (fst d)) as [kvs|] eqn:Hc; simpl.
  2:{ done. }
  rewrite (py_get_loaded _ _ _ _ kvs) by done. simpl.
  destruct (dict_get "network" kvs) as [net|] eqn:Hn; simpl; [|done].
  rewrite is_None_shift. destruct (is_None net) eqn:HN.
  - apply is_None_true in HN. by subst.
  - rewrite py_get_loaded_None by done. simpl.
    destruct net as [[]|]; done.
Qed.

(** A mapping under [network] whose version marker is missing or wrong. *)
Lemma parse_file_version net :
  doc_network d = Some net -> version_ok net = false ->
  parse_file read_yaml skeys fname h = inl (Exception (version_error (length h) net)).
Proof.
  intros Hnet Hver. unfold parse_file, doc_network, version_error, version_ok in *.
  rewrite Hread. simpl. rewrite isinstance_dict_loaded.
  destruct (doc_dict d (fst d)) as [kvs|] eqn:Hc; [|done]. simpl.
  rewrite (py_get_loaded _ _ _ _ kvs) by done. simpl.
  destruct (dict_get "network" kvs) as [nv|] eqn:Hn; [|done]. simpl.
  rewrite is_None_shift. destruct (is_None nv) eqn:HN.
  { apply is_None_true in HN. by subst. }
  rewrite (py_get_loaded _ _ _ _ net) by done. simpl.
  destruct (dict_get "version" net) as [ver|] eqn:Hv; simpl; [|done].
  rewrite is_None_shift, py_eq_int_shift.
  destruct (is_None ver) eqn:HV.
  { apply is_None_true in HV. by subst. }
  simpl in Hver. rewrite Hver. simpl. by destruct ver as [[]|].
Qed.

Lemma sorted_nil_inv (l : list string) : sorted l = [] -> l = [].
Proof.
  intros Hs. apply Permutation_nil_r. rewrite <- Hs. unfold sorted.
  by rewrite merge_sort_Permutation.
Qed.

(** A mapping under [network] with the right version: the marker is
    deleted in place and the remaining keys are checked. *)
Lemma parse_file_checked net :
  doc_network d = Some net -> version_ok net = true ->
  exists l : nat, (snd d : list obj) !! l = Some (ODict net) /\
    let n := length h in
    let net' := map (fun kv => (fst kv, shift_value n (snd kv))) (dict_del "version" net) in
    let unknown := filter (fun k => k ∉ skeys) (dict_keys (dict_del "version" net)) in
    parse_file read_yaml skeys fname h =
      if decide (unknown = []) then
        inr (VRef (n + l), <[n + l := ODict net']> (h ++ map (shift_obj n) (snd d)))
      else inl (Exception (UnsupportedSections (sorted unknown))).
Proof.
  intros Hnet Hver. unfold parse_file, doc_network, version_ok in *.
  rewrite Hread. simpl. rewrite isinstance_dict_loaded.
  destruct (doc_dict d (fst d)) as [kvs|] eqn:Hc; [|done]. simpl.
  rewrite (py_get_loaded _ _ _ _ kvs) by done. simpl.
  destruct (dict_get "network" kvs) as [nv|] eqn:Hn; [|done]. simpl.
  rewrite is_None_shift. destruct (is_None nv) eqn:HN.
  { apply is_None_true in HN. by subst. }
  rewrite (py_get_loaded _ _ _ _ net) by done. simpl.
  destruct (dict_get "version" net) as [ver|] eqn:Hv; simpl; [|done].
  apply andb_true_iff in Hver as [HV Heq]. apply negb_true_iff in HV.
  rewrite is_None_shift, py_eq_int_shift, HV, Heq. simpl.
  destruct nv as [s|l]; [done|]. exists l. simpl in Hnet.
  destruct (snd d !! l) as [[xs|kvs']|] eqn:Hl; simplify_eq. split; [done|].
  pose proof (lookup_loaded_new d h l) as Hl1. rewrite Hl in Hl1. simpl in Hl1.
  simpl. rewrite Hl1. simpl. rewrite dict_mem_shift. unfold dict_mem. rewrite Hv. simpl.
  rewrite list_lookup_insert_eq by (by eapply lookup_lt_Some).
  simpl. rewrite dict_del_shift, dict_keys_shift.
  rewrite (list_filter_iff _ (fun k => k ∉ skeys)).
  2:{ intros k. rewrite negb_True, bool_decide_spec. done. }
  destruct (decide (filter _ _ = [])) as [He|Hne].
  - rewrite He. done.
  - rewrite bool_decide_eq_false_2; [done|]. by intros ?%sorted_nil_inv.
Qed.

End parse_file.

(** ** The loop over the files *)

Section load.
Context (read_yaml : string -> result pydoc) (depth : nat).
Implicit Types (h : heap) (files pre post : list string) (fname : string).

Lemma load_one_file_step raw fname h :
  load_one read_yaml depth (dict_keys BY_SECTION) raw fname h =
    match file_step read_yaml depth raw fname h with
    | inl exc => inl (ParseFileException fname exc)
    | inr h' => inr h'
    end.
Proof. done. Qed.

Lemma load_files_app skeys raw pre post h :
  load_files read_yaml depth skeys raw (pre ++ post) h =
    try h' := load_files read_yaml depth skeys raw pre h in
    load_files read_yaml depth skeys raw post h'.
Proof.
  revert h. induction pre as [|f pre IH]; intros h; simpl; [done|].
  destruct (load_one _ _ _ _ f h); simpl; [done|]. apply IH.
Qed.

(** The first file that fails ends the load with its wrapped error. *)
Lemma combine_files_abort pre fname post h0 h e :
  loaded read_yaml depth h0 pre h ->
  file_step read_yaml depth (VRef (length h0)) fname h = inl e ->
  _combine_files read_yaml depth (pre ++ fname :: post) h0
  = inl (ParseFileException fname e).
Proof.
  unfold loaded, _combine_files. intros Hpre Hstep.
  rewrite load_files_app, Hpre. simpl.
  rewrite load_one_file_step, Hstep. done.
Qed.

Lemma file_step_parse_error raw fname h e :
  parse_file read_yaml (dict_keys BY_SECTION) fname h = inl e ->
  file_step read_yaml depth raw fname h = inl e.
Proof. unfold file_step. by intros ->. Qed.

(** A load that returns has decoded, checked and merged every file. *)
Lemma combine_files_loaded files h0 data h :
  _combine_files read_yaml depth files h0 = inr (data, h) ->
  loaded read_yaml depth h0 files h.
Proof.
  unfold _combine_files, loaded, bind. intros H.
  repeat case_match; by simplify_eq.
Qed.

End load.

(** ** The accumulator is reached through no other object *)

Section no_ref.
Context (r : loc).
Implicit Types (h : heap) (cur new v : value).

Lemma no_ref_insert h l o :
  no_ref r h -> VRef r ∉ obj_values o -> no_ref r (<[l := o]> h).
Proof.
  intros Hh Ho l' o' Hl'. destruct (decide (l = l')) as [->|Hne].
  - apply list_lookup_insert_Some in Hl' as [(_ & -> & _)|[? _]]; done.
  - rewrite list_lookup_insert_ne in Hl' by done. by eapply Hh.
Qed.

Lemma dict_set_values {A} k (x y : A) d :
  y ∈ map snd (dict_set k x d) -> y = x \/ y ∈ map snd d.
Proof.
  induction d as [|[k' v'] d IH]; simpl.
  - intros ->%list_elem_of_singleton. by left.
  - case_key k k'; rewrite !elem_of_cons; naive_solver.
Qed.

Lemma no_ref_getitem h cur k v :
  no_ref r h -> py_getitem cur k h = inr v -> v <> VRef r.
Proof.
  intros Hh Hget Heq. subst v. destruct cur as [s|l]; simpl in Hget; [done|].
  destruct (h !! l) as [[xs|kvs]|] eqn:Hl; try done.
  destruct (dict_get k kvs) as [v|] eqn:Hk; simplify_eq.
  apply dict_get_Some_elem in Hk. apply (Hh l _ Hl). simpl.
  apply list_elem_of_fmap. by exists (k, VRef r).
Qed.

Lemma no_ref_items h new items :
  no_ref r h -> py_items new h = inr items ->
  Forall (fun kv => snd kv <> VRef r) items.
Proof.
  intros Hh Hit. destruct new as [s|l]; simpl in Hit; [done|].
  destruct (h !! l) as [[xs|kvs]|] eqn:Hl; simplify_eq.
  apply Forall_forall. intros [k v] Hkv ?. simpl in *. subst.
  apply (Hh l _ Hl). simpl. apply list_elem_of_fmap. by exists (k, VRef r).
Qed.

Lemma no_ref_setitem h h' cur k v :
  no_ref r h -> v <> VRef r -> py_setitem cur k v h = inr h' ->
  no_ref r h' /\ (cur <> VRef r -> h' !! r = h !! r).
Proof.
  intros Hh Hv Hset. destruct cur as [s|l]; simpl in Hset; [done|].
  destruct (h !! l) as [[xs|kvs]|] eqn:Hl; simplify_eq. split.
  - apply no_ref_insert; [done|]. simpl. intros [Heq|Hin]%dict_set_values; [congruence|].
    by apply (Hh l _ Hl).
  - intros Hne. rewrite list_lookup_insert_ne; [done|]. congruence.
Qed.

Lemma no_ref_extend h h' target src :
  no_ref r h -> target <> VRef r -> py_extend target src h = inr h' ->
  no_ref r h' /\ h' !! r = h !! r.
Proof.
  intros Hh Hne Hext. destruct target as [s|l]; simpl in Hext; [done|].
  destruct (h !! l) as [[xs|kvs]|] eqn:Hl; try done.
  destruct src as [s|l']; [done|].
  destruct (h !! l') as [[ys|kvs]|] eqn:Hl'; simplify_eq. split.
  - apply no_ref_insert; [done|]. simpl. rewrite elem_of_app.
    intros [Hin|Hin]; [by apply (Hh l _ Hl)|by apply (Hh l' _ Hl')].
  - rewrite list_lookup_insert_ne; [done|]. congruence.
Qed.

Lemma run_items_no_ref rec cur items h h' :
  keeps_accumulator r rec -> cur <> VRef r ->
  Forall (fun kv => snd kv <> VRef r) items -> no_ref r h ->
  run_items (combine_item rec cur) items h = inr h' ->
  no_ref r h' /\ h' !! r = h !! r.
Proof.
  intros Hrec Hcur Hitems. revert h. induction Hitems as [|[k v] items Hv _ IH];
    intros h Hh Hrun; simpl in *; [by simplify_eq|].
  destruct (py_contains k cur h) as [e|present]; simpl in Hrun; [done|].
  assert (forall h1, (no_ref r h1 /\ h1 !! r = h !! r) ->
    run_items (combine_item rec cur) items h1 = inr h' ->
    no_ref r h' /\ h' !! r = h !! r) as Hnext.
  { intros h1 [Hh1 Heq] Hrun1. destruct (IH h1 Hh1 Hrun1) as [? ?]. split; [done|congruence]. }
  destruct (negb present).
  { destruct (py_setitem cur k v h) as [e|h1] eqn:Hset; simpl in Hrun; [done|].
    apply (Hnext h1); [|done]. destruct (no_ref_setitem _ _ _ _ _ Hh Hv Hset). auto. }
  destruct (isinstance_list v h).
  { destruct (py_getitem cur k h) as [e|target] eqn:Hget; simpl in Hrun; [done|].
    destruct (py_extend target v h) as [e|h1] eqn:Hext; simpl in Hrun; [done|].
    apply (Hnext h1); [|done]. eapply no_ref_extend; [done| |done].
    by eapply no_ref_getitem. }
  destruct (isinstance_dict v h).
  { destruct (py_getitem cur k h) as [e|sub] eqn:Hget; simpl in Hrun; [done|].
    destruct (rec sub v h) as [e|h1] eqn:Hrec'; simpl in Hrun; [done|].
    apply (Hnext h1); [|done]. eapply Hrec; [done| |done].
    by eapply no_ref_getitem. }
  destruct (py_setitem cur k v h) as [e|h1] eqn:Hset; simpl in Hrun; [done|].
  apply (Hnext h1); [|done]. destruct (no_ref_setitem _ _ _ _ _ Hh Hv Hset). auto.
Qed.

Lemma combine_dicts_no_ref depth : keeps_accumulator r (_combine_dicts depth).
Proof.
  induction depth as [|depth IH]; intros cur new h h' Hh Hcur Hrun; simpl in Hrun; [done|].
  destruct (py_items new h) as [e|items] eqn:Hit; simpl in Hrun; [done|].
  eapply run_items_no_ref; [done|done| |done|done]. by eapply no_ref_items.
Qed.

(** A merge into [r] itself adds keys of the merged items, and no other. *)
Lemma run_items_accumulator rec items h h' kvs :
  keeps_accumulator r rec ->
  Forall (fun kv => snd kv <> VRef r) items -> no_ref r h ->
  h !! r = Some (ODict kvs) ->
  run_items (combine_item rec (VRef r)) items h = inr h' ->
  no_ref r h' /\ exists kvs', h' !! r = Some (ODict kvs') /\
    dict_keys kvs' ⊆ dict_keys kvs ++ dict_keys items.
Proof.
  intros Hrec Hitems. revert h kvs. induction Hitems as [|[k v] items Hv _ IH];
    intros h kvs Hh Hr Hrun; cbn [run_items combine_item bind] in Hrun.
  { simplify_eq. split; [done|]. exists kvs. split; [done|]. set_solver. }
  assert (py_contains k (VRef r) h = inr (dict_mem k kvs)) as Hc
    by (simpl; by rewrite Hr).
  rewrite Hc in Hrun. cbn [bind] in Hrun. clear Hc.
  assert (forall h1 kvs1, no_ref r h1 -> h1 !! r = Some (ODict kvs1) ->
    dict_keys kvs1 ⊆ k :: dict_keys kvs ->
    run_items (combine_item rec (VRef r)) items h1 = inr h' ->
    no_ref r h' /\ exists kvs', h' !! r = Some (ODict kvs') /\
      dict_keys kvs' ⊆ dict_keys kvs ++ k :: dict_keys items) as Hnext.
  { intros h1 kvs1 Hh1 Hr1 Hsub Hrun1.
    destruct (IH h1 kvs1 Hh1 Hr1 Hrun1) as (? & kvs' & ? & ?). split; [done|].
    exists kvs'. split; [done|]. set_solver. }
  assert (forall h1, py_setitem (VRef r) k v h = inr h1 ->
    no_ref r h1 /\ h1 !! r = Some (ODict (dict_set k v kvs))) as Hset.
  { intros h1 Hs. split; [by eapply no_ref_setitem|].
    simpl in Hs. rewrite Hr in Hs. simplify_eq.
    apply list_lookup_insert_eq. by eapply lookup_lt_Some. }
  assert (dict_keys (dict_set k v kvs) ⊆ k :: dict_keys kvs) as Hkeys.
  { intros x [->|?]%dict_keys_set_elem; set_solver. }
  destruct (negb (dict_mem k kvs)).
  { destruct (py_setitem (VRef r) k v h) as [e|h1] eqn:Hs; cbn [bind] in Hrun; [done|].
    destruct (Hset h1 eq_refl). by eapply Hnext. }
  assert (forall x h1, py_getitem (VRef r) k h = inr x ->
    (no_ref r h1 /\ h1 !! r = h !! r) ->
    run_items (combine_item rec (VRef r)) items h1 = inr h' ->
    no_ref r h' /\ exists kvs', h' !! r = Some (ODict kvs') /\
      dict_keys kvs' ⊆ dict_keys kvs ++ k :: dict_keys items) as Hsame.
  { intros x h1 _ [Hh1 Heq] Hrun1. eapply (Hnext h1 kvs); [done|congruence|set_solver|done]. }
  destruct (isinstance_list v h).
  { destruct (py_getitem (VRef r) k h) as [e|target] eqn:Hget; cbn [bind] in Hrun; [done|].
    destruct (py_extend target v h) as [e|h1] eqn:Hext; cbn [bind] in Hrun; [done|].
    eapply Hsame; [done| |done]. eapply no_ref_extend; [done| |done].
    by eapply no_ref_getitem. }
  destruct (isinstance_dict v h).
  { destruct (py_getitem (VRef r) k h) as [e|sub] eqn:Hget; cbn [bind] in Hrun; [done|].
    destruct (rec sub v h) as [e|h1] eqn:Hrec'; cbn [bind] in Hrun; [done|].
    eapply Hsame; [done| |done]. eapply Hrec; [done| |done].
    by eapply no_ref_getitem. }
  destruct (py_setitem (VRef r) k v h) as [e|h1] eqn:Hs; cbn [bind] in Hrun; [done|].
  destruct (Hset h1 eq_refl). by eapply Hnext.
Qed.

End no_ref.

(** ** What the loop over the files keeps true of the accumulator *)

Lemma shift_value_fresh n v r : r < n -> shift_value n v <> VRef r.
Proof. intros Hr. destruct v as [s|l]; simpl; [done|]. intros [= ?]. lia. Qed.

Lemma shift_obj_fresh n o r : r < n -> VRef r ∉ obj_values (shift_obj n o).
Proof.
  intros Hr. destruct o as [xs|kvs]; simpl.
  - intros (v & Hv & _)%list_elem_of_fmap. symmetry in Hv. by eapply shift_value_fresh.
  - rewrite map_map. simpl. intros ([k v] & Hv & _)%list_elem_of_fmap.
    symmetry in Hv. by eapply shift_value_fresh.
Qed.

Lemma no_ref_load_doc r h objs :
  r < length h -> no_ref r h -> no_ref r (h ++ map (shift_obj (length h)) objs).
Proof.
  intros Hr Hh l o Hl. apply lookup_app_Some in Hl as [Hl|[_ Hl]]; [by eapply Hh|].
  apply list_lookup_fmap_Some in Hl as (o' & -> & _). by apply shift_obj_fresh.
Qed.

Section load_invariant.
Context (read_yaml : string -> result pydoc) (depth : nat).

(** What a successful [parse_file] returns. *)
Lemma parse_file_inr fname h net h1 :
  parse_file read_yaml (dict_keys BY_SECTION) fname h = inr (net, h1) ->
  exists d items (l : nat),
    read_yaml fname = inr d /\ doc_network d = Some items /\
    version_ok items = true /\ unknown_sections items = [] /\
    (snd d : list obj) !! l = Some (ODict items) /\
    net = VRef (length h + l) /\
    h1 = <[length h + l :=
             ODict (map (fun kv => (fst kv, shift_value (length h) (snd kv)))
                      (dict_del "version" items))]>
           (h ++ map (shift_obj (length h)) (snd d)).
Proof.
  intros Hp. destruct (read_yaml fname) as [e|d] eqn:Hread.
  { by rewrite (parse_file_decode_error _ _ _ e) in Hp. }
  destruct (doc_network d) as [items|] eqn:Hnet.
  2:{ by rewrite (parse_file_shape _ _ _ _ d) in Hp. }
  destruct (version_ok items) eqn:Hver.
  2:{ by rewrite (parse_file_version _ _ _ _ d Hread items) in Hp. }
  destruct (parse_file_checked read_yaml (dict_keys BY_SECTION) fname h d Hread items Hnet Hver)
    as (l & Hl & Heq).
  cbv zeta in Heq. rewrite Heq in Hp. fold (unknown_sections items) in Hp.
  destruct (decide (unknown_sections items = [])) as [Hu|]; [|done].
  simplify_eq. by exists d, items, l.
Qed.

Lemma load_files_valid raw files h h' :
  load_files read_yaml depth (dict_keys BY_SECTION) raw files h = inr h' ->
  Forall (valid_file read_yaml) files.
Proof.
  revert h. induction files as [|f files IH]; intros h Hload; [constructor|].
  simpl in Hload. rewrite load_one_file_step in Hload. unfold file_step in Hload.
  destruct (parse_file read_yaml (dict_keys BY_SECTION) f h) as [e|[net h1]] eqn:Hp;
    [done|]. cbn [bind] in Hload.
  destruct (_combine_dicts depth raw net h1) as [e|h2]; [done|]. cbn [bind] in Hload.
  constructor; [|by eapply IH].
  apply parse_file_inr in Hp as (d & items & l & ? & ? & ? & ? & _).
  by exists d, items.
Qed.

Lemma file_step_accumulator r fname h h' :
  accumulator_ok r h ->
  file_step read_yaml depth (VRef r) fname h = inr h' ->
  accumulator_ok r h'.
Proof.
  intros (Hh & kvs & Hr & Hkeys). unfold file_step.
  destruct (parse_file _ _ fname h) as [e|[net h1]] eqn:Hp; simpl; [done|].
  apply parse_file_inr in Hp
    as (d & items & l & Hread & Hnet & Hver & Hunk & Hl & -> & ->).
  assert (r < length h) as Hlt by by eapply lookup_lt_Some.
  set (n := length h) in *.
  set (net' := map (fun kv => (fst kv, shift_value n (snd kv))) (dict_del "version" items)).
  set (h1 := <[n + l := ODict net']> (h ++ map (shift_obj n) (snd d))).
  assert (h1 !! (n + l) = Some (ODict net')) as Hnl.
  { apply list_lookup_insert_eq. rewrite length_app, length_map.
    apply lookup_lt_Some in Hl. lia. }
  assert (no_ref r h1) as Hh1.
  { apply no_ref_insert; [by apply no_ref_load_doc|]. simpl. subst net'.
    rewrite map_map. simpl. intros ([k v] & Hv & _)%list_elem_of_fmap.
    symmetry in Hv. by eapply shift_value_fresh. }
  assert (h1 !! r = Some (ODict kvs)) as Hr1.
  { subst h1. rewrite list_lookup_insert_ne by lia. by rewrite lookup_app_l. }
  destruct depth as [|depth']; simpl; [done|]. rewrite Hnl. simpl. intros Hrun.
  eapply run_items_accumulator in Hrun as (Hh' & kvs' & Hr' & Hsub);
    [|apply combine_dicts_no_ref| |done|done].
  2:{ eapply (no_ref_items r h1 (VRef (n + l))); [done|]. simpl. by rewrite Hnl. }
  split; [done|]. exists kvs'. split; [done|].
  intros k [Hk|Hk]%Hsub%elem_of_app; [by apply Hkeys|].
  subst net' n. rewrite (dict_keys_shift h) in Hk.
  destruct (decide (k ∈ dict_keys BY_SECTION)) as [|Hnot]; [done|].
  assert (k ∈ unknown_sections items) as Hin by (by apply list_elem_of_filter).
  rewrite Hunk in Hin. by apply elem_of_nil in Hin.
Qed.

Lemma load_files_accumulator r files h h' :
  accumulator_ok r h ->
  load_files read_yaml depth (dict_keys BY_SECTION) (VRef r) files h = inr h' ->
  accumulator_ok r h'.
Proof.
  revert h. induction files as [|f files IH]; intros h Hacc; simpl.
  { by intros [= <-]. }
  rewrite load_one_file_step.
  destruct (file_step read_yaml depth (VRef r) f h) as [e|h1] eqn:Hstep; simpl; [done|].
  apply IH. by eapply file_step_accumulator.
Qed.

Lemma accumulator_new h0 :
  no_ref (length h0) h0 -> accumulator_ok (length h0) (h0 ++ [ODict []]).
Proof.
  intros Hh0. split.
  - intros l o [Hl|[_ Hl]]%lookup_app_Some; [by eapply Hh0|].
    apply list_lookup_singleton_Some in Hl as [_ <-]. simpl. apply not_elem_of_nil.
  - exists []. split; [|set_solver].
    rewrite lookup_app_r by lia. by rewrite Nat.sub_diag.
Qed.

End load_invariant.

(** C10.  When every file was loaded, each key of the merged document is
    one of the five section names, so that [BY_SECTION[section]] finds a
    class for each of them; the accumulator is a new object, to which
    nothing in the store refers. *)
Theorem section_lookup_total read_yaml depth files h0 h :
  no_ref (length h0) h0 ->
  loaded read_yaml depth h0 files h ->
  exists sections, py_items (VRef (length h0)) h = inr sections /\
    Forall (fun section =>
              section ∈ ["bonds"; "bridges"; "ethernets"; "vlans"; "wifis"] /\
              exists cls, dict_get section BY_SECTION = Some cls)
      (dict_keys sections).
Proof.
  intros Hh0 Hload. apply accumulator_new in Hh0.
  eapply load_files_accumulator in Hload as (_ & kvs & Hr & Hkeys); [|done].
  exists kvs. split; [simpl; by rewrite Hr|].
  apply Forall_forall. intros s Hs%Hkeys. split; [done|].
  destruct (dict_get s BY_SECTION) as [cls|] eqn:Hget; [by exists cls|].
  by apply dict_get_None in Hget.
Qed.

(** ** Paths *)

Lemma is_substring_slash_cons c s :
  is_substring "/" (String c s) = bool_decide (c = "/"%char) || is_substring "/" s.
Proof.
  unfold is_substring. cbn [String.index String.prefix].
  destruct (Ascii.ascii_dec "/" c) as [<-|Hne].
  - by destruct s.
  - rewrite bool_decide_eq_false_2 by congruence. cbn [orb].
    by destruct (String.index 0 "/" s).
Qed.

Lemma basename_no_slash s : is_substring "/" s = false -> basename s = s.
Proof. destruct s as [|c s]; simpl; [done|]. by intros ->. Qed.

Lemma basename_app_slash a b :
  is_substring "/" b = false -> basename (a +:+ "/" +:+ b) = b.
Proof.
  intros Hb. induction a as [|c a IH].
  - change ("" +:+ "/" +:+ b) with (String "/" b). cbn [basename].
    rewrite is_substring_slash_cons. simpl. by apply basename_no_slash.
  - change (String c a +:+ "/" +:+ b) with (String c (a +:+ "/" +:+ b)).
    cbn [basename]. rewrite is_substring_slash_cons.
    assert (is_substring "/" (a +:+ "/" +:+ b) = true) as ->; [|by rewrite orb_true_r].
    clear IH. induction a as [|c' a IH].
    + change ("" +:+ "/" +:+ b) with (String "/" b). by rewrite is_substring_slash_cons.
    + change (String c' a +:+ "/" +:+ b) with (String c' (a +:+ "/" +:+ b)).
      by rewrite is_substring_slash_cons, IH, orb_true_r.
Qed.

Lemma endswith_slash a : endswith "/" a = true -> exists a', a = a' +:+ "/".
Proof.
  unfold endswith. simpl. induction a as [|c a IH]; [done|].
  cbn [String.length]. rewrite Nat.sub_succ, Nat.sub_0_r.
  destruct a as [|c' a].
  - simpl. destruct (Ascii.eqb_spec c "/") as [->|]; [|done]. by exists "".
  - cbn [String.length String.substring] in *.
    replace (S (String.length a) - 1) with (String.length a) in IH by lia.
    intros Heq. destruct (IH Heq) as [a' ->]. by exists (String c a').
Qed.

Lemma basename_path_join d name :
  is_substring "/" name = false -> basename (path_join d name) = name.
Proof.
  intros Hname. unfold path_join.
  assert (startswith "/" name = false) as ->.
  { destruct name as [|c name]; [done|]. rewrite is_substring_slash_cons in Hname.
    apply orb_false_iff in Hname as [Hc _]. unfold startswith.
    cbn [String.prefix]. destruct (Ascii.ascii_dec "/" c) as [<-|]; [done|done]. }
  destruct (String.eqb_spec d "") as [->|Hd]; simpl.
  { by apply basename_no_slash. }
  destruct (endswith "/" d) eqn:Hend.
  - apply endswith_slash in Hend as [d' ->].
    replace ((d' +:+ "/") +:+ name) with (d' +:+ "/" +:+ name).
    + by apply basename_app_slash.
    + clear. induction d' as [|c d' IH]; [done|].
      change (String c d' +:+ "/" +:+ name) with (String c (d' +:+ "/" +:+ name)).
      by rewrite IH.
  - by apply basename_app_slash.
Qed.

(** ** find_files *)

Section dict_of_pairs.
Context {A : Type}.
Implicit Types (d pairs : list (string * A)) (k : string).

Lemma dict_get_app k d1 d2 :
  dict_get k (d1 ++ d2) =
    match dict_get k d1 with Some v => Some v | None => dict_get k d2 end.
Proof.
  induction d1 as [|[k' v'] d1 IH]; simpl; [done|]. by case_key k k'.
Qed.

(** The binding that wins in [dict(pairs)] is the last one of the key. *)
Lemma dict_get_fold_set k pairs d :
  dict_get k (fold_left (fun d kv => dict_set (fst kv) (snd kv) d) pairs d) =
    match dict_get k (reverse pairs) with
    | Some v => Some v
    | None => dict_get k d
    end.
Proof.
  revert d. induction pairs as [|[k' v'] pairs IH]; intros d; simpl.
  { done. }
  rewrite IH, reverse_cons, dict_get_app. destruct (dict_get k (reverse pairs)); [done|].
  simpl. case_key k k'.
  - by rewrite dict_get_set_eq.
  - by rewrite dict_get_set_ne.
Qed.

Lemma dict_get_of_pairs k pairs :
  dict_get k (dict_of_pairs pairs) = dict_get k (reverse pairs).
Proof.
  unfold dict_of_pairs. rewrite dict_get_fold_set.
  by destruct (dict_get k (reverse pairs)).
Qed.

Lemma dict_of_pairs_NoDup pairs : NoDup (dict_keys (dict_of_pairs pairs)).
Proof.
  unfold dict_of_pairs.
  assert (forall d, NoDup (dict_keys d) ->
    NoDup (dict_keys (fold_left (fun d kv => dict_set (fst kv) (snd kv) d) pairs d))) as H.
  { induction pairs as [|[k v] pairs IH]; intros d Hd; simpl; [done|].
    apply IH. by apply dict_set_NoDup. }
  apply H. constructor.
Qed.

End dict_of_pairs.

Lemma map_result_all {A B} (f : A -> result B) (g : A -> B) (l : list A) :
  (forall x, x ∈ l -> f x = inr (g x)) -> map_result f l = inr (map g l).
Proof.
  induction l as [|x l IH]; intros Hf; simpl; [done|].
  rewrite Hf by left. simpl. rewrite IH; [done|]. intros y Hy. apply Hf. by right.
Qed.

Section find_files.
Context (fs : filesystem).
Implicit Types (d name path : string) (dirs : list string).

Lemma dir_entries_elem d name path :
  (name, path) ∈ dir_entries fs d <->
  name ∈ listdir fs d /\ endswith ".yaml" name = true /\
  isfile fs path = true /\ path = path_join d name.
Proof.
  unfold dir_entries. rewrite list_elem_of_filter, list_elem_of_fmap. simpl. split.
  - intros (Hf & f & [= -> ->] & Hin%list_elem_of_filter). naive_solver.
  - intros (Hin & Hs & Hf & ->). split; [done|]. exists name. split; [done|].
    by apply list_elem_of_filter.
Qed.

Lemma occurs_dec d name : Decision (occurs fs d name).
Proof. unfold occurs. apply _. Qed.

(** The entry of [name] in one directory. *)
Lemma dir_entries_get d name :
  dict_get name (reverse (dir_entries fs d)) =
    if decide (name ∈ listdir fs d /\ endswith ".yaml" name = true /\
               isfile fs (path_join d name) = true)
    then Some (path_join d name) else None.
Proof.
  case_decide as Hocc.
  - destruct (dict_get name (reverse (dir_entries fs d))) as [p|] eqn:Hget.
    + apply dict_get_Some_elem, elem_of_reverse, dir_entries_elem in Hget.
      naive_solver.
    + apply dict_get_None in Hget. exfalso. apply Hget.
      apply list_elem_of_fmap. exists (name, path_join d name). split; [done|].
      apply elem_of_reverse, dir_entries_elem. naive_solver.
  - apply dict_get_None. intros ([n p] & -> & Hin)%list_elem_of_fmap.
    apply elem_of_reverse, dir_entries_elem in Hin. simpl in *. naive_solver.
Qed.

Lemma entries_snoc dirs d :
  concat (map (dir_entries fs) (filter (fun d => isdir fs d = true) (dirs ++ [d])))
  = concat (map (dir_entries fs) (filter (fun d => isdir fs d = true) dirs))
    ++ (if isdir fs d then dir_entries fs d else []).
Proof.
  rewrite filter_app, map_app, concat_app. f_equal.
  rewrite filter_cons, filter_nil. destruct (isdir fs d) eqn:E.
  - rewrite decide_True by done. simpl. by rewrite app_nil_r.
  - rewrite decide_False by done. done.
Qed.

Lemma last_occurrence_snoc_here dirs d name d' :
  occurs fs d name -> last_occurrence fs (dirs ++ [d]) name d' <-> d' = d.
Proof.
  intros Hocc. split.
  - intros (ds1 & ds2 & Heq & _ & Hlast).
    destruct ds2 as [|x ds2 _] using rev_ind.
    + by apply app_inj_tail in Heq as [_ ->].
    + rewrite app_comm_cons, app_assoc in Heq. apply app_inj_tail in Heq as [_ ->].
      exfalso. apply (Hlast x); [|done]. apply elem_of_app. right. by left.
  - intros ->. exists dirs, []. split_and!; [done|done|]. by intros ? ?%elem_of_nil.
Qed.

Lemma last_occurrence_snoc_before dirs d name d' :
  ~ occurs fs d name ->
  last_occurrence fs (dirs ++ [d]) name d' <-> last_occurrence fs dirs name d'.
Proof.
  intros Hocc. split.
  - intros (ds1 & ds2 & Heq & Hd' & Hlast).
    destruct ds2 as [|x ds2 _] using rev_ind.
    + apply app_inj_tail in Heq as [_ ->]. done.
    + rewrite app_comm_cons, app_assoc in Heq. apply app_inj_tail in Heq as [-> ->].
      exists ds1, ds2. split_and!; [done|done|]. intros y Hy. apply Hlast.
      apply elem_of_app. by left.
  - intros (ds1 & ds2 & -> & Hd' & Hlast). exists ds1, (ds2 ++ [d]).
    split_and!; [by rewrite <- app_assoc|done|].
    intros y [Hy| ->%list_elem_of_singleton]%elem_of_app; [by apply Hlast|done].
Qed.

(** A name resolves to its file in the last directory where it occurs. *)
Lemma find_files_dict_get dirs name path :
  dict_get name (find_files_dict fs dirs) = Some path <->
  exists d, last_occurrence fs dirs name d /\ path = path_join d name.
Proof.
  unfold find_files_dict. rewrite dict_get_of_pairs. revert path.
  induction dirs as [|d dirs IH] using rev_ind; intros path.
  - simpl. split; [done|]. intros (d & (ds1 & ds2 & Heq & _) & _).
    by destruct ds1.
  - rewrite entries_snoc, reverse_app, dict_get_app.
    destruct (occurs_dec d name) as [Hocc|Hocc].
    + destruct Hocc as (Hd & Hrest). rewrite Hd, dir_entries_get, decide_True by done.
      split.
      * intros [= <-]. exists d. split; [|done].
        by apply last_occurrence_snoc_here.
      * intros (d' & Hlast & ->). apply last_occurrence_snoc_here in Hlast; [|done].
        by subst.
    + assert (dict_get name (reverse (if isdir fs d then dir_entries fs d else [])) = None)
        as ->.
      { destruct (isdir fs d) eqn:Hd; [|done]. rewrite dir_entries_get.
        apply decide_False. unfold occurs in Hocc. naive_solver. }
      rewrite IH. by setoid_rewrite (last_occurrence_snoc_before dirs d name).
Qed.


End find_files.


Example find_files_example :
  find_files ex_fs NETPLAN_DIRS
  = inr ["/lib/netplan/01-base.yaml"; "/etc/netplan/10-lan.yaml"; "/etc/netplan/50-site.yaml"].
Proof. vm_compute. reflexivity. Qed.

(** ** The closure over the references *)

Lemma filter_unvisited_absent (L : list (string * netif)) x visited :
  x ∉ map fst L ->
  filter (fun kv => fst kv ∉ x :: visited) L = filter (fun kv => fst kv ∉ visited) L.
Proof.
  induction L as [|[k j] L IH]; intros Hx; [done|].
  simpl in Hx. apply not_elem_of_cons in Hx as [Hne Hx].
  rewrite !filter_cons, IH by done. simpl.
  destruct (decide (k ∉ visited)) as [Hk|Hk].
  - rewrite decide_True; [done|]. set_solver.
  - rewrite decide_False; [done|]. set_solver.
Qed.

Lemma pending_list_visit (L : list (string * netif)) x i visited :
  NoDup (map fst L) -> (x, i) ∈ L -> x ∉ visited ->
  sum_list (map (fun kv => length (references (snd kv)))
              (filter (fun kv => fst kv ∉ visited) L))
  = length (references i)
    + sum_list (map (fun kv => length (references (snd kv)))
                  (filter (fun kv => fst kv ∉ x :: visited) L)).
Proof.
  intros Hnd Hin Hx. induction L as [|[k j] L IH]; [by apply elem_of_nil in Hin|].
  simpl in Hnd. apply NoDup_cons in Hnd as [Hk Hnd]. rewrite !filter_cons. simpl.
  destruct (decide (k = x)) as [->|Hne].
  - assert (j = i) as ->.
    { apply elem_of_cons in Hin as [[= ->]|Hin]; [done|]. exfalso. apply Hk.
      apply list_elem_of_fmap. by exists (x, i). }
    rewrite decide_True by done. rewrite decide_False by set_solver. simpl.
    by rewrite filter_unvisited_absent.
  - apply elem_of_cons in Hin as [[= ? ?]|Hin]; [done|].
    specialize (IH Hnd Hin).
    destruct (decide (k ∉ visited)) as [Hkv|Hkv].
    + rewrite decide_True by set_solver. simpl. lia.
    + rewrite decide_False by set_solver. done.
Qed.

Section closure.
Context (cfg : gmap string netif).
Implicit Types (work visited : list string) (x : string) (i : netif) (fuel : nat).

Lemma pending_visit x i visited :
  cfg !! x = Some i -> x ∉ visited ->
  pending cfg visited = length (references i) + pending cfg (x :: visited).
Proof.
  intros Hx Hv. unfold pending. apply pending_list_visit; [|by apply elem_of_map_to_list|done].
  apply NoDup_fst_map_to_list.
Qed.

(** The worklist never runs dry before the closure is reached. *)
Lemma closure_total fuel work visited :
  length work + pending cfg visited <= fuel ->
  exists r, closure fuel cfg work visited = Some r.
Proof.
  revert work visited. induction fuel as [|fuel IH]; intros work visited Hle.
  - destruct work; [by eexists|simpl in Hle; lia].
  - destruct work as [|x work]; [by eexists|]. simpl in *.
    case_bool_decide as Hv; [apply IH; lia|].
    destruct (cfg !! x) as [i|] eqn:Hx; [|apply IH; lia].
    apply IH. rewrite length_app. rewrite (pending_visit x i) in Hle by done. lia.
Qed.

Lemma closure_mono fuel fuel' work visited r :
  closure fuel cfg work visited = Some r -> fuel <= fuel' ->
  closure fuel' cfg work visited = Some r.
Proof.
  revert fuel' work visited. induction fuel as [|fuel IH]; intros fuel' work visited Hc Hle.
  - destruct work; [|done]. by destruct fuel'.
  - destruct work as [|x work]; [by destruct fuel'|].
    destruct fuel' as [|fuel']; [lia|]. simpl in *.
    case_bool_decide; [apply IH; [done|lia]|].
    destruct (cfg !! x); apply IH; (done || lia).
Qed.

(** What the closure returns: the names visited before, and keys of the
    container; every key on the worklist is among them; no name twice. *)
Lemma closure_spec fuel work visited r :
  closure fuel cfg work visited = Some r ->
  visited ⊆ r
  /\ (forall x, x ∈ work -> is_Some (cfg !! x) -> x ∈ r)
  /\ (forall x, x ∈ r -> x ∈ visited \/ is_Some (cfg !! x))
  /\ (NoDup visited -> NoDup r).
Proof.
  revert work visited. induction fuel as [|fuel IH]; intros work visited Hc.
  - destruct work; [|done]. simpl in Hc. simplify_eq.
    split_and!; [done| |by left|done]. by intros x ?%elem_of_nil.
  - destruct work as [|x work]; simpl in Hc.
    { simplify_eq. split_and!; [done| |by left|done]. by intros x ?%elem_of_nil. }
    case_bool_decide as Hv.
    { destruct (IH _ _ Hc) as (H1 & H2 & H3 & H4). split_and!; [done| |done|done].
      intros y [->|Hy]%elem_of_cons Hsome; [by apply H1|by apply H2]. }
    destruct (cfg !! x) as [i|] eqn:Hx.
    + destruct (IH _ _ Hc) as (H1 & H2 & H3 & H4). split_and!.
      * set_solver.
      * intros y [->|Hy]%elem_of_cons Hsome; [apply H1; by left|].
        apply H2; [|done]. apply elem_of_app. by right.
      * intros y [[->|Hy]%elem_of_cons|Hy]%H3; [right; by rewrite Hx|by left|by right].
      * intros Hnd. apply H4. by apply NoDup_cons.
    + destruct (IH _ _ Hc) as (H1 & H2 & H3 & H4). split_and!; [done| |done|done].
      intros y [->|Hy]%elem_of_cons Hsome; [|by apply H2].
      rewrite Hx in Hsome. by destruct Hsome.
Qed.

Lemma visit_order_total seed_names :
  exists order, visit_order cfg seed_names = Some order.
Proof.
  unfold visit_order.
  destruct (closure_total (length seed_names + pending cfg []) seed_names []) as [r ->];
    [lia|]. by eexists.
Qed.

Lemma visit_order_spec seed_names order :
  visit_order cfg seed_names = Some order ->
  NoDup order
  /\ (forall x, x ∈ seed_names -> is_Some (cfg !! x) -> x ∈ order)
  /\ (forall x, x ∈ order -> is_Some (cfg !! x)).
Proof.
  unfold visit_order. intros Hc.
  destruct (closure _ cfg seed_names []) as [r|] eqn:Hr; simplify_eq/=.
  destruct (closure_spec _ _ _ _ Hr) as (_ & H2 & H3 & H4). split_and!.
  - rewrite reverse_Permutation. apply H4. constructor.
  - intros x ? ?. apply elem_of_reverse. by apply H2.
  - intros x [?%elem_of_nil|?]%elem_of_reverse%H3; done.
Qed.

(** Any sufficient fuel gives the order that the query computes. *)
Lemma visit_order_fuel fuel seed_names r :
  closure fuel cfg seed_names [] = Some r ->
  visit_order cfg seed_names = Some (reverse r).
Proof.
  intros Hc. destruct (visit_order_total seed_names) as [order Ho]. rewrite Ho.
  unfold visit_order in Ho.
  destruct (closure (length seed_names + pending cfg []) cfg seed_names []) as [r'|] eqn:Hr';
    simplify_eq/=.
  destruct (Nat.le_ge_cases fuel (length seed_names + pending cfg [])) as [Hle|Hle].
  - rewrite (closure_mono _ _ _ _ _ Hc Hle) in Hr'. by simplify_eq.
  - rewrite (closure_mono _ _ _ _ _ Hr' Hle) in Hc. by simplify_eq.
Qed.

Lemma get_all_interfaces_resolved seed_names :
  (forall s, s ∈ seed_names -> is_Some (cfg !! s)) ->
  exists order, visit_order cfg seed_names = Some order /\
    get_all_interfaces cfg seed_names = inr (filter (fun kv => fst kv ∈ order) cfg).
Proof.
  intros Hseeds. destruct (visit_order_total seed_names) as [order Ho].
  exists order. split; [done|]. unfold get_all_interfaces.
  assert (filter (fun n => cfg !! n = None) seed_names = []) as ->.
  { clear Ho. induction seed_names as [|s l IH]; [done|]. rewrite filter_cons.
    destruct (Hseeds s) as [i Hi]; [by left|]. rewrite decide_False by congruence.
    apply IH. intros s' Hs'. apply Hseeds. by right. }
  simpl. by rewrite Ho.
Qed.

Lemma get_all_interfaces_never_exhausted seed_names :
  get_all_interfaces cfg seed_names <> inl WorklistExhausted.
Proof.
  unfold get_all_interfaces. destruct (visit_order_total seed_names) as [order ->].
  by case_match.
Qed.

End closure.

(** ** Documents in the store *)

Lemma dict_set_same {A} k (v : A) d : dict_get k d = Some v -> dict_set k v d = d.
Proof.
  induction d as [|[k' v'] d IH]; simpl; [done|].
  case_key k k'; intros ?; simplify_eq; [done|]. by rewrite IH.
Qed.

(** A store that agrees with [h] on the footprint represents the same
    tree. *)
Lemma rep_frame_mut h h' :
  (forall v t fp, rep h v t fp ->
     (forall l, l ∈ fp -> h' !! l = h !! l) -> rep h' v t fp)
  /\ (forall vs ts fp, rep_elems h vs ts fp ->
     (forall l, l ∈ fp -> h' !! l = h !! l) -> rep_elems h' vs ts fp)
  /\ (forall kvs kts fp, rep_items h kvs kts fp ->
     (forall l, l ∈ fp -> h' !! l = h !! l) -> rep_items h' kvs kts fp).
Proof.
  apply rep_mutind.
  - intros s _. constructor.
  - intros l vs ts fp Hl _ IH Hfresh Hagree. apply rep_list with vs; [|apply IH|done].
    + rewrite Hagree; [done|]. set_solver.
    + intros l' Hl'. apply Hagree. set_solver.
  - intros l kvs kts fp Hl Hnd _ IH Hfresh Hagree. apply rep_dict with kvs; [|done|apply IH|done].
    + rewrite Hagree; [done|]. set_solver.
    + intros l' Hl'. apply Hagree. set_solver.
  - intros _. constructor.
  - intros v vs t ts fp1 fp2 _ IH1 _ IH2 Hdisj Hagree. constructor; [apply IH1|apply IH2|done];
      intros l' Hl'; apply Hagree; set_solver.
  - intros _. constructor.
  - intros k v kvs t kts fp1 fp2 _ IH1 _ IH2 Hdisj Hagree. constructor; [apply IH1|apply IH2|done];
      intros l' Hl'; apply Hagree; set_solver.
Qed.

Lemma rep_frame h h' v t fp :
  rep h v t fp -> (forall l, l ∈ fp -> h' !! l = h !! l) -> rep h' v t fp.
Proof. apply rep_frame_mut. Qed.

Lemma rep_elems_frame h h' vs ts fp :
  rep_elems h vs ts fp -> (forall l, l ∈ fp -> h' !! l = h !! l) -> rep_elems h' vs ts fp.
Proof. apply rep_frame_mut. Qed.

Lemma rep_items_frame h h' kvs kts fp :
  rep_items h kvs kts fp -> (forall l, l ∈ fp -> h' !! l = h !! l) -> rep_items h' kvs kts fp.
Proof. apply rep_frame_mut. Qed.

Lemma rep_distinct_keys_mut h :
  (forall v t fp, rep h v t fp -> distinct_keys t)
  /\ (forall vs ts fp, rep_elems h vs ts fp -> distinct_keys (TList ts))
  /\ (forall kvs kts fp, rep_items h kvs kts fp ->
        dict_keys kvs = dict_keys kts /\
        (NoDup (dict_keys kts) -> distinct_keys (TDict kts))).
Proof.
  apply rep_mutind.
  - done.
  - done.
  - intros l kvs kts fp _ Hnd _ [Hkeys IH] _. apply IH. by rewrite <- Hkeys.
  - done.
  - intros v vs t ts fp1 fp2 _ IH1 _ IH2 _. simpl in *. done.
  - split; [done|]. intros _. simpl. split; [constructor|done].
  - intros k v kvs t kts fp1 fp2 _ IH1 _ [Hkeys IH2] _. split.
    + simpl. by rewrite Hkeys.
    + intros Hnd. simpl in Hnd. apply NoDup_cons in Hnd as [Hk Hnd].
      destruct (IH2 Hnd) as [_ Hrest]. simpl. split; [|done].
      simpl. by apply NoDup_cons.
Qed.

Lemma rep_distinct_keys h v t fp : rep h v t fp -> distinct_keys t.
Proof. apply rep_distinct_keys_mut. Qed.

Lemma rep_items_keys h kvs kts fp :
  rep_items h kvs kts fp -> dict_keys kvs = dict_keys kts.
Proof. intros H. by apply rep_distinct_keys_mut in H as [? _]. Qed.

Lemma rep_items_mem h kvs kts fp k :
  rep_items h kvs kts fp -> dict_mem k kvs = dict_mem k kts.
Proof.
  intros Hkeys%rep_items_keys. destruct (dict_mem k kts) eqn:E.
  - apply dict_mem_true. rewrite Hkeys. by apply dict_mem_true.
  - apply dict_mem_false. rewrite Hkeys. by apply dict_mem_false.
Qed.

Lemma rep_elems_contains h vs ts fp k :
  rep_elems h vs ts fp -> existsb (value_eq_str k) vs = existsb (tree_eq_str k) ts.
Proof.
  induction 1 as [|v vs t ts fp1 fp2 Hv _ IH _]; simpl; [done|].
  rewrite IH. f_equal. by destruct Hv.
Qed.

Lemma rep_elems_app h xs txs fp1 ys tys fp2 :
  rep_elems h xs txs fp1 -> rep_elems h ys tys fp2 -> fp1 ## fp2 ->
  rep_elems h (xs ++ ys) (txs ++ tys) (fp1 ∪ fp2).
Proof.
  induction 1 as [|v vs t ts fpa fpb Hv Hvs IH Hd]; intros Hys Hdisj; simpl.
  - by rewrite (left_id_L ∅ (∪)).
  - rewrite <- (assoc_L (∪)). constructor; [done|apply IH; [done|set_solver]|].
    set_solver.
Qed.

(** A new key goes to the end of the dictionary. *)
Lemma rep_items_absent h kvs kts fp k v t fpv :
  rep_items h kvs kts fp -> dict_get k kvs = None -> rep h v t fpv -> fp ## fpv ->
  rep_items h (dict_set k v kvs) (dict_set k t kts) (fp ∪ fpv).
Proof.
  induction 1 as [|k' v' kvs t' kts fp1 fp2 Hv' Hrest IH Hd]; intros Hget Hv Hdisj; simpl.
  - rewrite (left_id_L ∅ (∪)). rewrite <- (right_id_L ∅ (∪) fpv).
    constructor; [done|constructor|set_solver].
  - simpl in Hget. case_key k k'. rewrite <- (assoc_L (∪)).
    constructor; [done|apply IH; [done|done|set_solver]|set_solver].
Qed.

(** The binding of a key can be replaced by one that shares nothing with
    the other bindings. *)
Lemma rep_items_present h kvs kts fp k u :
  rep_items h kvs kts fp -> dict_get k kvs = Some u ->
  exists tu fpu fpr,
    dict_get k kts = Some tu /\ rep h u tu fpu /\ fpu ## fpr /\ fp = fpu ∪ fpr /\
    forall h' u' tu' fpu',
      rep h' u' tu' fpu' -> fpu' ## fpr ->
      (forall l, l ∈ fpr -> h' !! l = h !! l) ->
      rep_items h' (dict_set k u' kvs) (dict_set k tu' kts) (fpu' ∪ fpr).
Proof.
  induction 1 as [|k' v' kvs t' kts fp1 fp2 Hv' Hrest IH Hd]; intros Hget; simpl in *; [done|].
  case_key k k'.
  - simplify_eq. exists t', fp1, fp2. split_and!; [done..|].
    intros h' u' tu' fpu' Hu' Hdisj Hagree.
    constructor; [done|by eapply rep_items_frame|done].
  - destruct (IH Hget) as (tu & fpu & fpr & Hk & Hu & Hdisj & -> & Hupd).
    exists tu, fpu, (fp1 ∪ fpr). split_and!; [done|done|set_solver|set_solver|].
    intros h' u' tu' fpu' Hu' Hdisj' Hagree.
    replace (fpu' ∪ (fp1 ∪ fpr)) with (fp1 ∪ (fpu' ∪ fpr)) by set_solver.
    constructor; [|apply Hupd; [done|set_solver|]|set_solver].
    + eapply rep_frame; [done|]. intros l Hl. apply Hagree. set_solver.
    + intros l Hl. apply Hagree. set_solver.
Qed.

(** Reading back a value that denotes a tree gives the tree, with any
    fuel that is enough. *)
Lemma rep_reify_mut h :
  (forall v t fp, rep h v t fp ->
     exists n, forall fuel, n <= fuel -> reify fuel h v = Some t)
  /\ (forall vs ts fp, rep_elems h vs ts fp ->
     exists n, forall fuel, n <= fuel -> mapM (reify fuel h) vs = Some ts)
  /\ (forall kvs kts fp, rep_items h kvs kts fp ->
     exists n, forall fuel, n <= fuel ->
       mapM (fun kv => pair (fst kv) <$> reify fuel h (snd kv)) kvs = Some kts).
Proof.
  apply rep_mutind.
  - intros s. exists 1. intros [|fuel] ?; [lia|done].
  - intros l vs ts fp Hl _ [n IH] _. exists (S n). intros [|fuel] ?; [lia|].
    simpl. rewrite Hl, IH by lia. done.
  - intros l kvs kts fp Hl _ _ [n IH] _. exists (S n). intros [|fuel] ?; [lia|].
    simpl. rewrite Hl, IH by lia. done.
  - exists 0. done.
  - intros v vs t ts fp1 fp2 _ [n1 IH1] _ [n2 IH2] _. exists (n1 `max` n2).
    intros fuel ?. simpl. rewrite IH1, IH2 by lia. done.
  - exists 0. done.
  - intros k v kvs t kts fp1 fp2 _ [n1 IH1] _ [n2 IH2] _. exists (n1 `max` n2).
    intros fuel ?. simpl. rewrite IH1 by lia. simpl. rewrite IH2 by lia. done.
Qed.

Lemma unshared_reify h v t :
  unshared h v t -> exists n, forall fuel, n <= fuel -> reify fuel h v = Some t.
Proof. intros [fp Hrep]. by eapply rep_reify_mut. Qed.

(** ** The merge in the store and the merge on trees *)

Lemma rep_isinstance h v t fp :
  rep h v t fp ->
  isinstance_list v h = match t with TList _ => true | _ => false end
  /\ isinstance_dict v h = match t with TDict _ => true | _ => false end.
Proof. destruct 1 as [s|l vs ts fp Hl|l kvs kts fp Hl]; simpl; by rewrite ?Hl. Qed.

Section step.
Context (rec_h : value -> value -> heap -> result heap).
Context (rec_t : tree -> tree -> result tree).
Hypothesis Hrec : refines rec_h rec_t.

(** Merging one item into a value that is no dictionary. *)
Lemma combine_item_sim_other h cur tc fpc k v t fpv :
  rep h cur tc fpc -> rep h v t fpv ->
  (forall kts, tc <> TDict kts) ->
  merged_into h cur fpc fpv (combine_tree_item rec_t (k, t) tc)
    (combine_item rec_h cur (k, v) h).
Proof.
  intros Hcur Hv Hnd. destruct (rep_isinstance _ _ _ _ Hv) as [Hil Hid].
  unfold combine_tree_item, combine_item.
  destruct Hcur as [s|l vs ts fp Hl Hvs|l kvs kts fp Hl]; [| |by destruct (Hnd kts)].
  - destruct s as [| | | |s]; simpl; try done.
    destruct (is_substring k s); simpl; [|done].
    rewrite Hil, Hid. by destruct t.
  - simpl. rewrite Hl. simpl. rewrite (rep_elems_contains _ _ _ _ k Hvs).
    destruct (existsb (tree_eq_str k) ts); simpl; rewrite ?Hl; [|done].
    rewrite Hil, Hid. destruct t; simpl; by rewrite ?Hl.
Qed.

(** Merging one item into a dictionary. *)
Lemma combine_item_sim_dict h l kvs kts fp k v t fpv :
  h !! l = Some (ODict kvs) -> NoDup (dict_keys kvs) ->
  rep_items h kvs kts fp -> l ∉ fp ->
  rep h v t fpv -> ({[l]} ∪ fp) ## fpv ->
  merged_into h (VRef l) ({[l]} ∪ fp) fpv (combine_tree_item rec_t (k, t) (TDict kts))
    (combine_item rec_h (VRef l) (k, v) h).
Proof.
  intros Hl Hnd Hitems Hfresh Hv Hdisj.
  destruct (rep_isinstance _ _ _ _ Hv) as [Hil Hid].
  assert (l < length h) as Hlen by by eapply lookup_lt_Some.
  unfold combine_tree_item, combine_item. cbn [tree_contains py_contains bind].
  rewrite Hl. cbn [bind]. rewrite (rep_items_mem _ _ _ _ k Hitems).
  assert (forall v' t' fpv', rep h v' t' fpv' -> ({[l]} ∪ fp) ## fpv' ->
    dict_get k kvs = None ->
    merged_into h (VRef l) ({[l]} ∪ fp) fpv' (inr (TDict (dict_set k t' kts)))
      (py_setitem (VRef l) k v' h)) as Hnew.
  { intros v' t' fpv' Hv' Hdisj' Hget. simpl. rewrite Hl.
    eexists _, ({[l]} ∪ (fp ∪ fpv')). split_and!; [done| |set_solver|].
    - apply rep_dict with (dict_set k v' kvs).
      + by apply list_lookup_insert_eq.
      + by apply dict_set_NoDup.
      + eapply rep_items_frame.
        * apply rep_items_absent; [done|done|done|set_solver].
        * intros l' Hl'. apply list_lookup_insert_ne. set_solver.
      + set_solver.
    - intros l' Hl'. apply list_lookup_insert_ne. set_solver. }
  destruct (dict_mem k kts) eqn:Hmem; cbn [negb].
  2:{ apply Hnew; [done|done|]. apply dict_get_None, dict_mem_false.
      by rewrite (rep_items_mem _ _ _ _ k Hitems). }
  assert (exists u, dict_get k kvs = Some u) as [u Hu].
  { rewrite <- (rep_items_mem _ _ _ _ k Hitems) in Hmem. unfold dict_mem in Hmem.
    destruct (dict_get k kvs); [by eexists|done]. }
  destruct (rep_items_present _ _ _ _ _ _ Hitems Hu)
    as (tu & fpu & fpr & Htu & Hrepu & Hdu & -> & Hupd).
  assert (forall h' u' tu' fpu',
    rep h' u' tu' fpu' -> fpu' ⊆ fpu ∪ fpv ->
    h' !! l = Some (ODict (dict_set k u' kvs)) ->
    (forall l', l' ∉ {[l]} ∪ (fpu ∪ fpr) ∪ fpv -> h' !! l' = h !! l') ->
    (forall l', l' ∈ fpr -> h' !! l' = h !! l') ->
    merged_into h (VRef l) ({[l]} ∪ (fpu ∪ fpr)) fpv (inr (TDict (dict_set k tu' kts)))
      (inr h')) as Hput.
  { intros h' u' tu' fpu' Hu' Hsub Hl' Hout Hrest.
    exists h', ({[l]} ∪ (fpu' ∪ fpr)). split_and!; [done| |set_solver|done].
    apply rep_dict with (dict_set k u' kvs); [done|by apply dict_set_NoDup| |set_solver].
    apply Hupd; [done|set_solver|done]. }
  unfold tree_getitem, py_getitem. rewrite Hl, Hu, Htu, Hil, Hid. cbn [bind].
  destruct Hv as [s|lv ys tys fpys Hlv Hys Hfy|lv ikvs ikts fpi Hlv Hind Hi Hfi].
  - (* a scalar overrides *)
    simpl. rewrite Hl.
    apply (Hput _ (VScalar s) (TScalar s) ∅); [constructor|set_solver| | |].
    + by apply list_lookup_insert_eq.
    + intros l' Hl'. apply list_lookup_insert_ne. set_solver.
    + intros l' Hl'. apply list_lookup_insert_ne. set_solver.
  - (* a list is appended to the list *)
    destruct Hrepu as [s|lu xs txs fpxs Hlu Hxs Hfx|lu ukvs ukts fpk Hlu]; simpl;
      rewrite ?Hlu; try done.
    rewrite Hlv.
    assert (lu <> l) as Hne by set_solver.
    apply (Hput _ (VRef lu) (TList (txs ++ tys)) ({[lu]} ∪ (fpxs ∪ fpys))).
    + apply rep_list with (xs ++ ys).
      * apply list_lookup_insert_eq. by eapply lookup_lt_Some.
      * apply rep_elems_app; [| |set_solver].
        -- eapply rep_elems_frame; [done|]. intros l' Hl'.
           apply list_lookup_insert_ne. set_solver.
        -- eapply rep_elems_frame; [done|]. intros l' Hl'.
           apply list_lookup_insert_ne. set_solver.
      * set_solver.
    + set_solver.
    + rewrite list_lookup_insert_ne by done. by rewrite dict_set_same.
    + intros l' Hl'. apply list_lookup_insert_ne. set_solver.
    + intros l' Hl'. apply list_lookup_insert_ne. set_solver.
  - (* a dictionary is merged into the value *)
    assert (rep h (VRef lv) (TDict ikts) ({[lv]} ∪ fpi)) as Hrepv
      by (by apply rep_dict with ikvs).
    pose proof (Hrec h u (VRef lv) tu (TDict ikts) fpu ({[lv]} ∪ fpi) Hrepu Hrepv) as Hsim.
    destruct (rec_t tu (TDict ikts)) as [e|tu'].
    + rewrite Hsim by set_solver. done.
    + destruct Hsim as (h' & fpu' & -> & Hu' & Hsub & Hout); [set_solver|].
      cbn [bind tree_setitem].
      apply (Hput _ u tu' fpu'); [done|done| | |].
      * rewrite Hout by set_solver. by rewrite dict_set_same.
      * intros l' Hl'. apply Hout. set_solver.
      * intros l' Hl'. apply Hout. set_solver.
Qed.

Lemma combine_item_sim h cur tc fpc k v t fpv :
  rep h cur tc fpc -> rep h v t fpv -> fpc ## fpv ->
  merged_into h cur fpc fpv (combine_tree_item rec_t (k, t) tc)
    (combine_item rec_h cur (k, v) h).
Proof.
  intros Hcur Hv Hdisj. destruct tc as [s|ts|kts].
  - by apply combine_item_sim_other.
  - by apply combine_item_sim_other.
  - inversion Hcur; subst. by eapply combine_item_sim_dict.
Qed.

(** The loop over the items. *)
Lemma run_items_sim kvs : forall h cur tc fpc kts fpi,
  rep h cur tc fpc -> rep_items h kvs kts fpi -> fpc ## fpi ->
  merged_into h cur fpc fpi (run_tree_items (combine_tree_item rec_t) kts tc)
    (run_items (combine_item rec_h cur) kvs h).
Proof.
  induction kvs as [|[k v] kvs IH]; intros h cur tc fpc kts fpi Hcur Hitems Hdisj;
    inversion Hitems as [|k' v' kvs' t kts' fp1 fp2 Hv Hrest Hd]; subst;
    cbn [run_tree_items run_items].
  - exists h, fpc. split_and!; [done|done|set_solver|done].
  - pose proof (combine_item_sim h cur tc fpc k v t fp1 Hcur Hv) as Hstep.
    destruct (combine_tree_item rec_t (k, t) tc) as [e|tc1]; cbn [bind].
    + rewrite Hstep by set_solver. done.
    + destruct Hstep as (h1 & fpc1 & -> & Hcur1 & Hsub1 & Hout1); [set_solver|].
      cbn [bind].
      assert (rep_items h1 kvs kts' fp2) as Hrest1.
      { eapply rep_items_frame; [done|]. intros l Hl. apply Hout1. set_solver. }
      pose proof (IH h1 cur tc1 fpc1 kts' fp2 Hcur1 Hrest1) as Hloop.
      destruct (run_tree_items (combine_tree_item rec_t) kts' tc1) as [e|tc'].
      * apply Hloop. set_solver.
      * destruct Hloop as (h' & fp' & -> & Hcur' & Hsub' & Hout'); [set_solver|].
        exists h', fp'. split_and!; [done|done|set_solver|].
        intros l Hl. rewrite Hout' by set_solver. apply Hout1. set_solver.
Qed.

End step.

(** The merge in the store does to unshared documents what the merge on
    trees does, at every depth. *)
Theorem combine_dicts_refines depth : refines (_combine_dicts depth) (combine_trees depth).
Proof.
  induction depth as [|depth IH]; intros h cur new tc tn fpc fpn Hcur Hnew Hdisj.
  { done. }
  cbn [_combine_dicts combine_trees].
  destruct Hnew as [s|l vs ts fp Hl|l kvs kts fp Hl Hnd Hitems Hfresh];
    cbn [py_items bind]; rewrite ?Hl; cbn [bind]; [done|done|].
  pose proof (run_items_sim _ _ IH kvs h cur tc fpc kts fp Hcur Hitems) as Hloop.
  destruct (run_tree_items _ kts tc) as [e|tc'].
  - apply Hloop. set_solver.
  - destruct Hloop as (h' & fp' & -> & Hcur' & Hsub' & Hout'); [set_solver|].
    exists h', fp'. split_and!; [done|done|set_solver|].
    intros l' Hl'. apply Hout'. set_solver.
Qed.

(** ** The merge on trees *)

Lemma distinct_keys_dict kts :
  distinct_keys (TDict kts) <->
  NoDup (dict_keys kts) /\ Forall (fun kv => distinct_keys (snd kv)) kts.
Proof.
  simpl. apply and_iff_compat_l. induction kts as [|[k t] kts IH]; simpl.
  - split; [constructor|done].
  - rewrite Forall_cons, IH. done.
Qed.

Lemma mergeable_dict c items :
  mergeable (TDict c) (TDict items) <->
  Forall (fun kv =>
            match dict_get (fst kv) c with
            | None => True
            | Some u =>
                match snd kv with
                | TList _ => match u with TList _ => True | _ => False end
                | TDict _ => mergeable u (snd kv)
                | TScalar _ => True
                end
            end) items.
Proof.
  simpl. induction items as [|[k v] items IH]; simpl.
  - split; [constructor|done].
  - rewrite Forall_cons, IH. done.
Qed.

Lemma dict_depth_dict kts d :
  dict_depth (TDict kts) <= S d <-> Forall (fun kv => dict_depth (snd kv) <= d) kts.
Proof.
  simpl. rewrite <- Nat.succ_le_mono. induction kts as [|[k t] kts IH]; simpl.
  - split; [constructor|lia].
  - rewrite Forall_cons, <- IH. simpl. lia.
Qed.

Section tree_step.
Context (rec : tree -> tree -> result tree).

(** One item merged into a mapping. *)
Lemma combine_tree_item_dict k v c cur1 :
  combine_tree_item rec (k, v) (TDict c) = inr cur1 ->
  exists x, cur1 = TDict (dict_set k x c) /\
    merge_rule rec (dict_get k c) (Some v) (Some x).
Proof.
  unfold combine_tree_item, merge_rule. simpl. unfold dict_mem.
  destruct (dict_get k c) as [u|] eqn:Hget; simpl.
  - destruct v as [s|ys|b]; simpl.
    + intros [= <-]. by eexists.
    + destruct u as [s|xs|a]; simpl; try done. intros [= <-]. eexists. split; [done|].
      by eexists.
    + destruct (rec u (TDict b)) as [e|m] eqn:Hrec; simpl; [done|]. intros [= <-].
      eexists. split; [done|]. by eexists.
  - intros [= <-]. by eexists.
Qed.

(** An item is merged into nothing but a mapping. *)
Lemma combine_tree_item_other k v cur cur1 :
  combine_tree_item rec (k, v) cur = inr cur1 -> exists c, cur = TDict c.
Proof.
  destruct cur as [s|ts|c]; [| |by eexists]; unfold combine_tree_item; simpl.
  - destruct s as [| | | |s]; simpl; try done.
    destruct (is_substring k s); simpl; [|done]. by destruct v.
  - destruct (existsb (tree_eq_str k) ts); simpl; [|done]. by destruct v.
Qed.

Lemma run_tree_items_rules items : forall c R,
  NoDup (dict_keys items) ->
  run_tree_items (combine_tree_item rec) items (TDict c) = inr R ->
  exists r, R = TDict r /\
    forall k, merge_rule rec (dict_get k c) (dict_get k items) (dict_get k r).
Proof.
  induction items as [|[k0 v0] items IH]; intros c R Hnd Hrun;
    cbn [run_tree_items] in Hrun.
  { simplify_eq. exists c. split; [done|]. intros k. done. }
  simpl in Hnd. apply NoDup_cons in Hnd as [Hk0 Hnd].
  destruct (combine_tree_item rec (k0, v0) (TDict c)) as [e|cur1] eqn:Hstep;
    cbn [bind] in Hrun; [done|].
  apply combine_tree_item_dict in Hstep as (x & -> & Hrule).
  destruct (IH _ _ Hnd Hrun) as (r & -> & Hrules). exists r. split; [done|].
  intros k. specialize (Hrules k). simpl. case_key k k0.
  - apply dict_get_None in Hk0. rewrite Hk0, dict_get_set_eq in Hrules.
    simpl in Hrules. by rewrite Hrules.
  - by rewrite dict_get_set_ne in Hrules.
Qed.

End tree_step.

(** What the merge on trees returns is related to its arguments by the
    rules. *)
Lemma combine_trees_merged depth : forall cur new R,
  distinct_keys new -> combine_trees depth cur new = inr R -> merged cur new R.
Proof.
  induction depth as [|depth IH]; intros cur new R Hdk Hrun; [done|].
  destruct new as [s|ts|items]; [done|done|]. cbn [combine_trees] in Hrun.
  apply distinct_keys_dict in Hdk as [Hnd Hsub].
  destruct items as [|[k0 v0] items].
  { simpl in Hrun. simplify_eq. constructor. }
  destruct cur as [s|ts|c].
  - cbn [run_tree_items] in Hrun.
    destruct (combine_tree_item (combine_trees depth) (k0, v0) (TScalar s))
      as [e|cur1] eqn:Hstep; [done|].
    by apply combine_tree_item_other in Hstep as [c ?].
  - cbn [run_tree_items] in Hrun.
    destruct (combine_tree_item (combine_trees depth) (k0, v0) (TList ts))
      as [e|cur1] eqn:Hstep; [done|].
    by apply combine_tree_item_other in Hstep as [c ?].
  - apply run_tree_items_rules in Hrun as (r & -> & Hrules); [|done].
    constructor. intros k. specialize (Hrules k). unfold merge_rule in Hrules.
    destruct (dict_get k ((k0, v0) :: items)) as [v|] eqn:Hv.
    2:{ rewrite Hrules. constructor. }
    destruct (dict_get k c) as [u|] eqn:Hu.
    2:{ rewrite Hrules. constructor. }
    assert (distinct_keys v) as Hdv.
    { apply dict_get_Some_elem in Hv. rewrite Forall_forall in Hsub.
      by apply (Hsub (k, v)). }
    destruct v as [s|ys|b].
    + rewrite Hrules. constructor.
    + destruct Hrules as (xs & -> & ->). constructor.
    + destruct Hrules as (m & Hm & ->). constructor. by apply IH.
Qed.

(** The merge of two trees whose types agree returns. *)
Lemma run_tree_items_total depth items :
  (forall cur new, distinct_keys new -> mergeable cur new -> dict_depth new <= depth ->
     exists R, combine_trees depth cur new = inr R) ->
  forall c,
  NoDup (dict_keys items) ->
  Forall (fun kv => distinct_keys (snd kv)) items ->
  Forall (fun kv => dict_depth (snd kv) <= depth) items ->
  mergeable (TDict c) (TDict items) ->
  exists R, run_tree_items (combine_tree_item (combine_trees depth)) items (TDict c) = inr R.
Proof.
  intros Hrec. induction items as [|[k0 v0] items IH]; intros c Hnd Hdk Hdepth Hm;
    cbn [run_tree_items].
  { by eexists. }
  simpl in Hnd. apply NoDup_cons in Hnd as [Hk0 Hnd].
  apply Forall_cons in Hdk as [Hdk0 Hdk]. apply Forall_cons in Hdepth as [Hd0 Hdepth].
  apply mergeable_dict, Forall_cons in Hm as [Hm0 Hm]. simpl in Hm0, Hd0, Hdk0.
  assert (exists x, combine_tree_item (combine_trees depth) (k0, v0) (TDict c)
                    = inr (TDict (dict_set k0 x c))) as [x ->].
  { unfold combine_tree_item. simpl. unfold dict_mem.
    destruct (dict_get k0 c) as [u|] eqn:Hu; simpl; [|by eexists].
    destruct v0 as [s|ys|b]; simpl.
    - by eexists.
    - destruct u as [s|xs|a]; try done. simpl. by eexists.
    - destruct (Hrec u (TDict b)) as [m ->]; [done..|]. simpl. by eexists. }
  cbn [bind]. apply IH; [done..|]. apply mergeable_dict.
  rewrite Forall_forall in Hm |- *. intros [k v] Hin. specialize (Hm _ Hin). simpl in *.
  rewrite dict_get_set_ne; [done|]. intros ->. apply Hk0.
  apply list_elem_of_fmap. by exists (k, v).
Qed.

Lemma combine_trees_total depth : forall cur new,
  distinct_keys new -> mergeable cur new -> dict_depth new <= depth ->
  exists R, combine_trees depth cur new = inr R.
Proof.
  induction depth as [|depth IH]; intros cur new Hdk Hm Hdepth.
  { destruct new; simpl in *; (done || lia). }
  destruct new as [s|ts|items]; [done|done|]. cbn [combine_trees].
  destruct cur as [s|ts|c]; [simpl in Hm; subst; by eexists..|].
  apply distinct_keys_dict in Hdk as [Hnd Hsub]. apply dict_depth_dict in Hdepth.
  by apply run_tree_items_total.
Qed.

Lemma merged_key_kept a r : merged_key a None r -> r = a.
Proof. by inversion 1. Qed.

Lemma merged_key_both u v r :
  merged_key (Some u) (Some v) r ->
  match v with
  | TDict _ => exists m, merged u v m /\ r = Some m
  | _ => True
  end.
Proof. inversion 1; subst; [done| |done]. by eexists. Qed.

(** The rules leave alone what only the accumulator has. *)
Lemma merged_keeps_left_only a b r : merged a b r -> keeps_left_only a b r.
Proof.
  intros Hm path. revert a b r Hm.
  induction path as [|k0 path IH]; intros a b r Hm k da db x Ha Hb Hx Hnone; simpl in *.
  - simplify_eq. inversion Hm as [a' b' r' Hrules|]; subst; simpl.
    + specialize (Hrules k). rewrite Hx, Hnone in Hrules.
      apply merged_key_kept in Hrules. by rewrite Hrules.
    + by rewrite Hx.
  - destruct a as [s|ts|a0]; [done|done|]. destruct b as [s|ts|b0]; [done|done|].
    destruct (dict_get k0 a0) as [a'|] eqn:Ha'; [|done].
    destruct (dict_get k0 b0) as [b'|] eqn:Hb'; [|done].
    inversion Hm as [a1 b1 r1 Hrules|]; subst; [|done].
    specialize (Hrules k0). rewrite Ha', Hb' in Hrules.
    apply merged_key_both in Hrules.
    destruct b' as [s|ts|b']; [by destruct path|by destruct path|].
    destruct Hrules as (m & Hsub & ->). by eapply IH.
Qed.

(** A merge on trees that returns was given trees whose types agree. *)
Lemma combine_trees_mergeable depth : forall cur new R,
  distinct_keys new -> combine_trees depth cur new = inr R -> mergeable cur new.
Proof.
  induction depth as [|depth IH]; intros cur new R Hdk Hrun; [done|].
  destruct new as [s|ts|items]; [done|done|]. cbn [combine_trees] in Hrun.
  apply distinct_keys_dict in Hdk as [Hnd Hsub].
  destruct items as [|[k0 v0] items].
  { by destruct cur. }
  destruct cur as [s|ts|c].
  - cbn [run_tree_items] in Hrun.
    destruct (combine_tree_item (combine_trees depth) (k0, v0) (TScalar s))
      as [e|cur1] eqn:Hstep; [done|].
    by apply combine_tree_item_other in Hstep as [c ?].
  - cbn [run_tree_items] in Hrun.
    destruct (combine_tree_item (combine_trees depth) (k0, v0) (TList ts))
      as [e|cur1] eqn:Hstep; [done|].
    by apply combine_tree_item_other in Hstep as [c ?].
  - apply run_tree_items_rules in Hrun as (r & -> & Hrules); [|done].
    apply mergeable_dict, Forall_forall. intros [k v] Hin. simpl.
    assert (dict_get k ((k0, v0) :: items) = Some v) as Hget
      by (by apply dict_get_elem).
    specialize (Hrules k). unfold merge_rule in Hrules. rewrite Hget in Hrules.
    destruct (dict_get k c) as [u|]; [|done].
    destruct v as [s|ys|b]; [done| |].
    + by destruct Hrules as (xs & -> & _).
    + destruct Hrules as (m & Hm & _). eapply IH; [|done].
      rewrite Forall_forall in Hsub. by apply (Hsub (k, TDict b)).
Qed.

(** ** Errors of the load *)

(** C4.  A file whose [network] mapping has no version marker (or has
    [None] there), or has one that is not equal to [2], makes the load
    fail with a [ParseFileException] that carries its name; the error under
    it is [NoVersion] in the first case and [UnsupportedVersion] with the
    offending value in the second, and the two differ. *)
Theorem version_rejected read_yaml depth fname d net pre post h0 h :
  read_yaml fname = inr d ->
  doc_network d = Some net ->
  version_ok net = false ->
  loaded read_yaml depth h0 pre h ->
  _combine_files read_yaml depth (pre ++ fname :: post) h0
    = inl (ParseFileException fname (Exception (version_error (length h) net)))
  /\ version_error (length h) net
     = match dict_get "version" net with
       | None => NoVersion
       | Some ver =>
           if is_None ver then NoVersion
           else UnsupportedVersion (shift_value (length h) ver)
       end
  /\ forall ver, NoVersion <> UnsupportedVersion ver.
Proof.
  intros Hread Hnet Hver Hpre. split_and!.
  - eapply combine_files_abort; [done|]. apply file_step_parse_error.
    by eapply parse_file_version.
  - unfold version_error. by destruct (dict_get "version" net) as [[[]|]|].
  - done.
Qed.

(** X19.  A file whose [network] mapping has strings for its keys and,
    the version marker removed, a key that is not one of the five section
    names makes the load fail with a [ParseFileException] that carries its
    name and, under it, the sorted list of exactly the unrecognized
    names. *)
Theorem unknown_sections_rejected read_yaml depth fname d net pre post h0 h :
  read_yaml fname = inr d ->
  doc_network d = Some net ->
  version_ok net = true ->
  unknown_sections net <> [] ->
  loaded read_yaml depth h0 pre h ->
  _combine_files read_yaml depth (pre ++ fname :: post) h0
    = inl (ParseFileException fname
             (Exception (UnsupportedSections (sorted (unknown_sections net)))))
  /\ dict_keys BY_SECTION = ["bonds"; "bridges"; "ethernets"; "vlans"; "wifis"]
  /\ forall s, s ∈ sorted (unknown_sections net) <->
       s ∈ dict_keys (dict_del "version" net) /\ s ∉ dict_keys BY_SECTION.
Proof.
  intros Hread Hnet Hver Hunk Hpre. split_and!.
  - eapply combine_files_abort; [done|]. apply file_step_parse_error.
    destruct (parse_file_checked read_yaml (dict_keys BY_SECTION) fname h d Hread net Hnet Hver)
      as (l & _ & ->).
    fold (unknown_sections net). by destruct (decide (unknown_sections net = [])).
  - done.
  - intros s. unfold sorted. rewrite merge_sort_Permutation.
    unfold unknown_sections. rewrite list_elem_of_filter. naive_solver.
Qed.

(** C6.  When the files before it were loaded and the step of a file
    raises -- the decoder on its text, a check of [parse_file], or the
    merge -- the load ends there with that error wrapped with the name of
    the file, and returns no configuration, whatever files follow; a load
    that returns a configuration has decoded and checked every file. *)
Theorem file_error_aborts_load read_yaml depth pre fname post h0 h e :
  loaded read_yaml depth h0 pre h ->
  read_yaml fname = inl e \/
    file_step read_yaml depth (VRef (length h0)) fname h = inl e ->
  _combine_files read_yaml depth (pre ++ fname :: post) h0
    = inl (ParseFileException fname e)
  /\ (forall rest r, _combine_files read_yaml depth (pre ++ fname :: rest) h0 <> inr r)
  /\ (forall files r, _combine_files read_yaml depth files h0 = inr r ->
        Forall (valid_file read_yaml) files).
Proof.
  intros Hpre Hfail.
  assert (file_step read_yaml depth (VRef (length h0)) fname h = inl e) as Hstep.
  { destruct Hfail as [Hdec|]; [|done].
    apply file_step_parse_error. by apply parse_file_decode_error. }
  split_and!.
  - by eapply combine_files_abort.
  - intros rest r. by erewrite combine_files_abort.
  - intros files [data h'] Hrun. apply combine_files_loaded in Hrun.
    by eapply load_files_valid.
Qed.

(** C7, as the code has it.  A file is rejected, with a
    [ParseFileException] that carries its name, when the document is not a
    mapping, when it has no [network] key (or [None] under it), and when
    the value under [network] is not a mapping; the other top-level keys of
    the document are not looked at. *)
Theorem shape_rejected read_yaml depth fname d pre post h0 h :
  read_yaml fname = inr d ->
  doc_network d = None ->
  loaded read_yaml depth h0 pre h ->
  _combine_files read_yaml depth (pre ++ fname :: post) h0
    = inl (ParseFileException fname (shape_error d))
  /\ shape_error d ∈ [Exception NotADictionary; Exception NoNetwork; AttributeError].
Proof.
  intros Hread Hnet Hpre. split.
  - eapply combine_files_abort; [done|]. apply file_step_parse_error.
    by apply parse_file_shape.
  - unfold shape_error. destruct (doc_dict d (fst d)) as [kvs|]; [|set_solver].
    destruct (dict_get "network" kvs) as [[[]|]|]; set_solver.
Qed.

Lemma version_rejected_witness :
  _combine_files ex_read_yaml 100
    ["01-base.yaml"; "20-version1.yaml"; "50-override.yaml"] []
  = inl (ParseFileException "20-version1.yaml"
           (Exception (UnsupportedVersion (VScalar (SInt 1))))).
Proof.
  eassert (loaded ex_read_yaml 100 [] ["01-base.yaml"] _) as Hload
    by (unfold loaded; vm_compute; reflexivity).
  eassert (doc_network (doc_of_tree ex_version1) = Some _) as Hnet
    by (vm_compute; reflexivity).
  exact (proj1 (version_rejected ex_read_yaml 100 "20-version1.yaml" _ _
                  ["01-base.yaml"] ["50-override.yaml"] [] _
                  eq_refl Hnet eq_refl Hload)).
Defined.

Lemma unknown_sections_rejected_witness :
  _combine_files ex_read_yaml 100 ["01-base.yaml"; "30-tunnels.yaml"] []
  = inl (ParseFileException "30-tunnels.yaml"
           (Exception (UnsupportedSections ["routes"; "tunnels"]))).
Proof.
  eassert (loaded ex_read_yaml 100 [] ["01-base.yaml"] _) as Hload
    by (unfold loaded; vm_compute; reflexivity).
  eassert (doc_network (doc_of_tree ex_tunnels) = Some _) as Hnet
    by (vm_compute; reflexivity).
  refine (proj1 (unknown_sections_rejected ex_read_yaml 100 "30-tunnels.yaml" _ _
                   ["01-base.yaml"] [] [] _ eq_refl Hnet eq_refl _ Hload)).
  by vm_compute.
Defined.

Lemma file_error_aborts_load_witness :
  _combine_files ex_read_yaml 100
    ["01-base.yaml"; "70-broken.yaml"; "50-override.yaml"] []
  = inl (ParseFileException "70-broken.yaml"
           (DecodeError "mapping values are not allowed here")).
Proof.
  eassert (loaded ex_read_yaml 100 [] ["01-base.yaml"] _) as Hload
    by (unfold loaded; vm_compute; reflexivity).
  exact (proj1 (file_error_aborts_load ex_read_yaml 100 ["01-base.yaml"] "70-broken.yaml"
                  ["50-override.yaml"] [] _ _ Hload (or_introl eq_refl))).
Defined.

Lemma shape_rejected_witness :
  _combine_files ex_read_yaml 100 ["01-base.yaml"; "60-sequence.yaml"] []
  = inl (ParseFileException "60-sequence.yaml" (Exception NotADictionary)).
Proof.
  eassert (loaded ex_read_yaml 100 [] ["01-base.yaml"] _) as Hload
    by (unfold loaded; vm_compute; reflexivity).
  exact (proj1 (shape_rejected ex_read_yaml 100 "60-sequence.yaml" _
                  ["01-base.yaml"] [] [] _ eq_refl eq_refl Hload)).
Defined.

(** C7 as the spec states it fails: a document with two top-level keys is
    loaded, and its second key is dropped without a word. *)
Lemma two_top_level_keys_accepted :
  (exists kvs, doc_dict (doc_of_tree ex_two_keys) (fst (doc_of_tree ex_two_keys)) = Some kvs
     /\ dict_keys kvs = ["network"; "renderer"])
  /\ exists data h,
       _combine_files ex_read_yaml 100 ["40-two-keys.yaml"] [] = inr (data, h)
       /\ dict_keys data = ["eth1"].
Proof.
  split.
  - eexists. split; reflexivity.
  - eexists _, _. split; [vm_compute; reflexivity | reflexivity].
Qed.

Lemma section_lookup_total_witness :
  exists sections,
    py_items (VRef 0)
      [ODict [("ethernets", VRef 3); ("vlans", VRef 5)];
       OList [VScalar (SStr "10.0.0.2/24")];
       ODict [("dhcp4", VScalar (SBool true)); ("addresses", VRef 1)];
       ODict [("eth0", VRef 2)];
       ODict [("id", VScalar (SInt 20)); ("link", VScalar (SStr "eth0"))];
       ODict [("vlan10", VRef 4)];
       ODict [("ethernets", VRef 3); ("vlans", VRef 5)];
       ODict [("network", VRef 6)];
       ODict [("id", VScalar (SInt 20))];
       ODict [("vlan10", VRef 8)];
       ODict [("vlans", VRef 9)];
       ODict [("network", VRef 10)]] = inr sections /\
    Forall (fun section =>
              section ∈ ["bonds"; "bridges"; "ethernets"; "vlans"; "wifis"] /\
              exists cls, dict_get section BY_SECTION = Some cls)
      (dict_keys sections).
Proof.
  apply (section_lookup_total ex_read_yaml 100 ["01-base.yaml"; "50-override.yaml"] []).
  - intros l o Hl. by rewrite lookup_nil in Hl.
  - unfold loaded. vm_compute. reflexivity.
Defined.

(** The overlay of two files: the later file changes the [id] of the VLAN
    and leaves its [link]. *)
Example overlay_example :
  exists data h vlan,
    _combine_files ex_read_yaml 100 ["01-base.yaml"; "50-override.yaml"] [] = inr (data, h)
    /\ dict_keys data = ["eth0"; "vlan10"]
    /\ dict_get "vlan10" data = Some vlan
    /\ iface_class_of vlan = VLANInterface
    /\ reify 5 h (iface_data vlan)
       = Some (TDict [("id", TScalar (SInt 20)); ("link", TScalar (SStr "eth0"))]).
Proof.
  eexists _, _, _. split_and!; [vm_compute; reflexivity|reflexivity..].
Qed.

(** A section that is no mapping passes the checks of [parse_file]; the
    second loop of [_combine_files] raises on it, after the files are
    done, and no file is named. *)
Example section_not_a_mapping :
  _combine_files ex_read_yaml 100 ["65-scalar-section.yaml"] [] = inl AttributeError.
Proof. vm_compute. reflexivity. Qed.

(** ** The two queries *)

Lemma cycle_order cfg a b ia ib :
  cfg !! a = Some ia -> cfg !! b = Some ib ->
  references ia = [b] -> references ib = [a] ->
  exists order, visit_order cfg [a] = Some order /\
    forall n, n ∈ order <-> n = a \/ n = b.
Proof.
  intros Ha Hb Hra Hrb. destruct (decide (a = b)) as [->|Hne].
  - assert (ia = ib) as -> by congruence.
    exists (reverse [b]). split.
    + apply (visit_order_fuel cfg 2). simpl. rewrite Hb, Hra. simpl.
      by rewrite bool_decide_eq_true_2 by set_solver.
    + intros n. rewrite elem_of_reverse. set_solver.
  - exists (reverse [b; a]). split.
    + apply (visit_order_fuel cfg 3). simpl. rewrite Ha, Hra. simpl.
      rewrite bool_decide_eq_false_2 by set_solver. rewrite Hb, Hrb. simpl.
      by rewrite bool_decide_eq_true_2 by set_solver.
    + intros n. rewrite elem_of_reverse. set_solver.
Qed.

Lemma cycle_closure cfg a b ia ib :
  cfg !! a = Some ia -> cfg !! b = Some ib ->
  references ia = [b] -> references ib = [a] ->
  exists all, get_all_interfaces cfg [a] = inr all /\ dom all = {[a; b]}.
Proof.
  intros Ha Hb Hra Hrb.
  destruct (cycle_order cfg a b ia ib) as (order & Ho & Horder); [done..|].
  destruct (get_all_interfaces_resolved cfg [a]) as (order' & Ho' & ->).
  { intros s ->%list_elem_of_singleton. by rewrite Ha. }
  rewrite Ho in Ho'. simplify_eq. eexists. split; [done|].
  apply set_eq. intros n. rewrite elem_of_dom. unfold is_Some.
  split.
  - intros (i & [_ Hn]%map_lookup_filter_Some). simpl in Hn.
    apply Horder in Hn. set_solver.
  - intros Hn. assert (n = a \/ n = b) as [->| ->] by set_solver;
      eexists; apply map_lookup_filter_Some; (split; [done|]); simpl;
      apply Horder; auto.
Qed.

(** C2.  For seed names that the container has, the closure holds every
    seed, the physical interfaces are among those of the closure, and each
    of them is an Ethernet or a wireless interface, without a reference. *)
Theorem queries_related cfg seed_names :
  (forall s, s ∈ seed_names -> is_Some (cfg !! s)) ->
  exists all phys,
    get_all_interfaces cfg seed_names = inr all
    /\ get_physical_interfaces cfg seed_names = inr phys
    /\ (forall s, s ∈ seed_names -> all !! s = cfg !! s /\ is_Some (all !! s))
    /\ phys ⊆ all
    /\ all ⊆ cfg
    /\ (forall n i, phys !! n = Some i ->
          references i = [] /\
          ((exists nm d, i = Ethernet nm d) \/ (exists nm d, i = Wireless nm d))).
Proof.
  intros Hseeds.
  destruct (get_all_interfaces_resolved cfg seed_names Hseeds) as (order & Ho & Hall).
  destruct (visit_order_spec cfg seed_names order Ho) as (Hnd & Hin & Hkeys).
  eexists _, _. unfold get_physical_interfaces. rewrite Hall. split_and!; [done|done|..].
  - intros s Hs. destruct (Hseeds s Hs) as [i Hi].
    assert (filter (fun kv => fst kv ∈ order) cfg !! s = Some i) as Hf.
    { apply map_lookup_filter_Some. split; [done|]. simpl. apply Hin; [done|].
      by rewrite Hi. }
    by rewrite Hf, Hi.
  - apply map_filter_subseteq.
  - apply map_filter_subseteq.
  - intros n i [_ Hp]%map_lookup_filter_Some. simpl in Hp.
    destruct i; simplify_eq/=; eauto.
Qed.

Lemma queries_related_witness :
  exists all phys,
    get_all_interfaces ex_cfg ["br1"; "wlan0"] = inr all
    /\ get_physical_interfaces ex_cfg ["br1"; "wlan0"] = inr phys
    /\ (forall s, s ∈ ["br1"; "wlan0"] -> all !! s = ex_cfg !! s /\ is_Some (all !! s))
    /\ phys ⊆ all
    /\ all ⊆ ex_cfg
    /\ (forall n i, phys !! n = Some i ->
          references i = [] /\
          ((exists nm d, i = Ethernet nm d) \/ (exists nm d, i = Wireless nm d))).
Proof.
  apply (queries_related ex_cfg ["br1"; "wlan0"]).
  intros s Hs. repeat (apply elem_of_cons in Hs as [->|Hs]; [by eexists|]).
  by apply elem_of_nil in Hs.
Defined.

(** C3.  The closure ends on every container, whatever its references,
    cyclic or not: for every list of seeds the worklist is never
    exhausted, the visit order exists and names no interface twice, and
    the result holds exactly the visited interfaces.  In particular, where
    [a] refers to [b] and [b] to [a], the closure of either is exactly the
    two. *)
Theorem closure_terminates cfg :
  (forall seed_names,
     get_all_interfaces cfg seed_names <> inl WorklistExhausted
     /\ exists order, visit_order cfg seed_names = Some order /\ NoDup order
          /\ forall all, get_all_interfaces cfg seed_names = inr all ->
               forall n, is_Some (all !! n) <-> n ∈ order)
  /\ (forall a b ia ib,
        cfg !! a = Some ia -> cfg !! b = Some ib ->
        references ia = [b] -> references ib = [a] ->
        forall x, x ∈ [a; b] ->
          exists all, get_all_interfaces cfg [x] = inr all /\ dom all = {[a; b]}).
Proof.
  split.
  - intros seed_names. split; [apply get_all_interfaces_never_exhausted|].
    destruct (visit_order_total cfg seed_names) as [order Ho]. exists order.
    destruct (visit_order_spec cfg seed_names order Ho) as (Hnd & _ & Hkeys).
    split_and!; [done|done|]. intros all Hall n. unfold get_all_interfaces in Hall.
    rewrite Ho in Hall. case_match; simplify_eq. unfold is_Some.
    split.
    + by intros (i & [_ Hn]%map_lookup_filter_Some).
    + intros Hn. destruct (Hkeys n Hn) as [i Hi]. exists i.
      by apply map_lookup_filter_Some.
  - intros a b ia ib Ha Hb Hra Hrb x
      [->|[->|?%elem_of_nil]%elem_of_cons]%elem_of_cons; [|..|done].
    + by eapply cycle_closure.
    + destruct (cycle_closure cfg b a ib ia) as (all & Hall & Hdom); [done..|].
      exists all. split; [done|]. rewrite Hdom. set_solver.
Qed.

Lemma closure_terminates_witness :
  (forall x, x ∈ ["br0"; "bond0"] ->
     exists all, get_all_interfaces ex_cfg [x] = inr all /\ dom all = {["br0"; "bond0"]})
  /\ (forall seed_names,
        get_all_interfaces ex_cfg seed_names <> inl WorklistExhausted
        /\ exists order, visit_order ex_cfg seed_names = Some order /\ NoDup order
             /\ forall all, get_all_interfaces ex_cfg seed_names = inr all ->
                  forall n, is_Some (all !! n) <-> n ∈ order).
Proof.
  split.
  - apply (proj2 (closure_terminates ex_cfg) "br0" "bond0"
             (Bridge "br0" (VScalar SNone) ["bond0"])
             (Bond "bond0" (VScalar SNone) ["br0"])); reflexivity.
  - apply (proj1 (closure_terminates ex_cfg)).
Defined.

Example visit_order_example :
  visit_order ex_cfg ["br1"] = Some ["br1"; "vlan10"; "eth0"; "br0"; "bond0"].
Proof. vm_compute. reflexivity. Qed.

Example get_all_interfaces_unresolved :
  get_all_interfaces ex_cfg ["zz"; "eth0"; "doesnotexist"]
  = inl (UnresolvedNames ["doesnotexist"; "zz"]).
Proof. vm_compute. reflexivity. Qed.

(** ** The deep merge of documents that share nothing *)

(** The merge in the store of two separate documents: it returns when
    their types agree and the stack is deep enough, and what it returns is
    what the merge on trees returns, related to the two trees by the
    rules. *)
Lemma combine_dicts_separate h cur new tc tn depth :
  separate h cur tc new tn ->
  (mergeable tc tn -> dict_depth tn <= depth ->
     exists h', _combine_dicts depth cur new h = inr h')
  /\ (forall h', _combine_dicts depth cur new h = inr h' ->
        exists R, unshared h' cur R /\ merged tc tn R /\ mergeable tc tn).
Proof.
  intros (fpc & fpn & Hcur & Hnew & Hdisj).
  pose proof (combine_dicts_refines depth h cur new tc tn fpc fpn Hcur Hnew Hdisj) as Hsim.
  pose proof (rep_distinct_keys _ _ _ _ Hnew) as Hdk. split.
  - intros Hm Hdepth. destruct (combine_trees_total depth tc tn) as [R HR]; [done..|].
    rewrite HR in Hsim. destruct Hsim as (h' & _ & -> & _). by eexists.
  - intros h' Hrun. destruct (combine_trees depth tc tn) as [e|R] eqn:HR.
    { simpl in Hsim. congruence. }
    destruct Hsim as (h'' & fp' & Hrun' & Hrep & _). rewrite Hrun in Hrun'.
    simplify_eq. exists R. split_and!; [by exists fp'| |].
    + by eapply combine_trees_merged.
    + by eapply combine_trees_mergeable.
Qed.


(** C9, as the code has it.  For an accumulator and a new document that
    share no container, the merge returns when the types of the two agree,
    and in its result every key of a mapping of the accumulator that the
    mapping of the new document at the same place does not have keeps the
    value that it had. *)
Theorem merge_keeps_left_only h cur new A B depth :
  separate h cur A new B ->
  (mergeable A B -> dict_depth B <= depth ->
     exists h', _combine_dicts depth cur new h = inr h')
  /\ (forall h', _combine_dicts depth cur new h = inr h' ->
        exists R, unshared h' cur R /\ keeps_left_only A B R).
Proof.
  intros Hsep. destruct (combine_dicts_separate _ _ _ _ _ depth Hsep) as [Htotal Hres].
  split; [done|]. intros h' Hrun. destruct (Hres h' Hrun) as (R & Hun & Hm & _).
  exists R. split; [done|]. by apply merged_keeps_left_only.
Qed.


Lemma merge_keeps_left_only_witness :
  exists h' R,
    _combine_dicts 100 (VRef 2) (VRef 5) ex_store = inr h'
    /\ unshared h' (VRef 2) R
    /\ tree_get ["vlan10"; "link"] R = Some (TScalar (SStr "eth0")).
Proof.
  assert (separate ex_store (VRef 2) (TDict ex_A) (VRef 5) (TDict ex_B)) as Hsep
    by (unfold ex_A, ex_B; solve_separate).
  destruct (merge_keeps_left_only ex_store (VRef 2) (VRef 5) (TDict ex_A) (TDict ex_B) 100
              Hsep) as [Htotal Hkeeps].
  destruct Htotal as [h' Hrun].
  - simpl. repeat split; constructor.
  - simpl. lia.
  - destruct (Hkeeps h' Hrun) as (R & Hun & Hk). exists h', R. split_and!; [done..|].
    apply (Hk ["vlan10"] "link"
             [("id", TScalar (SInt 10)); ("link", TScalar (SStr "eth0"))]
             [("id", TScalar (SInt 20))]); reflexivity.
Defined.


(** C9 as the spec states it fails: [eth1] is a key of the accumulator
    that the new document does not have, and its addresses are not what
    they were, because [eth0] holds the same list object and the new
    document extends it. *)
Lemma shared_list_changes_left_only_key :
  let a := TDict [("eth0", TDict [("addresses", TList [TScalar (SStr "10.0.0.2/24")])]);
                  ("eth1", TDict [("addresses", TList [TScalar (SStr "10.0.0.2/24")])])] in
  let b := TDict [("eth0", TDict [("addresses", TList [TScalar (SStr "10.0.0.9/24")])])] in
  reify 5 ex_store_alias (VRef 3) = Some a
  /\ reify 5 ex_store_alias (VRef 6) = Some b
  /\ exists h' r,
       _combine_dicts 100 (VRef 3) (VRef 6) ex_store_alias = inr h'
       /\ reify 5 h' (VRef 3) = Some r
       /\ tree_get ["eth1"] r
          = Some (TDict [("addresses",
                          TList [TScalar (SStr "10.0.0.2/24"); TScalar (SStr "10.0.0.9/24")])])
       /\ ~ keeps_left_only a b r.
Proof.
  split_and!; [reflexivity|reflexivity|].
  eexists _, _. split_and!; [vm_compute; reflexivity|reflexivity|reflexivity|].
  intros Hk.
  specialize (Hk [] "eth1" _ _ _ eq_refl eq_refl eq_refl eq_refl). done.
Qed.

(** The same through the loader: two files, the first with an alias. *)
Example alias_through_the_loader :
  exists data h eth1,
    _combine_files ex_read_yaml 100 ["80-anchor.yaml"; "90-more.yaml"] [] = inr (data, h)
    /\ dict_get "eth1" data = Some eth1
    /\ reify 5 h (iface_data eth1)
       = Some (TDict [("addresses",
                       TList [TScalar (SStr "10.0.0.2/24"); TScalar (SStr "10.0.0.9/24")])]).
Proof. eexists _, _, _. split_and!; [vm_compute; reflexivity|reflexivity|reflexivity]. Qed.

(** ** What [parse_file] accepts and what it returns *)

(** X1.  [parse_file] returns exactly for the files that decode to a
    mapping with a mapping under [network] whose [version] is equal to 2
    and whose other keys are section names of [BY_SECTION]; the store that
    the file is loaded into plays no part in it. *)
Theorem parse_file_accepts read_yaml fname h :
  (exists net h1, parse_file read_yaml (dict_keys BY_SECTION) fname h = inr (net, h1))
  <-> valid_file read_yaml fname.
Proof.
  split.
  - intros (net & h1 & Hp).
    apply parse_file_inr in Hp as (d & items & l & ? & ? & ? & ? & _).
    by exists d, items.
  - intros (d & items & Hread & Hnet & Hver & Hunk).
    destruct (parse_file_checked read_yaml (dict_keys BY_SECTION) fname h d Hread items Hnet Hver)
      as (l & _ & Heq).
    cbv zeta in Heq. fold (unknown_sections items) in Heq.
    rewrite decide_True in Heq by done. eauto.
Qed.

(** X2.  The mapping that [parse_file] returns is an object that the
    decoder made for this file; its keys are section names of [BY_SECTION],
    the version marker is gone, and no object that was in the store before
    the call has changed. *)
Theorem parse_file_result read_yaml fname h net h1 :
  parse_file read_yaml (dict_keys BY_SECTION) fname h = inr (net, h1) ->
  (forall l o, h !! l = Some o -> h1 !! l = Some o)
  /\ exists l kvs,
       net = VRef l /\ length h <= l /\ h1 !! l = Some (ODict kvs)
       /\ dict_keys kvs ⊆ dict_keys BY_SECTION
       /\ "version" ∉ dict_keys kvs.
Proof.
  intros Hp.
  apply parse_file_inr in Hp
    as (d & items & l & Hread & Hnet & Hver & Hunk & Hl & -> & ->).
  assert (forall k, k ∈ dict_keys (dict_del "version" items) -> k ∈ dict_keys BY_SECTION)
    as Hkeys.
  { intros k Hk. destruct (decide (k ∈ dict_keys BY_SECTION)) as [|Hnot]; [done|].
    assert (k ∈ unknown_sections items) as Hin by (by apply list_elem_of_filter).
    rewrite Hunk in Hin. by apply elem_of_nil in Hin. }
  split.
  - intros l' o Hl'. assert (l' < length h) by by eapply lookup_lt_Some.
    rewrite list_lookup_insert_ne by lia. by rewrite lookup_app_l.
  - eexists _, _. split_and!; [done|lia| | |].
    + apply list_lookup_insert_eq. rewrite length_app, length_map.
      apply lookup_lt_Some in Hl. lia.
    + rewrite (dict_keys_shift h). intros k. apply Hkeys.
    + rewrite (dict_keys_shift h). intros Hv%Hkeys. revert Hv. compute_done.
Qed.

Lemma parse_file_result_witness :
  exists net h1 l kvs,
    parse_file ex_read_yaml (dict_keys BY_SECTION) "01-base.yaml" [] = inr (net, h1)
    /\ net = VRef l /\ h1 !! l = Some (ODict kvs)
    /\ dict_keys kvs ⊆ dict_keys BY_SECTION /\ "version" ∉ dict_keys kvs.
Proof.
  eassert (parse_file ex_read_yaml (dict_keys BY_SECTION) "01-base.yaml" [] = inr (_, _))
    as Hp by (vm_compute; reflexivity).
  destruct (parse_file_result _ _ _ _ _ Hp) as (_ & l & kvs & Hnet & _ & Hl & Hsub & Hver).
  by eexists _, _, l, kvs.
Defined.

(** ** The two loops of [_combine_files] *)

Lemma load_files_inl read_yaml depth raw files h e :
  load_files read_yaml depth (dict_keys BY_SECTION) raw files h = inl e ->
  exists pre fname post h' inner,
    files = pre ++ fname :: post /\
    load_files read_yaml depth (dict_keys BY_SECTION) raw pre h = inr h' /\
    file_step read_yaml depth raw fname h' = inl inner /\
    e = ParseFileException fname inner.
Proof.
  revert h. induction files as [|f files IH]; intros h; simpl; [done|].
  rewrite load_one_file_step.
  destruct (file_step read_yaml depth raw f h) as [inner|h1] eqn:Hstep; simpl.
  - intros [= <-]. by exists [], f, files, h, inner.
  - intros (pre & fname & post & h' & inner & -> & Hpre & Hfail & ->)%IH.
    exists (f :: pre), fname, post, h', inner. split_and!; [done| |done..].
    simpl. rewrite load_one_file_step, Hstep. done.
Qed.

Lemma build_section_inl section ifaces h data e :
  build_section section ifaces h data = inl e ->
  (dict_get section BY_SECTION = None /\ e = KeyError section)
  \/ (isinstance_dict ifaces h = false /\ e = AttributeError).
Proof.
  unfold build_section. destruct (dict_get section BY_SECTION) as [cls|]; simpl.
  - intros He. right. destruct ifaces as [s|l]; simpl in *; [by simplify_eq|].
    destruct (h !! l) as [[xs|kvs]|]; simpl in *; by simplify_eq.
  - intros [= <-]. by left.
Qed.

Lemma build_interfaces_inl sections h data e :
  build_interfaces sections h data = inl e ->
  (exists section, section ∈ dict_keys sections /\
     dict_get section BY_SECTION = None /\ e = KeyError section)
  \/ (e = AttributeError /\
      exists section ifaces, (section, ifaces) ∈ sections /\ isinstance_dict ifaces h = false).
Proof.
  revert data. induction sections as [|[section ifaces] sections IH]; intros data; simpl; [done|].
  destruct (build_section section ifaces h data) as [e'|data'] eqn:Hs; simpl.
  - intros [= <-]. apply build_section_inl in Hs as [[Hget ->]|[Hno ->]].
    + left. exists section. split_and!; [set_solver|done..].
    + right. split; [done|]. exists section, ifaces. split; [set_solver|done].
  - intros [(s & Hin & Hget & ->)|(-> & s & v & Hin & Hno)]%IH.
    + left. exists s. split_and!; [set_solver|done..].
    + right. split; [done|]. exists s, v. split; [set_solver|done].
Qed.

(** X3.  The exceptions that leave [_combine_files]: a
    [ParseFileException] that names the first file that could not be
    parsed or merged, with the exception that this file met, after the
    files before it were loaded; or, when all the files were loaded, the
    [AttributeError] of a section whose value is not a mapping.  The lookup
    [BY_SECTION[section]] never fails. *)
Theorem combine_files_errors read_yaml depth files h0 e :
  no_ref (length h0) h0 ->
  _combine_files read_yaml depth files h0 = inl e ->
  (exists pre fname post h inner,
     files = pre ++ fname :: post /\
     loaded read_yaml depth h0 pre h /\
     file_step read_yaml depth (VRef (length h0)) fname h = inl inner /\
     e = ParseFileException fname inner)
  \/ (e = AttributeError /\
      exists h sections section ifaces,
        loaded read_yaml depth h0 files h /\
        py_items (VRef (length h0)) h = inr sections /\
        (section, ifaces) ∈ sections /\ isinstance_dict ifaces h = false).
Proof.
  intros Hh0. unfold _combine_files. cbv zeta.
  destruct (load_files read_yaml depth (dict_keys BY_SECTION) (VRef (length h0)) files
              (h0 ++ [ODict []])) as [e'|h] eqn:Hload; cbn [bind].
  - intros [= <-]. left. by apply load_files_inl in Hload.
  - pose proof Hload as Hacc.
    eapply load_files_accumulator in Hacc as (_ & kvs & Hr & Hkeys);
      [|by apply accumulator_new].
    cbn [py_items]. rewrite Hr. cbn [bind].
    destruct (build_interfaces kvs h []) as [e'|data] eqn:Hb; cbn [bind]; [|done].
    intros [= <-]. right.
    apply build_interfaces_inl in Hb as [(s & Hin%Hkeys & Hget & _)|(-> & s & v & Hin & Hno)].
    + by apply dict_get_None in Hget.
    + split; [done|]. exists h, kvs, s, v. split_and!; try done.
      cbn [py_items]. by rewrite Hr.
Qed.

Lemma combine_files_errors_witness :
  (exists pre fname post h inner,
     ["01-base.yaml"; "30-tunnels.yaml"; "50-override.yaml"] = pre ++ fname :: post /\
     loaded ex_read_yaml 100 [] pre h /\
     file_step ex_read_yaml 100 (VRef 0) fname h = inl inner /\
     ParseFileException "30-tunnels.yaml" (Exception (UnsupportedSections ["routes"; "tunnels"]))
     = ParseFileException fname inner)
  \/ (ParseFileException "30-tunnels.yaml" (Exception (UnsupportedSections ["routes"; "tunnels"]))
      = AttributeError /\
      exists h sections section ifaces,
        loaded ex_read_yaml 100 [] ["01-base.yaml"; "30-tunnels.yaml"; "50-override.yaml"] h /\
        py_items (VRef 0) h = inr sections /\
        (section, ifaces) ∈ sections /\ isinstance_dict ifaces h = false).
Proof.
  apply (combine_files_errors ex_read_yaml 100
           ["01-base.yaml"; "30-tunnels.yaml"; "50-override.yaml"] []).
  - intros l o Hl. by rewrite lookup_nil in Hl.
  - vm_compute. reflexivity.
Defined.

(** *** The interfaces that the second loop builds *)

Lemma dict_set_elem {A} k (v : A) k' x d :
  (k', x) ∈ dict_set k v d -> (k', x) = (k, v) \/ (k', x) ∈ d.
Proof.
  induction d as [|[k0 v0] d IH]; simpl.
  - intros ->%list_elem_of_singleton. by left.
  - destruct (String.eqb_spec k k0) as [->|Hne].
    + intros [->|Hin]%elem_of_cons; [by left|]. right. by right.
    + intros [->|Hin]%elem_of_cons; [right; by left|].
      destruct (IH Hin) as [?|?]; [by left|]. right. by right.
Qed.

Section build.
Context (h : heap) (section : string) (cls : iface_class).

Local Abbreviation make :=
  (fun (data : list (string * Interface)) (kv : string * value) =>
     dict_set (fst kv)
       {| iface_class_of := cls; iface_name := fst kv;
          iface_section := section; iface_data := snd kv |} data).

Lemma fold_make_NoDup items data :
  NoDup (dict_keys data) -> NoDup (dict_keys (fold_left make items data)).
Proof.
  revert data. induction items as [|kv items IH]; intros data Hnd; simpl; [done|].
  apply IH. by apply dict_set_NoDup.
Qed.

Lemma fold_make_keys items data name :
  name ∈ dict_keys (fold_left make items data) <->
  name ∈ dict_keys items \/ name ∈ dict_keys data.
Proof.
  revert data. induction items as [|kv items IH]; intros data; simpl.
  - set_solver.
  - rewrite IH, dict_keys_set_elem. set_solver.
Qed.

Lemma fold_make_elem items data name i :
  (name, i) ∈ fold_left make items data ->
  (name, i) ∈ data
  \/ (iface_name i = name /\ iface_section i = section /\ iface_class_of i = cls /\
      (name, iface_data i) ∈ items).
Proof.
  revert data. induction items as [|[k v] items IH]; intros data; simpl; [by left|].
  intros [[[= -> ->]|Hin]%dict_set_elem|(?&?&?&?)]%IH.
  - right. split_and!; [done..|]. simpl. by left.
  - by left.
  - right. split_and!; [done..|]. by right.
Qed.

Lemma fold_make_get_other items data name :
  name ∉ dict_keys items -> dict_get name (fold_left make items data) = dict_get name data.
Proof.
  revert data. induction items as [|[k v] items IH]; intros data Hnot; simpl; [done|].
  rewrite IH by set_solver. apply dict_get_set_ne. set_solver.
Qed.

Lemma fold_make_get items data name :
  name ∈ dict_keys items ->
  exists i, dict_get name (fold_left make items data) = Some i /\
    iface_name i = name /\ iface_section i = section /\ iface_class_of i = cls /\
    (name, iface_data i) ∈ items.
Proof.
  revert data. induction items as [|[k v] items IH]; intros data Hin; simpl.
  { by apply elem_of_nil in Hin. }
  destruct (decide (name ∈ dict_keys items)) as [Hlater|Hnot].
  - destruct (IH (make data (k, v)) Hlater) as (i & Hget & ? & ? & ? & ?).
    exists i. split_and!; [done..|]. by right.
  - assert (name = k) as -> by set_solver.
    rewrite fold_make_get_other by done. simpl. rewrite dict_get_set_eq.
    eexists. split_and!; [done..|]. simpl. by left.
Qed.

End build.

Lemma build_section_inr section ifaces h data data' :
  build_section section ifaces h data = inr data' ->
  exists cls items,
    dict_get section BY_SECTION = Some cls /\ py_items ifaces h = inr items /\
    data' = fold_left
              (fun data kv =>
                 dict_set (fst kv)
                   {| iface_class_of := cls; iface_name := fst kv;
                      iface_section := section; iface_data := snd kv |} data)
              items data.
Proof.
  unfold build_section. destruct (dict_get section BY_SECTION) as [cls|]; simpl; [|done].
  destruct (py_items ifaces h) as [e|items]; simpl; [done|].
  intros [= <-]. by exists cls, items.
Qed.

Lemma build_interfaces_app s1 s2 h data :
  build_interfaces (s1 ++ s2) h data =
    try data1 := build_interfaces s1 h data in build_interfaces s2 h data1.
Proof.
  revert data. induction s1 as [|[section ifaces] s1 IH]; intros data; simpl; [done|].
  destruct (build_section section ifaces h data) as [e|data1]; simpl; [done|]. apply IH.
Qed.

Lemma build_interfaces_inv all h sections : forall data data',
  sections ⊆ all ->
  build_interfaces sections h data = inr data' ->
  NoDup (dict_keys data) ->
  (forall name i, (name, i) ∈ data -> built_from all h name i) ->
  NoDup (dict_keys data')
  /\ (forall name i, (name, i) ∈ data' -> built_from all h name i)
  /\ (forall name, name ∈ dict_keys data -> name ∈ dict_keys data')
  /\ (forall section ifaces defs name,
        (section, ifaces) ∈ sections -> py_items ifaces h = inr defs ->
        name ∈ dict_keys defs -> name ∈ dict_keys data').
Proof.
  induction sections as [|[section ifaces] sections IH]; intros data data' Hsub; simpl.
  { intros [= <-] Hnd Hall. split_and!; [done..|]. intros ???? Hin. by apply elem_of_nil in Hin. }
  destruct (build_section section ifaces h data) as [e|data1] eqn:Hs; simpl; [done|].
  intros Hb Hnd Hall.
  apply build_section_inr in Hs as (cls & items & Hcls & Hitems & ->).
  apply IH in Hb as (Hnd' & Hall' & Hkeep & Hdef); [|set_solver|by apply fold_make_NoDup|].
  2:{ intros name i [Hin|(Hn & Hsec & Hc & Hin)]%fold_make_elem; [by apply Hall|].
      split_and!; [done|by rewrite Hsec, Hc|].
      exists ifaces, items. rewrite Hsec. split_and!; [set_solver|done..]. }
  split_and!; [done..| |].
  - intros name Hin. apply Hkeep, fold_make_keys. by right.
  - intros s v defs name [[= -> ->]|Hin]%elem_of_cons Hv Hname; [|by eapply Hdef].
    rewrite Hitems in Hv. injection Hv as <-. apply Hkeep, fold_make_keys. by left.
Qed.

Lemma build_interfaces_get_other sections h name : forall data data',
  build_interfaces sections h data = inr data' ->
  (forall section ifaces defs, (section, ifaces) ∈ sections ->
     py_items ifaces h = inr defs -> name ∉ dict_keys defs) ->
  dict_get name data' = dict_get name data.
Proof.
  induction sections as [|[section ifaces] sections IH]; intros data data'; simpl.
  { by intros [= <-]. }
  destruct (build_section section ifaces h data) as [e|data1] eqn:Hs; simpl; [done|].
  intros Hb Hnot. apply build_section_inr in Hs as (cls & items & Hcls & Hitems & ->).
  rewrite (IH _ _ Hb) by (intros s v defs Hin; apply (Hnot s v defs); by right).
  apply fold_make_get_other. apply (Hnot section ifaces items); [by left|done].
Qed.

Lemma combine_files_inr read_yaml depth files h0 data h :
  _combine_files read_yaml depth files h0 = inr (data, h) ->
  exists sections,
    loaded read_yaml depth h0 files h /\
    py_items (VRef (length h0)) h = inr sections /\
    build_interfaces sections h [] = inr data.
Proof.
  unfold _combine_files, loaded. cbv zeta.
  destruct (load_files _ _ _ _ files _) as [e|h1]; cbn [bind]; [done|].
  destruct (py_items (VRef (length h0)) h1) as [e|sections] eqn:Hitems; cbn [bind]; [done|].
  destruct (build_interfaces sections h1 []) as [e|data1] eqn:Hb; cbn [bind]; [done|].
  intros [= <- <-]. by exists sections.
Qed.

(** X4.  In the configuration that [_combine_files] returns, the names are
    distinct; the interface under a name carries this name, the section
    it was defined in, the class of [BY_SECTION] for that section, and the
    definition that the merged document has there; and every name that a
    section of the merged document defines is in the configuration. *)
Theorem interfaces_of_sections read_yaml depth files h0 data h :
  _combine_files read_yaml depth files h0 = inr (data, h) ->
  exists sections,
    py_items (VRef (length h0)) h = inr sections
    /\ NoDup (dict_keys data)
    /\ (forall name i, dict_get name data = Some i -> built_from sections h name i)
    /\ (forall section ifaces defs name,
          (section, ifaces) ∈ sections -> py_items ifaces h = inr defs ->
          name ∈ dict_keys defs -> name ∈ dict_keys data).
Proof.
  intros (sections & _ & Hitems & Hb)%combine_files_inr.
  exists sections. split; [done|].
  eapply (build_interfaces_inv sections) in Hb as (Hnd & Hall & _ & Hdef);
    [|done|constructor|by intros ?? ?%elem_of_nil].
  split_and!; [done| |done].
  intros name i Hget%dict_get_Some_elem. by apply Hall.
Qed.

Lemma interfaces_of_sections_witness :
  exists data h sections,
    _combine_files ex_read_yaml 100 ["01-base.yaml"; "50-override.yaml"] [] = inr (data, h)
    /\ py_items (VRef 0) h = inr sections
    /\ dict_keys data = ["eth0"; "vlan10"]
    /\ (forall name i, dict_get name data = Some i -> built_from sections h name i).
Proof.
  eassert (_combine_files ex_read_yaml 100 ["01-base.yaml"; "50-override.yaml"] []
           = inr (_, _)) as Hc by (vm_compute; reflexivity).
  destruct (interfaces_of_sections _ _ _ _ _ _ Hc) as (sections & Hitems & _ & Hall & _).
  eexists _, _, sections. split_and!; [exact Hc|exact Hitems|reflexivity|exact Hall].
Defined.

(** X5.  A name that two sections define is not reported: the interface
    in the configuration is the one of the section that comes last in the
    order of the merged document. *)
Theorem last_section_wins read_yaml depth files h0 data h s1 section ifaces s2 defs name :
  _combine_files read_yaml depth files h0 = inr (data, h) ->
  py_items (VRef (length h0)) h = inr (s1 ++ (section, ifaces) :: s2) ->
  py_items ifaces h = inr defs ->
  name ∈ dict_keys defs ->
  (forall section' ifaces' defs', (section', ifaces') ∈ s2 ->
     py_items ifaces' h = inr defs' -> name ∉ dict_keys defs') ->
  exists i cls,
    dict_get name data = Some i /\ iface_name i = name /\
    iface_section i = section /\
    dict_get section BY_SECTION = Some cls /\ iface_class_of i = cls /\
    (name, iface_data i) ∈ defs.
Proof.
  intros (sections & _ & Hitems & Hb)%combine_files_inr Hsplit Hdefs Hname Hlast.
  rewrite Hitems in Hsplit. injection Hsplit as ->.
  rewrite build_interfaces_app in Hb.
  destruct (build_interfaces s1 h []) as [e|data1]; cbn [bind] in Hb; [done|].
  simpl in Hb.
  destruct (build_section section ifaces h data1) as [e|data2] eqn:Hs; cbn [bind] in Hb; [done|].
  apply build_section_inr in Hs as (cls & items & Hcls & Hi & ->).
  rewrite Hdefs in Hi. injection Hi as <-.
  rewrite (build_interfaces_get_other _ _ name _ _ Hb Hlast).
  destruct (fold_make_get section cls defs data1 name Hname) as (i & Hget & ? & ? & ? & ?).
  by exists i, cls.
Qed.

Lemma last_section_wins_witness :
  exists data h i,
    _combine_files ex_read_two_sections 100 ["10-two-sections.yaml"] [] = inr (data, h)
    /\ dict_keys data = ["br0"]
    /\ dict_get "br0" data = Some i
    /\ iface_section i = "bridges"
    /\ iface_class_of i = BridgeInterface.
Proof.
  eassert (_combine_files ex_read_two_sections 100 ["10-two-sections.yaml"] [] = inr (_, _))
    as Hc by (vm_compute; reflexivity).
  edestruct (last_section_wins _ _ _ _ _ _ [("ethernets", VRef 2)] "bridges" (VRef 5) []
               [("br0", VRef 4)] "br0" Hc)
    as (i & cls & Hget & _ & Hsec & Hcls & Hi & _);
    [reflexivity|reflexivity|compute_done|by intros ??? ?%elem_of_nil|].
  injection Hcls as <-.
  eexists _, _, i. split_and!; [exact Hc|reflexivity|exact Hget|exact Hsec|exact Hi].
Defined.

(** ** More on [find_files] and on [parse] *)

Lemma sorted_Permutation (l1 l2 : list string) : l1 ≡ₚ l2 -> sorted l1 = sorted l2.
Proof.
  intros Hp. unfold sorted.
  apply (StronglySorted_unique String.le); [apply StronglySorted_merge_sort; apply _..|].
  by rewrite !merge_sort_Permutation.
Qed.

Lemma StronglySorted_filter {A} (R : A -> A -> Prop) (P : A -> Prop)
    `{!forall x, Decision (P x)} l :
  StronglySorted R l -> StronglySorted R (filter P l).
Proof.
  induction 1 as [|x l Hl IH Hx]; [constructor|].
  rewrite filter_cons. case_decide; [|done].
  constructor; [done|]. apply Forall_forall. intros y [_ Hy]%list_elem_of_filter.
  by eapply Forall_forall in Hx.
Qed.

Lemma sorted_filter (P : string -> Prop) `{!forall x, Decision (P x)} l :
  sorted (filter P l) = filter P (sorted l).
Proof.
  unfold sorted. apply (StronglySorted_unique String.le).
  - apply StronglySorted_merge_sort; apply _.
  - apply StronglySorted_filter, StronglySorted_merge_sort; apply _.
  - by rewrite !merge_sort_Permutation.
Qed.

Lemma filter_map_commute {A B} (f : A -> B) (P : A -> Prop) (Q : B -> Prop)
    `{!forall x, Decision (P x)} `{!forall y, Decision (Q y)} l :
  (forall x, x ∈ l -> Q (f x) <-> P x) ->
  filter Q (map f l) = map f (filter P l).
Proof.
  induction l as [|x l IH]; intros HPQ; [done|]. simpl.
  rewrite !filter_cons, IH by (intros y Hy; apply HPQ; by right).
  destruct (decide (P x)) as [HP|HP].
  - rewrite decide_True by (apply HPQ; [by left|done]). done.
  - rewrite decide_False; [done|]. intros HQ. apply HP, HPQ; [by left|done].
Qed.

(** The paths in the order of their names. *)
Lemma find_files_inr fs dirs :
  find_files fs dirs
  = inr (map (fun name => default "" (dict_get name (find_files_dict fs dirs)))
           (sorted (dict_keys (find_files_dict fs dirs)))).
Proof.
  unfold find_files. apply map_result_all. intros name Hin.
  unfold sorted in Hin. rewrite merge_sort_Permutation in Hin.
  destruct (dict_get name (find_files_dict fs dirs)) eqn:Hget; [done|].
  by apply dict_get_None in Hget.
Qed.

Lemma find_files_dict_keys fs dirs name :
  name ∈ dict_keys (find_files_dict fs dirs) <-> exists d, last_occurrence fs dirs name d.
Proof.
  split.
  - intros Hin. destruct (dict_get name (find_files_dict fs dirs)) as [p|] eqn:Hget.
    + apply find_files_dict_get in Hget as (d & ? & _). by exists d.
    + by apply dict_get_None in Hget.
  - intros (d & Hlast).
    assert (dict_get name (find_files_dict fs dirs) = Some (path_join d name)) as Hget.
    { apply find_files_dict_get. by exists d. }
    destruct (decide (name ∈ dict_keys (find_files_dict fs dirs))) as [|Hnot]; [done|].
    apply dict_get_None in Hnot. congruence.
Qed.

(** Two searches in which every name resolves alike give the same list. *)
Lemma find_files_ext fs1 dirs1 fs2 dirs2 :
  (forall name, dict_get name (find_files_dict fs1 dirs1)
                = dict_get name (find_files_dict fs2 dirs2)) ->
  find_files fs1 dirs1 = find_files fs2 dirs2.
Proof.
  intros Hget. rewrite !find_files_inr. f_equal.
  assert (sorted (dict_keys (find_files_dict fs1 dirs1))
          = sorted (dict_keys (find_files_dict fs2 dirs2))) as ->.
  { apply sorted_Permutation.
    apply NoDup_Permutation; [apply dict_of_pairs_NoDup..|].
    intros name. rewrite <- !dict_mem_true. unfold dict_mem. by rewrite Hget. }
  apply map_ext. intros name. by rewrite Hget.
Qed.

Lemma last_occurrence_ext fs1 fs2 dirs name d :
  (forall d', occurs fs1 d' name <-> occurs fs2 d' name) ->
  last_occurrence fs1 dirs name d <-> last_occurrence fs2 dirs name d.
Proof.
  intros Hocc. unfold last_occurrence.
  split; intros (ds1 & ds2 & -> & Hd & Hlast); exists ds1, ds2;
    (split_and!; [done|by apply Hocc|]); intros d' Hd' ?%Hocc; by eapply Hlast.
Qed.

(** X6.  [find_files] does not depend on the order in which [os.listdir]
    gives the entries of a directory, nor on an entry that is given more
    than once: two file systems with the same directories, the same
    regular files and, directory by directory, the same set of entries
    give the same list of paths. *)
Theorem find_files_listdir_order fs1 fs2 dirs :
  (forall d, isdir fs1 d = isdir fs2 d) ->
  (forall p, isfile fs1 p = isfile fs2 p) ->
  (forall d name, name ∈ listdir fs1 d <-> name ∈ listdir fs2 d) ->
  find_files fs1 dirs = find_files fs2 dirs.
Proof.
  intros Hdir Hfile Hlist. apply find_files_ext. intros name.
  apply option_eq. intros path. rewrite !find_files_dict_get.
  assert (forall d', occurs fs1 d' name <-> occurs fs2 d' name) as Hocc.
  { intros d'. unfold occurs. by rewrite Hdir, Hfile, Hlist. }
  by setoid_rewrite (last_occurrence_ext fs1 fs2 dirs name _ Hocc).
Qed.

Lemma find_files_listdir_order_witness :
  find_files ex_fs NETPLAN_DIRS
  = find_files
      {| isdir := isdir ex_fs; isfile := isfile ex_fs;
         listdir d := reverse (listdir ex_fs d) ++ listdir ex_fs d |}
      NETPLAN_DIRS.
Proof.
  apply find_files_listdir_order; [done..|].
  intros d name. simpl. rewrite elem_of_app, elem_of_reverse. tauto.
Defined.



Section read_only_listed.
Context (ry1 ry2 : string -> result pydoc) (depth : nat).

Lemma parse_file_ext skeys fname h :
  ry1 fname = ry2 fname -> parse_file ry1 skeys fname h = parse_file ry2 skeys fname h.
Proof. intros Heq. unfold parse_file. by rewrite Heq. Qed.

Lemma load_files_ext skeys raw files : forall h,
  (forall f, f ∈ files -> ry1 f = ry2 f) ->
  load_files ry1 depth skeys raw files h = load_files ry2 depth skeys raw files h.
Proof.
  induction files as [|f files IH]; intros h Heq; simpl; [done|].
  unfold load_one. rewrite (parse_file_ext skeys f h) by (apply Heq; by left).
  destruct (try (net, h1) := parse_file ry2 skeys f h in _combine_dicts depth raw net h1)
    as [e|h']; simpl; [done|].
  apply IH. intros f' Hf'. apply Heq. by right.
Qed.

Lemma combine_files_ext files h :
  (forall f, f ∈ files -> ry1 f = ry2 f) ->
  _combine_files ry1 depth files h = _combine_files ry2 depth files h.
Proof. intros Heq. unfold _combine_files. cbv zeta. by rewrite load_files_ext. Qed.

End read_only_listed.

(** X8.  [parse] opens the files that [find_files] gives and no other, and
    of these none whose base name is excluded: what an excluded file holds,
    or whether it can be decoded at all, does not change the result. *)
Theorem parse_reads_no_excluded_file fs ry1 ry2 depth dirs exs h :
  (forall f, basename f ∉ exs -> ry1 f = ry2 f) ->
  parse fs ry1 depth dirs (Some exs) h = parse fs ry2 depth dirs (Some exs) h.
Proof.
  intros Heq. unfold parse.
  destruct (find_files fs dirs) as [e|files]; cbn [bind]; [done|].
  apply combine_files_ext. intros f [Hf _]%list_elem_of_filter. by apply Heq.
Qed.

Lemma parse_reads_no_excluded_file_witness :
  parse ex_fs ex_read_yaml 100 NETPLAN_DIRS (Some ["50-site.yaml"]) []
  = parse ex_fs
      (fun f => if bool_decide (basename f ∈ ["50-site.yaml"])
                then inl (DecodeError "found unexpected end of stream")
                else ex_read_yaml f)
      100 NETPLAN_DIRS (Some ["50-site.yaml"]) [].
Proof.
  apply parse_reads_no_excluded_file. intros f Hf. by rewrite bool_decide_eq_false_2.
Defined.

(** X9.  Excluding a name is the same as the file not being there:
    [parse] with [exclude] gives what [parse] without it gives on the file
    system that lacks the directory entries of these names.  Directory
    entries are names without a slash. *)
Theorem parse_exclude_as_absent fs read_yaml depth dirs exs h :
  (forall d name, name ∈ listdir fs d -> is_substring "/" name = false) ->
  parse fs read_yaml depth dirs (Some exs) h
  = parse (without fs exs) read_yaml depth dirs None h.
Proof.
  intros Hslash. unfold parse. rewrite !find_files_inr. cbn [bind].
  f_equal.
  set (files := find_files_dict fs dirs).
  set (files' := find_files_dict (without fs exs) dirs).
  assert (forall d name, occurs (without fs exs) d name <-> occurs fs d name /\ name ∉ exs)
    as Hocc.
  { intros d name. unfold occurs. simpl. rewrite list_elem_of_filter. tauto. }
  assert (forall name d, last_occurrence (without fs exs) dirs name d <->
                         last_occurrence fs dirs name d /\ name ∉ exs) as Hlast.
  { intros name d. unfold last_occurrence. split.
    - intros (ds1 & ds2 & -> & [Hd Hname]%Hocc & Hl). split; [|done].
      exists ds1, ds2. split_and!; [done..|]. intros d' Hd' Ho. apply (Hl d' Hd').
      by apply Hocc.
    - intros [(ds1 & ds2 & -> & Hd & Hl) Hname]. exists ds1, ds2.
      split_and!; [done|by apply Hocc|]. intros d' Hd' [Ho _]%Hocc. by apply (Hl d'). }
  assert (forall name, dict_get name files' =
                       if decide (name ∈ exs) then None else dict_get name files) as Hget.
  { intros name. apply option_eq. intros path. unfold files', files.
    rewrite find_files_dict_get. setoid_rewrite Hlast. case_decide as Hex.
    - naive_solver.
    - rewrite find_files_dict_get. naive_solver. }
  assert (sorted (dict_keys files') = filter (fun name => name ∉ exs) (sorted (dict_keys files)))
    as ->.
  { rewrite <- sorted_filter. apply sorted_Permutation.
    apply NoDup_Permutation;
      [apply dict_of_pairs_NoDup|apply NoDup_filter, dict_of_pairs_NoDup|].
    intros name. rewrite list_elem_of_filter, <- !dict_mem_true. unfold dict_mem.
    rewrite Hget. case_decide; [naive_solver|]. destruct (dict_get name files); naive_solver. }
  rewrite (filter_map_commute (fun name => default "" (dict_get name files))
             (fun name => name ∉ exs) (fun f => basename f ∉ exs)).
  - apply map_ext_in. intros name [Hname _]%list_elem_of_In%list_elem_of_filter.
    rewrite Hget. by rewrite decide_False.
  - intros name Hin. unfold sorted in Hin. rewrite merge_sort_Permutation in Hin.
    apply find_files_dict_keys in Hin as (d & Hl).
    assert (dict_get name files = Some (path_join d name)) as ->.
    { apply find_files_dict_get. by exists d. }
    simpl. rewrite basename_path_join; [done|].
    destruct Hl as (ds1 & ds2 & _ & (_ & Hin & _) & _). by eapply Hslash.
Qed.

Lemma parse_exclude_as_absent_witness :
  parse ex_fs ex_read_yaml 100 NETPLAN_DIRS (Some ["50-site.yaml"; "README"]) []
  = parse (without ex_fs ["50-site.yaml"; "README"]) ex_read_yaml 100 NETPLAN_DIRS None [].
Proof.
  apply parse_exclude_as_absent. intros d name. simpl.
  repeat (case_match; [rewrite !elem_of_cons, elem_of_nil; intros [->|[->|[->|[]]]]; reflexivity|]).
  by intros ?%elem_of_nil.
Defined.

(** ** What [_combine_dicts] does in any store *)

Lemma obj_grows_refl o : obj_grows o o.
Proof. destruct o; simpl; reflexivity. Qed.

Lemma obj_grows_trans o1 o2 o3 : obj_grows o1 o2 -> obj_grows o2 o3 -> obj_grows o1 o3.
Proof. destruct o1, o2, o3; simpl; try done; by etrans. Qed.

Lemma grows_refl h : grows h h.
Proof. split; [done|]. intros l o Hl. exists o. split; [done|apply obj_grows_refl]. Qed.

Lemma grows_trans h1 h2 h3 : grows h1 h2 -> grows h2 h3 -> grows h1 h3.
Proof.
  intros [Hlen1 H1] [Hlen2 H2]. split; [congruence|]. intros l o Hl.
  destruct (H1 l o Hl) as (o' & Hl' & Hg1). destruct (H2 l o' Hl') as (o'' & Hl'' & Hg2).
  exists o''. split; [done|]. by eapply obj_grows_trans.
Qed.

Lemma grows_insert h l o o' :
  h !! l = Some o -> obj_grows o o' -> grows h (<[l := o']> h).
Proof.
  intros Hl Hg. split; [by rewrite length_insert|]. intros l' o0 Hl'.
  destruct (decide (l' = l)) as [->|Hne].
  - exists o'. rewrite list_lookup_insert_eq by by eapply lookup_lt_Some.
    split; [done|]. congruence.
  - exists o0. rewrite list_lookup_insert_ne by done. split; [done|apply obj_grows_refl].
Qed.

Lemma dict_keys_set_prefix {A} k (v : A) d : dict_keys d `prefix_of` dict_keys (dict_set k v d).
Proof.
  rewrite dict_keys_set. destruct (dict_mem k d); [reflexivity|]. by apply prefix_app_r.
Qed.

Lemma py_setitem_grows cur k v h h' : py_setitem cur k v h = inr h' -> grows h h'.
Proof.
  destruct cur as [s|l]; simpl; [done|].
  destruct (h !! l) as [[xs|kvs]|] eqn:Hl; try done. intros [= <-].
  eapply grows_insert; [done|]. apply dict_keys_set_prefix.
Qed.

Lemma py_extend_grows target src h h' : py_extend target src h = inr h' -> grows h h'.
Proof.
  destruct target as [s|l]; simpl; [done|].
  destruct (h !! l) as [[xs|kvs]|] eqn:Hl; try done.
  destruct src as [s|l']; [done|]. destruct (h !! l') as [[ys|kvs]|]; try done.
  intros [= <-]. eapply grows_insert; [done|]. by apply prefix_app_r.
Qed.

Lemma combine_item_grows rec cur kv h h' :
  (forall c n h0 h1, rec c n h0 = inr h1 -> grows h0 h1) ->
  combine_item rec cur kv h = inr h' -> grows h h'.
Proof.
  intros Hrec. destruct kv as [key value]. unfold combine_item.
  destruct (py_contains key cur h) as [e|present]; cbn [bind]; [done|].
  destruct present; cbn [negb].
  - destruct (isinstance_list value h).
    { destruct (py_getitem cur key h) as [e|target]; cbn [bind]; [done|].
      apply py_extend_grows. }
    destruct (isinstance_dict value h).
    { destruct (py_getitem cur key h) as [e|sub]; cbn [bind]; [done|]. apply Hrec. }
    apply py_setitem_grows.
  - apply py_setitem_grows.
Qed.

Lemma run_items_grows rec cur items : forall h h',
  (forall c n h0 h1, rec c n h0 = inr h1 -> grows h0 h1) ->
  run_items (combine_item rec cur) items h = inr h' -> grows h h'.
Proof.
  induction items as [|kv items IH]; intros h h' Hrec; simpl.
  { intros [= <-]. apply grows_refl. }
  destruct (combine_item rec cur kv h) as [e|h1] eqn:Hstep; cbn [bind]; [done|].
  intros Hrun. eapply grows_trans; [by eapply combine_item_grows|by eapply IH].
Qed.

Lemma combine_dicts_grows depth : forall cur new h h',
  _combine_dicts depth cur new h = inr h' -> grows h h'.
Proof.
  induction depth as [|depth IH]; intros cur new h h'; simpl; [done|].
  destruct (py_items new h) as [e|items]; cbn [bind]; [done|].
  by apply run_items_grows.
Qed.

(** The keys of a dictionary that has grown. *)
Lemma grows_keys h h' cur kvs k :
  grows h h' -> py_items cur h = inr kvs -> k ∈ dict_keys kvs ->
  exists kvs', py_items cur h' = inr kvs' /\ k ∈ dict_keys kvs'.
Proof.
  intros [_ Hg]. destruct cur as [s|l]; simpl; [done|].
  destruct (h !! l) as [[xs|kvs0]|] eqn:Hl; try done. intros [= ->] Hk.
  destruct (Hg l _ Hl) as ([xs|kvs'] & -> & Hgo); [done|]. simpl in Hgo.
  exists kvs'. split; [done|]. destruct Hgo as [rest ->]. apply elem_of_app. by left.
Qed.

Lemma py_setitem_key cur k v h h' :
  py_setitem cur k v h = inr h' ->
  exists kvs', py_items cur h' = inr kvs' /\ k ∈ dict_keys kvs'.
Proof.
  destruct cur as [s|l]; simpl; [done|].
  destruct (h !! l) as [[xs|kvs]|] eqn:Hl; try done. intros [= <-].
  rewrite list_lookup_insert_eq by by eapply lookup_lt_Some.
  eexists. split; [done|]. apply dict_keys_set_elem. by left.
Qed.

Lemma py_getitem_key cur k v h :
  py_getitem cur k h = inr v ->
  exists kvs, py_items cur h = inr kvs /\ k ∈ dict_keys kvs.
Proof.
  destruct cur as [s|l]; simpl; [done|].
  destruct (h !! l) as [[xs|kvs]|] eqn:Hl; try done.
  destruct (dict_get k kvs) eqn:Hget; [|done]. intros _. exists kvs. split; [done|].
  apply dict_mem_true. unfold dict_mem. by rewrite Hget.
Qed.

Lemma combine_item_key rec cur key value h h' :
  (forall c n h0 h1, rec c n h0 = inr h1 -> grows h0 h1) ->
  combine_item rec cur (key, value) h = inr h' ->
  exists kvs', py_items cur h' = inr kvs' /\ key ∈ dict_keys kvs'.
Proof.
  intros Hrec. unfold combine_item.
  destruct (py_contains key cur h) as [e|present]; cbn [bind]; [done|].
  destruct present; cbn [negb]; [|apply py_setitem_key].
  destruct (isinstance_list value h).
  { destruct (py_getitem cur key h) as [e|target] eqn:Hget; cbn [bind]; [done|].
    apply py_getitem_key in Hget as (kvs & Hitems & Hk).
    intros Hg%py_extend_grows. by eapply grows_keys. }
  destruct (isinstance_dict value h); [|apply py_setitem_key].
  destruct (py_getitem cur key h) as [e|sub] eqn:Hget; cbn [bind]; [done|].
  apply py_getitem_key in Hget as (kvs & Hitems & Hk).
  intros Hg%Hrec. by eapply grows_keys.
Qed.

Lemma run_items_keys rec cur items : forall h h' k,
  (forall c n h0 h1, rec c n h0 = inr h1 -> grows h0 h1) ->
  run_items (combine_item rec cur) items h = inr h' ->
  k ∈ dict_keys items ->
  exists kvs', py_items cur h' = inr kvs' /\ k ∈ dict_keys kvs'.
Proof.
  induction items as [|[key value] items IH]; intros h h' k Hrec;
    cbn [run_items dict_keys map fst].
  { by intros _ ?%elem_of_nil. }
  destruct (combine_item rec cur (key, value) h) as [e|h1] eqn:Hstep; cbn [bind]; [done|].
  intros Hrun [->|Hin]%elem_of_cons; [|by eapply IH].
  apply combine_item_key in Hstep as (kvs1 & Hitems & Hk); [|done].
  eapply grows_keys; [by eapply run_items_grows|done..].
Qed.

(** *** The exceptions of the merge *)

Lemma py_setitem_exn cur k v h e : py_setitem cur k v h = inl e -> e = TypeError.
Proof.
  destruct cur as [s|l]; simpl; [congruence|].
  destruct (h !! l) as [[xs|kvs]|]; congruence.
Qed.

Lemma py_getitem_exn cur k h e :
  py_contains k cur h = inr true -> py_getitem cur k h = inl e -> e = TypeError.
Proof.
  destruct cur as [s|l]; simpl; [congruence|].
  destruct (h !! l) as [[xs|kvs]|]; try congruence. unfold dict_mem.
  destruct (dict_get k kvs); congruence.
Qed.

Lemma py_extend_exn target src h e :
  py_extend target src h = inl e -> e = AttributeError \/ e = TypeError.
Proof.
  destruct target as [s|l]; simpl; [naive_solver|].
  destruct (h !! l) as [[xs|kvs]|]; try naive_solver.
  destruct src as [s|l']; [naive_solver|]. destruct (h !! l') as [[ys|kvs]|]; naive_solver.
Qed.

Lemma combine_item_exn rec cur kv h e :
  (forall c n h0 e0, rec c n h0 = inl e0 ->
     e0 ∈ [TypeError; AttributeError; RecursionError]) ->
  combine_item rec cur kv h = inl e ->
  e ∈ [TypeError; AttributeError; RecursionError].
Proof.
  intros Hrec. destruct kv as [key value]. unfold combine_item.
  destruct (py_contains key cur h) as [e'|present] eqn:Hc; cbn [bind].
  { intros [= <-]. destruct cur as [[]|l]; simpl in Hc; try (simplify_eq; set_solver).
    destruct (h !! l) as [[xs|kvs]|]; simplify_eq. set_solver. }
  destruct present; cbn [negb]; [|intros ->%py_setitem_exn; set_solver].
  destruct (isinstance_list value h).
  { destruct (py_getitem cur key h) as [e'|target] eqn:Hget; cbn [bind].
    - intros [= <-]. apply py_getitem_exn in Hget as ->; [set_solver|done].
    - intros [->| ->]%py_extend_exn; set_solver. }
  destruct (isinstance_dict value h); [|intros ->%py_setitem_exn; set_solver].
  destruct (py_getitem cur key h) as [e'|sub] eqn:Hget; cbn [bind].
  - intros [= <-]. apply py_getitem_exn in Hget as ->; [set_solver|done].
  - apply Hrec.
Qed.

Lemma run_items_exn rec cur items : forall h e,
  (forall c n h0 e0, rec c n h0 = inl e0 ->
     e0 ∈ [TypeError; AttributeError; RecursionError]) ->
  run_items (combine_item rec cur) items h = inl e ->
  e ∈ [TypeError; AttributeError; RecursionError].
Proof.
  induction items as [|kv items IH]; intros h e Hrec; simpl; [done|].
  destruct (combine_item rec cur kv h) as [e'|h1] eqn:Hstep; cbn [bind].
  - intros [= <-]. by eapply combine_item_exn.
  - by apply IH.
Qed.

Lemma combine_dicts_exn depth : forall cur new h e,
  _combine_dicts depth cur new h = inl e ->
  e ∈ [TypeError; AttributeError; RecursionError].
Proof.
  induction depth as [|depth IH]; intros cur new h e; simpl.
  { intros [= <-]. set_solver. }
  destruct (py_items new h) as [e'|items] eqn:Hitems; cbn [bind].
  - intros [= <-]. destruct new as [s|l]; simpl in Hitems; [simplify_eq; set_solver|].
    destruct (h !! l) as [[xs|kvs]|]; simplify_eq; set_solver.
  - by apply run_items_exn.
Qed.

(** X11.  The exceptions of the merge of two documents that have strings
    for keys and share no container: a [TypeError] or an [AttributeError]
    where the types of the two do not agree, and a [RecursionError] where
    the stack runs out.  It never raises [KeyError]: [cur[key]] is read
    only after [key in cur] has held. *)
Theorem merge_exceptions h cur new tc tn depth e :
  separate h cur tc new tn ->
  _combine_dicts depth cur new h = inl e ->
  e ∈ [TypeError; AttributeError; RecursionError]
  /\ (forall key, e <> KeyError key).
Proof.
  intros _ He%combine_dicts_exn. split; [done|]. intros key ->. set_solver.
Qed.

Lemma merge_exceptions_witness :
  AttributeError ∈ [TypeError; AttributeError; RecursionError]
  /\ (forall key, AttributeError <> KeyError key).
Proof.
  apply (merge_exceptions ex_store_types (VRef 0) (VRef 4)
           (TDict [("k", TScalar (SInt 1))]) (TDict [("k", TList [TScalar (SInt 2)])]) 100).
  - solve_separate.
  - vm_compute. reflexivity.
Defined.

Lemma combine_dicts_non_mapping depth cur new h items :
  isinstance_dict cur h = false ->
  py_items new h = inr items ->
  _combine_dicts (S depth) cur new h
  = match items with [] => inr h | _ :: _ => inl TypeError end.
Proof.
  intros Hcur Hitems. cbn [_combine_dicts]. rewrite Hitems. cbn [bind].
  destruct items as [|[key value] items]; [done|]. cbn [run_items].
  assert (combine_item (_combine_dicts depth) cur (key, value) h = inl TypeError) as ->; [|done].
  unfold combine_item.
  destruct cur as [s|l].
  - destruct s as [| | | |s]; try done. cbn [py_contains bind].
    destruct (is_substring key s); cbn [negb]; [|done].
    destruct (isinstance_list value h); [done|]. by destruct (isinstance_dict value h).
  - simpl in Hcur. cbn [py_contains]. destruct (h !! l) as [[xs|kvs]|] eqn:Hl; try done.
    cbn [bind]. destruct (existsb (value_eq_str key) xs); cbn [negb py_setitem].
    + destruct (isinstance_list value h); [cbn [py_getitem]; by rewrite Hl|].
      destruct (isinstance_dict value h); cbn [py_getitem py_setitem]; by rewrite Hl.
    + by rewrite Hl.
Qed.

(** X12.  A mapping with strings for keys that is merged into a value
    that is not a mapping (a number, a string, a sequence): the empty
    mapping changes nothing, and any other mapping raises [TypeError]. *)
Theorem merge_into_non_mapping depth cur new h items :
  isinstance_dict cur h = false ->
  py_items new h = inr items ->
  _combine_dicts (S depth) cur new h
  = match items with [] => inr h | _ :: _ => inl TypeError end.
Proof. apply combine_dicts_non_mapping. Qed.

Lemma merge_into_non_mapping_witness :
  _combine_dicts 100 (VScalar (SInt 1)) (VRef 2) ex_store_types = inl TypeError.
Proof.
  exact (merge_into_non_mapping 99 (VScalar (SInt 1)) (VRef 2) ex_store_types
           [("k", VRef 1)] eq_refl eq_refl).
Defined.

(** X13.  The keys that only the new document has are appended to the
    accumulator in the order of the new document, and with them the
    values of the new document themselves, not copies: where the two have
    no key in common, the accumulator ends with the items of the new
    document, and no other object of the store has changed. *)
Theorem merge_new_keys_appended depth r c new kvs h :
  h !! r = Some (ODict c) ->
  py_items new h = inr kvs ->
  NoDup (dict_keys kvs) ->
  (forall k, k ∈ dict_keys kvs -> k ∉ dict_keys c) ->
  _combine_dicts (S depth) (VRef r) new h = inr (<[r := ODict (c ++ kvs)]> h).
Proof.
  intros Hr Hitems Hnd Hdisj. cbn [_combine_dicts]. rewrite Hitems. cbn [bind].
  clear Hitems. revert c h Hr Hdisj.
  induction kvs as [|[k v] kvs IH]; intros c h Hr Hdisj; cbn [run_items].
  { rewrite app_nil_r, list_insert_id; done. }
  apply NoDup_cons in Hnd as [Hk Hnd].
  assert (dict_mem k c = false) as Hmem.
  { apply dict_mem_false, Hdisj. by left. }
  unfold combine_item at 1. cbn [py_contains py_setitem]. rewrite Hr. cbn [bind].
  rewrite Hmem. cbn [negb bind].
  assert (dict_set k v c = c ++ [(k, v)]) as ->.
  { clear -Hmem. induction c as [|[k' v'] c IHc]; [done|]. simpl in *.
    unfold dict_mem in *. simpl in Hmem. destruct (String.eqb k k'); [done|].
    by rewrite IHc. }
  rewrite (IH Hnd (c ++ [(k, v)])).
  - by rewrite list_insert_insert_eq, <- app_assoc.
  - apply list_lookup_insert_eq. by eapply lookup_lt_Some.
  - intros k' Hk'. unfold dict_keys. rewrite map_app, elem_of_app. intros [Hin|Hin].
    + apply (Hdisj k'); [by right|done].
    + apply list_elem_of_singleton in Hin. simpl in Hin. by subst.
Qed.

Lemma merge_new_keys_appended_witness :
  _combine_dicts 100 (VRef 1) (VRef 4) ex_store_types
  = inr (<[1 := ODict ([] ++ [("k", VRef 3)])]> ex_store_types).
Proof.
  apply (merge_new_keys_appended 99 1 [] (VRef 4) [("k", VRef 3)] ex_store_types);
    [reflexivity|reflexivity|compute_done|].
  intros k _. apply not_elem_of_nil.
Defined.

(** *** What the merge writes to *)

(** The footprints of the values of a dictionary, key by key. *)
Lemma rep_items_slots h kvs kts fp :
  rep_items h kvs kts fp -> NoDup (dict_keys kvs) ->
  exists F : string -> gset loc,
    (forall k, F k ⊆ fp)
    /\ (forall k u, dict_get k kvs = Some u -> exists tu, rep h u tu (F k))
    /\ (forall k k', k <> k' -> F k ## F k').
Proof.
  induction 1 as [|k0 v kvs t kts fp1 fp2 Hv Hrest IH Hd]; intros Hnd.
  - exists (fun _ => ∅). split_and!; [set_solver|done|set_solver].
  - simpl in Hnd. apply NoDup_cons in Hnd as [Hk0 Hnd].
    destruct (IH Hnd) as (F & Hsub & Hget & Hdisj).
    exists (fun k => if decide (k = k0) then fp1 else F k). split_and!.
    + intros k. case_decide; [set_solver|]. specialize (Hsub k). set_solver.
    + intros k u. simpl. destruct (String.eqb_spec k k0) as [->|Hne].
      * intros [= <-]. rewrite decide_True by done. by exists t.
      * intros Hu. rewrite decide_False by done. by apply Hget.
    + intros k k' Hne. pose proof (Hsub k). pose proof (Hsub k').
      repeat case_decide; subst; try done; [set_solver..|by apply Hdisj].
Qed.

Section frame.
Context (rec : value -> value -> heap -> result heap).
Hypothesis Hrec : forall h cur new tc tn fpc fpn h',
  rep h cur tc fpc -> rep h new tn fpn -> fpc ## fpn ->
  rec cur new h = inr h' -> forall l, l ∉ fpc -> h' !! l = h !! l.

(** One item: the dictionary at [l], or the value that it has under the
    key, and nothing else. *)
Lemma combine_item_frame l (Fk : gset loc) k v t fpv kvs h h1 :
  h !! l = Some (ODict kvs) ->
  (forall u, dict_get k kvs = Some u -> exists tu, rep h u tu Fk) ->
  rep h v t fpv -> Fk ## fpv -> l ∉ Fk ->
  combine_item rec (VRef l) (k, v) h = inr h1 ->
  (forall l', l' <> l -> l' ∉ Fk -> h1 !! l' = h !! l')
  /\ exists kvs1, h1 !! l = Some (ODict kvs1) /\
       forall k', k' <> k -> dict_get k' kvs1 = dict_get k' kvs.
Proof.
  intros Hl Hslot Hv Hdisj Hfresh.
  assert (l < length h) as Hlen by by eapply lookup_lt_Some.
  assert (forall x h2, py_setitem (VRef l) k x h = inr h2 ->
            (forall l', l' <> l -> l' ∉ Fk -> h2 !! l' = h !! l')
            /\ exists kvs1, h2 !! l = Some (ODict kvs1) /\
                 forall k', k' <> k -> dict_get k' kvs1 = dict_get k' kvs) as Hset.
  { intros x h2. cbn [py_setitem]. rewrite Hl. intros [= <-]. split.
    - intros l' Hne _. by apply list_lookup_insert_ne.
    - exists (dict_set k x kvs). split; [by apply list_lookup_insert_eq|].
      intros k' Hne. by apply dict_get_set_ne. }
  unfold combine_item. cbn [py_contains]. rewrite Hl. cbn [bind].
  unfold dict_mem. destruct (dict_get k kvs) as [u|] eqn:Hu; cbn [negb]; [|apply Hset].
  destruct (Hslot u eq_refl) as [tu Hrepu].
  cbn [py_getitem]. rewrite Hl, Hu. cbn [bind].
  destruct (isinstance_list v h).
  { destruct Hrepu as [s|lu xs txs fpx Hlu Hxs Hfx|lu ukvs ukts fpk Hlu];
      cbn [py_extend]; rewrite ?Hlu; try done.
    destruct v as [s|lv]; [done|]. destruct (h !! lv) as [[ys|ikvs]|]; try done.
    intros [= <-]. split.
    - intros l' _ Hl'. apply list_lookup_insert_ne. set_solver.
    - exists kvs. split; [|done]. rewrite list_lookup_insert_ne by set_solver. done. }
  destruct (isinstance_dict v h); [|apply Hset].
  intros Hrun. pose proof (Hrec h u v tu t Fk fpv h1 Hrepu Hv Hdisj Hrun) as Hout. split.
  - intros l' _ Hl'. by apply Hout.
  - exists kvs. split; [|done]. by rewrite Hout.
Qed.

Lemma run_items_frame l (fp : gset loc) (F : string -> gset loc) items :
  l ∉ fp -> (forall k, F k ⊆ fp) -> (forall k k', k <> k' -> F k ## F k') ->
  forall h ikts fpi kvs h',
    h !! l = Some (ODict kvs) ->
    (forall k u, k ∈ dict_keys items -> dict_get k kvs = Some u ->
       exists tu, rep h u tu (F k)) ->
    rep_items h items ikts fpi -> fpi ## {[l]} ∪ fp ->
    NoDup (dict_keys items) ->
    run_items (combine_item rec (VRef l)) items h = inr h' ->
    forall l', l' ∉ {[l]} ∪ fp -> h' !! l' = h !! l'.
Proof.
  intros Hfresh Hsub Hdisj.
  induction items as [|[k v] items IH]; intros h ikts fpi kvs h' Hl Hslots Hitems Hfpi Hnd;
    cbn [run_items].
  { by intros [= <-]. }
  inversion Hitems as [|k' v' kvs' t kts' fp1 fp2 Hv Hrest Hd]; subst.
  cbn [dict_keys map fst] in Hnd. apply NoDup_cons in Hnd as [Hk Hnd].
  destruct (combine_item rec (VRef l) (k, v) h) as [e|h1] eqn:Hstep; cbn [bind]; [done|].
  pose proof (Hsub k) as Hsubk.
  apply (combine_item_frame l (F k) k v t fp1 kvs h h1) in Hstep
    as (Hout & kvs1 & Hl1 & Hsame); [|done| |done|set_solver|set_solver].
  2:{ intros u Hu. apply (Hslots k u); [by left|done]. }
  intros Hrun l' Hl'.
  rewrite (IH h1 kts' fp2 kvs1 h' Hl1); [apply Hout; set_solver| | |set_solver|done|done|done].
  - intros k' u Hk' Hu. assert (k' <> k) as Hne by (by intros ->).
    rewrite Hsame in Hu by done.
    destruct (Hslots k' u) as [tu Hrepu]; [by right|done|]. exists tu.
    eapply rep_frame; [done|]. intros l0 Hl0. pose proof (Hsub k'). pose proof (Hdisj k' k Hne).
    apply Hout; set_solver.
  - eapply rep_items_frame; [done|]. intros l0 Hl0. apply Hout; set_solver.
Qed.

End frame.

(** The merge of two separate documents writes to the objects of the
    accumulator only. *)
Lemma combine_dicts_frame depth : forall h cur new tc tn fpc fpn h',
  rep h cur tc fpc -> rep h new tn fpn -> fpc ## fpn ->
  _combine_dicts depth cur new h = inr h' ->
  forall l, l ∉ fpc -> h' !! l = h !! l.
Proof.
  induction depth as [|depth IH]; intros h cur new tc tn fpc fpn h' Hcur Hnew Hdisj; [done|].
  destruct Hnew as [s|ln vs ts fpv Hln|ln items ikts fpi Hln Hndi Hitems Hfi].
  { done. }
  { cbn [_combine_dicts py_items]. by rewrite Hln. }
  assert (py_items (VRef ln) h = inr items) as Hpy by (cbn [py_items]; by rewrite Hln).
  destruct Hcur as [s|l vs ts fp Hl|l kvs kts fp Hl Hnd Hkvs Hfresh].
  - rewrite (combine_dicts_non_mapping depth _ _ h items) by done.
    destruct items; [by intros [= <-]|done].
  - rewrite (combine_dicts_non_mapping depth _ _ h items); [|by simpl; rewrite Hl|done].
    destruct items; [by intros [= <-]|done].
  - cbn [_combine_dicts]. rewrite Hpy. cbn [bind]. intros Hrun l' Hl'.
    destruct (rep_items_slots h kvs kts fp Hkvs Hnd) as (F & Hsub & Hget & HdisjF).
    eapply (run_items_frame _ IH l fp F items); try done.
    + intros k u _ Hu. by apply Hget.
    + set_solver.
Qed.

(** X10.  The merge of two documents that have strings for keys and share
    no container only adds, and only to the accumulator: no object is
    made or dropped, every object is of the kind it was, every list has
    the elements it had, before those that were appended, and every
    dictionary the keys it had, in their order; the objects outside the
    accumulator, those of the new document among them, are as they were,
    so that the new document is what it was; and every key of the new
    document is then a key of the accumulator. *)
Theorem merge_only_adds h cur new tc tn fpc fpn depth h' :
  rep h cur tc fpc -> rep h new tn fpn -> fpc ## fpn ->
  _combine_dicts depth cur new h = inr h' ->
  grows h h'
  /\ (forall l, l ∉ fpc -> h' !! l = h !! l)
  /\ rep h' new tn fpn
  /\ forall items k, py_items new h = inr items -> k ∈ dict_keys items ->
       exists kvs', py_items cur h' = inr kvs' /\ k ∈ dict_keys kvs'.
Proof.
  intros Hcur Hnew Hdisj Hm.
  pose proof (combine_dicts_frame depth h cur new tc tn fpc fpn h' Hcur Hnew Hdisj Hm) as Hout.
  split_and!; [by eapply combine_dicts_grows|done| |].
  - eapply rep_frame; [done|]. intros l Hl. apply Hout. set_solver.
  - intros items k Hitems Hk. destruct depth as [|depth]; simpl in Hm; [done|].
    rewrite Hitems in Hm. cbn [bind] in Hm.
    eapply run_items_keys; [|done..]. apply combine_dicts_grows.
Qed.

Lemma merge_only_adds_witness :
  exists h',
    _combine_dicts 100 (VRef 2) (VRef 5) ex_store = inr h'
    /\ grows ex_store h'
    /\ rep h' (VRef 5) (TDict ex_B) {[5; 3; 4]}
    /\ exists kvs', py_items (VRef 2) h' = inr kvs' /\ "dhcp4" ∈ dict_keys kvs'.
Proof.
  eassert (_combine_dicts 100 (VRef 2) (VRef 5) ex_store = inr _) as Hm
    by (vm_compute; reflexivity).
  eassert (rep ex_store (VRef 2) (TDict ex_A) _) as Hcur by (unfold ex_A; solve_rep).
  eassert (rep ex_store (VRef 5) (TDict ex_B) _) as Hnew by (unfold ex_B; solve_rep).
  eassert (_ ## _) as Hdisj; [|destruct (merge_only_adds _ _ _ _ _ _ _ _ _ Hcur Hnew Hdisj Hm)
                                  as (Hg & _ & Hnew' & Hkeys)].
  { set_solver. }
  eexists. split_and!; [exact Hm|exact Hg| |].
  - eapply (rep_frame _ _ _ _ _ Hnew'). done.
  - apply (Hkeys _ "dhcp4" eq_refl). vm_compute. set_solver.
Defined.

(** ** The command-line tool: [parse_args] and [cmd_show] *)






Section cli.
Context (fs : filesystem) (read_yaml : string -> result pydoc) (depth : nat).
Context (interfaces : list string) (data : list (string * Interface)) (h : heap).
Hypothesis Hparse : parse fs read_yaml depth NETPLAN_DIRS None [] = inr (data, h).


End cli.





(** ** The overlay of files without aliases *)

Lemma rep_footprint_mut h :
  (forall v t fp, rep h v t fp -> forall l, l ∈ fp -> l < length h)
  /\ (forall vs ts fp, rep_elems h vs ts fp -> forall l, l ∈ fp -> l < length h)
  /\ (forall kvs kts fp, rep_items h kvs kts fp -> forall l, l ∈ fp -> l < length h).
Proof.
  apply rep_mutind.
  - intros s l Hl. set_solver.
  - intros l vs ts fp Hl _ IH _ l' [->%elem_of_singleton|Hin]%elem_of_union; [|by apply IH].
    by eapply lookup_lt_Some.
  - intros l kvs kts fp Hl _ _ IH _ l' [->%elem_of_singleton|Hin]%elem_of_union; [|by apply IH].
    by eapply lookup_lt_Some.
  - intros l Hl. set_solver.
  - intros v vs t ts fp1 fp2 _ IH1 _ IH2 _ l [Hin|Hin]%elem_of_union; auto.
  - intros l Hl. set_solver.
  - intros k v kvs t kts fp1 fp2 _ IH1 _ IH2 _ l [Hin|Hin]%elem_of_union; auto.
Qed.

Lemma rep_footprint h v t fp l : rep h v t fp -> l ∈ fp -> l < length h.
Proof. intros Hr. by apply (proj1 (rep_footprint_mut h) v t fp Hr). Qed.

(** A document that is loaded at the end of a store denotes the tree that
    it denotes by itself. *)
Lemma rep_shift_mut (h objs : heap) :
  let n := length h in
  let h1 := h ++ map (shift_obj n) objs in
  (forall v t fp, rep objs v t fp ->
     rep h1 (shift_value n v) t (set_map (Nat.add n) fp))
  /\ (forall vs ts fp, rep_elems objs vs ts fp ->
     rep_elems h1 (map (shift_value n) vs) ts (set_map (Nat.add n) fp))
  /\ (forall kvs kts fp, rep_items objs kvs kts fp ->
     rep_items h1 (map (fun kv => (fst kv, shift_value n (snd kv))) kvs) kts
       (set_map (Nat.add n) fp)).
Proof.
  intros n h1.
  assert (forall l o, objs !! l = Some o -> h1 !! (n + l) = Some (shift_obj n o)) as Hlook.
  { intros l o Hl. unfold h1. rewrite lookup_app_r by (unfold n; lia).
    replace (n + l - length h) with l by (unfold n; lia).
    by rewrite list_lookup_fmap, Hl. }
  assert (forall (l : nat) (fp : gset loc), l ∉ fp -> n + l ∉ (set_map (Nat.add n) fp : gset loc))
    as Hfresh.
  { intros l fp Hl (y & Heq & Hy)%elem_of_map. assert (y = l) as -> by lia. done. }
  assert (forall fp1 fp2 : gset loc, fp1 ## fp2 ->
            (set_map (Nat.add n) fp1 : gset loc) ## set_map (Nat.add n) fp2) as Hdisj.
  { intros fp1 fp2 Hd x (y1 & -> & Hy1)%elem_of_map (y2 & Heq & Hy2)%elem_of_map.
    assert (y2 = y1) as -> by lia. by apply (Hd y1). }
  apply rep_mutind.
  - intros s. rewrite set_map_empty. constructor.
  - intros l vs ts fp Hl _ IH Hnot. cbn [shift_value].
    rewrite set_map_union_L, set_map_singleton_L.
    apply rep_list with (map (shift_value n) vs); [by apply (Hlook l (OList vs))|done|].
    by apply Hfresh.
  - intros l kvs kts fp Hl Hnd _ IH Hnot. cbn [shift_value].
    rewrite set_map_union_L, set_map_singleton_L.
    apply rep_dict with (map (fun kv => (fst kv, shift_value n (snd kv))) kvs);
      [by apply (Hlook l (ODict kvs))| |done|by apply Hfresh].
    by rewrite (dict_keys_shift h).
  - rewrite set_map_empty. constructor.
  - intros v vs t ts fp1 fp2 _ IH1 _ IH2 Hd. cbn [map]. rewrite set_map_union_L.
    constructor; [done..|by apply Hdisj].
  - rewrite set_map_empty. constructor.
  - intros k v kvs t kts fp1 fp2 _ IH1 _ IH2 Hd. cbn [map fst snd]. rewrite set_map_union_L.
    constructor; [done..|by apply Hdisj].
Qed.

Lemma rep_items_del h k kvs kts fp :
  rep_items h kvs kts fp ->
  exists fp', fp' ⊆ fp /\ rep_items h (dict_del k kvs) (dict_del k kts) fp'.
Proof.
  induction 1 as [|k' v kvs t kts fp1 fp2 Hv Hrest IH Hd]; simpl.
  - exists ∅. split; [done|constructor].
  - destruct IH as (fp' & Hsub & IH). destruct (String.eqb k k').
    + exists fp2. split; [set_solver|done].
    + exists (fp1 ∪ fp'). split; [set_solver|]. constructor; [done..|set_solver].
Qed.

Lemma rep_items_lookup h k kvs kts fp t :
  rep_items h kvs kts fp -> dict_get k kts = Some t ->
  exists v fpv, dict_get k kvs = Some v /\ rep h v t fpv /\ fpv ⊆ fp.
Proof.
  induction 1 as [|k' v kvs t' kts fp1 fp2 Hv Hrest IH Hd]; simpl; [done|].
  destruct (String.eqb k k').
  - intros [= ->]. exists v, fp1. split_and!; [done..|set_solver].
  - intros (v' & fpv & ? & ? & ?)%IH. exists v', fpv. split_and!; [done..|set_solver].
Qed.

Lemma dict_del_NoDup {A} k (d : list (string * A)) :
  NoDup (dict_keys d) -> NoDup (dict_keys (dict_del k d)).
Proof.
  induction d as [|[k' v] d IH]; simpl; [done|].
  intros [Hk Hnd]%NoDup_cons. destruct (String.eqb k k'); [done|].
  simpl. apply NoDup_cons. split; [|by apply IH].
  intros Hin. by apply Hk, (dict_keys_del_subseteq k d).
Qed.

(** [parse_file] on a document whose objects are known. *)
Lemma parse_file_at read_yaml fname h objs l0 top l items ver :
  read_yaml fname = inr (VRef l0, objs) ->
  objs !! l0 = Some (ODict top) ->
  dict_get "network" top = Some (VRef l) ->
  objs !! l = Some (ODict items) ->
  dict_get "version" items = Some (VScalar ver) ->
  py_eq_int (VScalar ver) 2 = true ->
  dict_keys (dict_del "version" items) ⊆ dict_keys BY_SECTION ->
  parse_file read_yaml (dict_keys BY_SECTION) fname h
  = inr (VRef (length h + l),
         <[length h + l :=
             ODict (map (fun kv => (fst kv, shift_value (length h) (snd kv)))
                      (dict_del "version" items))]>
           (h ++ map (shift_obj (length h)) objs)).
Proof.
  intros Hread Hl0 Hnet Hl Hver Heq Hkeys.
  set (d := (VRef l0, objs) : pydoc) in *.
  assert (doc_dict d (fst d) = Some top) as Htop by (simpl; by rewrite Hl0).
  assert (doc_dict d (VRef l) = Some items) as Hitems by (simpl; by rewrite Hl).
  unfold parse_file. rewrite Hread. cbn [bind load_doc fst snd].
  rewrite isinstance_dict_loaded, Htop.
  rewrite bool_decide_eq_true_2 by done. cbn [negb].
  rewrite (py_get_loaded d h (fst d) "network" top Htop), Hnet. cbn [bind default from_option id].
  rewrite is_None_shift. cbn [is_None].
  rewrite (py_get_loaded d h (VRef l) "version" items Hitems), Hver. cbn [bind default from_option id].
  rewrite is_None_shift, py_eq_int_shift, Heq.
  assert (is_None (VScalar ver) = false) as -> by (by destruct ver).
  cbn [negb shift_value py_delitem].
  assert ((h ++ map (shift_obj (length h)) (snd d)) !! (length h + l)
          = Some (ODict (map (fun kv => (fst kv, shift_value (length h) (snd kv))) items)))
    as Hl1.
  { rewrite lookup_loaded_new. unfold d. cbn [snd]. by rewrite Hl. }
  rewrite Hl1.
  rewrite dict_mem_shift. unfold dict_mem at 1. rewrite Hver. cbn [bind py_items].
  rewrite list_lookup_insert_eq by (by eapply lookup_lt_Some).
  cbn [bind]. rewrite dict_del_shift, dict_keys_shift.
  rewrite (list_filter_iff _ (fun k => k ∉ dict_keys BY_SECTION)).
  2:{ intros k. rewrite negb_True, bool_decide_spec. done. }
  assert (filter (fun k => k ∉ dict_keys BY_SECTION) (dict_keys (dict_del "version" items)) = [])
    as ->.
  { destruct (filter _ _) as [|k ks] eqn:Hf; [done|].
    assert (k ∈ filter (fun k => k ∉ dict_keys BY_SECTION)
                  (dict_keys (dict_del "version" items))) as Hk by (rewrite Hf; by left).
    apply list_elem_of_filter in Hk as [Hnot Hk]. by apply Hkeys in Hk. }
  done.
Qed.

(** One file of the loop: the merge in the store does to the accumulator
    what the merge on trees does to its tree. *)
Lemma file_step_unshared read_yaml depth r fname h T sections :
  alias_free read_yaml fname sections ->
  unshared h (VRef r) T ->
  match combine_trees depth T (TDict sections) with
  | inr T' =>
      exists h', file_step read_yaml depth (VRef r) fname h = inr h' /\
                 unshared h' (VRef r) T'
  | inl e => file_step read_yaml depth (VRef r) fname h = inl e
  end.
Proof.
  intros (d & t & titems & ver & Hread & [fp Hrep] & Hnet & Hver & Heq & -> & Hkeys) [fpr Hacc].
  destruct d as [root objs]. cbn [fst snd] in Hrep.
  destruct t as [s|ts|ttop]; cbn [tree_get] in Hnet; try done.
  destruct (dict_get "network" ttop) as [tnet|] eqn:Httop; [|done]. injection Hnet as ->.
  inversion Hrep as [| |l0 top ? fp0 Hl0 Hnd0 Hitems0 Hfresh0]; subst.
  destruct (rep_items_lookup _ "network" _ _ _ _ Hitems0 Httop)
    as (vnet & fpnet & Hgetnet & Hrnet & _).
  inversion Hrnet as [| |l items ? fpi Hl Hndi Hitemsi Hfreshi]; subst.
  destruct (rep_items_lookup _ "version" _ _ _ _ Hitemsi Hver)
    as (vver & fpv & Hgetver & Hrver & _).
  inversion Hrver; subst.
  destruct (rep_items_del objs "version" _ _ _ Hitemsi) as (fp' & Hsub' & Hdel).
  pose proof (rep_items_keys _ _ _ _ Hdel) as Hkeq.
  unfold file_step.
  rewrite (parse_file_at read_yaml fname h objs l0 top l items ver)
    by (try done; by rewrite Hkeq).
  cbn [bind].
  set (n := length h).
  set (net := map (fun kv => (fst kv, shift_value n (snd kv))) (dict_del "version" items)).
  set (h1 := <[n + l := ODict net]> (h ++ map (shift_obj n) objs)).
  assert (n + l < length (h ++ map (shift_obj n) objs)) as Hlt.
  { rewrite length_app, length_map. apply lookup_lt_Some in Hl. lia. }
  assert (n + l ∉ (set_map (Nat.add n) fp' : gset loc)) as Hfresh.
  { intros (y & Hy & Hin)%elem_of_map. assert (y = l) as -> by lia. set_solver. }
  assert (rep h1 (VRef (n + l)) (TDict (dict_del "version" titems))
            ({[n + l]} ∪ set_map (Nat.add n) fp')) as Hnew.
  { apply rep_dict with net; [| | |done].
    - by apply list_lookup_insert_eq.
    - unfold net. rewrite (dict_keys_shift h). by apply dict_del_NoDup.
    - eapply rep_items_frame; [by apply (rep_shift_mut h objs)|].
      intros l' Hl'. unfold h1. apply list_lookup_insert_ne. by intros <-. }
  assert (rep h1 (VRef r) T fpr) as Hacc1.
  { eapply rep_frame; [exact Hacc|]. intros l' Hl'.
    assert (l' < length h) by by eapply rep_footprint.
    unfold h1. rewrite list_lookup_insert_ne by (unfold n; lia). by apply lookup_app_l. }
  assert (fpr ## {[n + l]} ∪ set_map (Nat.add n) fp') as Hdisj.
  { intros x Hx [->%elem_of_singleton|(y & -> & _)%elem_of_map]%elem_of_union;
      apply (rep_footprint _ _ _ _ _ Hacc) in Hx; unfold n in Hx; lia. }
  pose proof (combine_dicts_refines depth h1 (VRef r) (VRef (n + l)) T _ fpr _
                Hacc1 Hnew Hdisj) as Hm.
  unfold merged_into in Hm.
  destruct (combine_trees depth T (TDict (dict_del "version" titems))) as [e|T']; [done|].
  destruct Hm as (h' & fp'' & -> & Hrep' & _). exists h'. split; [done|by exists fp''].
Qed.

Lemma load_files_overlay read_yaml depth r docs : forall h T,
  Forall (fun doc => alias_free read_yaml (fst doc) (snd doc)) docs ->
  unshared h (VRef r) T ->
  match overlay depth T docs with
  | inr T' =>
      exists h', load_files read_yaml depth (dict_keys BY_SECTION) (VRef r) (map fst docs) h
                 = inr h' /\ unshared h' (VRef r) T'
  | inl e =>
      load_files read_yaml depth (dict_keys BY_SECTION) (VRef r) (map fst docs) h = inl e
  end.
Proof.
  induction docs as [|[fname sections] docs IH]; intros h T Hall Hacc; cbn [overlay map fst].
  { exists h. by split. }
  apply Forall_cons in Hall as [Hfile Hall]. cbn [fst snd] in Hfile.
  pose proof (file_step_unshared read_yaml depth r fname h T sections Hfile Hacc) as Hstep.
  cbn [load_files]. rewrite load_one_file_step.
  destruct (combine_trees depth T (TDict sections)) as [e|T1].
  - by rewrite Hstep.
  - destruct Hstep as (h1 & -> & Hacc1). cbn [bind]. by apply IH.
Qed.

Lemma accumulator_unshared h0 :
  unshared (h0 ++ [ODict []]) (VRef (length h0)) (TDict []).
Proof.
  exists ({[length h0]} ∪ ∅). apply rep_dict with []; [|constructor|constructor|set_solver].
  rewrite lookup_app_r by lia. by rewrite Nat.sub_diag.
Qed.

(** X16.  For files that the decoder reads without aliases, the loop of
    [_combine_files] is the left fold of the merge on trees over the
    sections of the files, in the order of the list: when the fold gives
    a tree, the files are loaded and the accumulator denotes this tree;
    when the merge of a file raises, [_combine_files] raises the same
    exception wrapped with the name of that file. *)
Theorem overlay_of_files read_yaml depth h0 docs :
  Forall (fun doc => alias_free read_yaml (fst doc) (snd doc)) docs ->
  match overlay depth (TDict []) docs with
  | inr T =>
      exists h, loaded read_yaml depth h0 (map fst docs) h /\
                unshared h (VRef (length h0)) T
  | inl e => _combine_files read_yaml depth (map fst docs) h0 = inl e
  end.
Proof.
  intros Hall.
  pose proof (load_files_overlay read_yaml depth (length h0) docs _ _ Hall
                (accumulator_unshared h0)) as Hload.
  destruct (overlay depth (TDict []) docs) as [e|T]; [|done].
  unfold _combine_files. cbv zeta. by rewrite Hload.
Qed.

Lemma ex_docs_alias_free :
  Forall (fun doc => alias_free ex_read_yaml (fst doc) (snd doc)) ex_docs.
Proof.
  repeat apply Forall_cons_2; [| |apply Forall_nil_2].
  - eexists (doc_of_tree ex_base), ex_base, _, (SInt 2).
    split_and!; [reflexivity| |reflexivity..|set_solver].
    vm_compute. eexists. solve_rep.
  - eexists (doc_of_tree ex_override), ex_override, _, (SInt 2).
    split_and!; [reflexivity| |reflexivity..|set_solver].
    vm_compute. eexists. solve_rep.
Qed.

Lemma overlay_of_files_witness :
  exists h,
    loaded ex_read_yaml 100 [] ["01-base.yaml"; "50-override.yaml"] h /\
    unshared h (VRef 0) (TDict ex_overlay).
Proof. exact (overlay_of_files ex_read_yaml 100 [] ex_docs ex_docs_alias_free). Defined.

(** ** The configuration of files without aliases *)

Lemma run_tree_items_keys rec items : forall c R,
  run_tree_items (combine_tree_item rec) items (TDict c) = inr R ->
  exists r, R = TDict r /\ dict_keys r ⊆ dict_keys c ++ dict_keys items.
Proof.
  induction items as [|[k v] items IH]; intros c R; cbn [run_tree_items].
  { intros [= <-]. exists c. split; [done|set_solver]. }
  destruct (combine_tree_item rec (k, v) (TDict c)) as [e|cur1] eqn:Hstep; cbn [bind]; [done|].
  apply combine_tree_item_dict in Hstep as (x & -> & _).
  intros (r & -> & Hsub)%IH. exists r. split; [done|].
  intros k' Hk'%Hsub. apply elem_of_app in Hk' as [Hk'|Hk'].
  - apply dict_keys_set_elem in Hk' as [->|Hk']; set_solver.
  - set_solver.
Qed.

Lemma overlay_keys depth (names : list string) docs : forall c R,
  overlay depth (TDict c) docs = inr R ->
  Forall (fun doc => dict_keys (snd doc) ⊆ names) docs ->
  dict_keys c ⊆ names ->
  exists r, R = TDict r /\ dict_keys r ⊆ names.
Proof.
  induction docs as [|[fname sections] docs IH]; intros c R; cbn [overlay].
  { intros [= <-] _ Hc. by exists c. }
  destruct (combine_trees depth (TDict c) (TDict sections)) as [e|acc] eqn:Hm; [done|].
  intros Hrest [Hdoc Hall]%Forall_cons Hc. cbn [snd] in Hdoc.
  destruct depth as [|depth]; [done|]. cbn [combine_trees] in Hm.
  apply run_tree_items_keys in Hm as (r1 & -> & Hsub).
  eapply IH; [done..|]. intros k [?|?]%Hsub%elem_of_app; auto.
Qed.

Lemma rep_items_elem h kvs kts fp k v :
  rep_items h kvs kts fp -> (k, v) ∈ kvs ->
  exists t fpv, (k, t) ∈ kts /\ rep h v t fpv.
Proof.
  induction 1 as [|k' v' kvs t' kts fp1 fp2 Hv Hrest IH Hd]; [by intros ?%elem_of_nil|].
  intros [[= -> ->]|Hin]%elem_of_cons.
  - exists t', fp1. split; [by left|done].
  - destruct (IH Hin) as (t & fpv & ? & ?). exists t, fpv. split; [by right|done].
Qed.

Lemma rep_items_elem_tree h kvs kts fp k t :
  rep_items h kvs kts fp -> (k, t) ∈ kts ->
  exists v fpv, (k, v) ∈ kvs /\ rep h v t fpv.
Proof.
  induction 1 as [|k' v' kvs t' kts fp1 fp2 Hv Hrest IH Hd]; [by intros ?%elem_of_nil|].
  intros [[= -> ->]|Hin]%elem_of_cons.
  - exists v', fp1. split; [by left|done].
  - destruct (IH Hin) as (v & fpv & ? & ?). exists v, fpv. split; [by right|done].
Qed.

Lemma build_interfaces_total h sections : forall data,
  (forall section ifaces, (section, ifaces) ∈ sections ->
     section ∈ dict_keys BY_SECTION /\ isinstance_dict ifaces h = true) ->
  exists data', build_interfaces sections h data = inr data'.
Proof.
  induction sections as [|[section ifaces] sections IH]; intros data Hall; simpl; [eauto|].
  destruct (Hall section ifaces) as [Hsec Hdict]; [by left|].
  unfold build_section.
  destruct (dict_get section BY_SECTION) as [cls|] eqn:Hcls.
  2:{ by apply dict_get_None in Hcls. }
  cbn [bind]. destruct ifaces as [s|l]; [done|]. simpl in Hdict. cbn [py_items].
  destruct (h !! l) as [[xs|kvs]|]; try done. cbn [bind].
  apply IH. intros s v Hin. apply Hall. by right.
Qed.

(** X17.  The configuration of files that the decoder reads without
    aliases: where the fold of the merge over the files gives a tree
    whose sections are mappings, [_combine_files] returns; the interface
    under a name was made for a section that has the name, and its
    definition denotes what this section of the tree has for the name; a
    name that is not in the configuration is in no section of the tree. *)
Theorem configuration_of_files read_yaml depth h0 docs sections :
  Forall (fun doc => alias_free read_yaml (fst doc) (snd doc)) docs ->
  overlay depth (TDict []) docs = inr (TDict sections) ->
  Forall (fun st => exists defs, snd st = TDict defs) sections ->
  exists data h,
    _combine_files read_yaml depth (map fst docs) h0 = inr (data, h)
    /\ forall name,
         match dict_get name data with
         | Some i =>
             iface_name i = name /\
             dict_get (iface_section i) BY_SECTION = Some (iface_class_of i) /\
             exists defs t,
               dict_get (iface_section i) sections = Some (TDict defs) /\
               dict_get name defs = Some t /\
               unshared h (iface_data i) t
         | None =>
             forall section defs, (section, TDict defs) ∈ sections -> name ∉ dict_keys defs
         end.
Proof.
  intros Hall Hover Hmaps.
  assert (dict_keys sections ⊆ dict_keys BY_SECTION) as Hnames.
  { eapply (overlay_keys depth (dict_keys BY_SECTION) docs []) in Hover as (r & [= <-] & ?);
      [done| |set_solver].
    eapply Forall_impl; [exact Hall|]. by intros [f s] (?&?&?&?&?&?&?&?&?&?&?). }
  pose proof (load_files_overlay read_yaml depth (length h0) docs _ _ Hall
                (accumulator_unshared h0)) as Hload.
  rewrite Hover in Hload. destruct Hload as (h & Hload & fp & Hrep).
  inversion Hrep as [| |r kvs ? fpi Hr Hnd Hitems Hfresh]; subst.
  assert (forall section ifaces, (section, ifaces) ∈ kvs ->
            exists defs' defs fpd l,
              ifaces = VRef l /\ h !! l = Some (ODict defs') /\ NoDup (dict_keys defs') /\
              dict_get section sections = Some (TDict defs) /\
              rep_items h defs' defs fpd) as Hsections.
  { intros section ifaces Hin.
    destruct (rep_items_elem _ _ _ _ _ _ Hitems Hin) as (t & fpv & Ht & Hv).
    pose proof Ht as Hmap. eapply Forall_forall in Hmap; [|exact Hmaps].
    destruct Hmap as [defs Hdefs]. cbn [snd] in Hdefs. subst t.
    inversion Hv as [| |l defs' ? fpd Hl Hndd Hd Hfd]; subst.
    exists defs', defs, fpd, l. split_and!; [done..| |done].
    apply dict_get_elem; [|done]. rewrite <- (rep_items_keys _ _ _ _ Hitems). done. }
  destruct (build_interfaces_total h kvs []) as [data Hbuild].
  { intros section ifaces Hin. split.
    - apply Hnames. rewrite <- (rep_items_keys _ _ _ _ Hitems).
      apply list_elem_of_fmap. by exists (section, ifaces).
    - destruct (Hsections _ _ Hin) as (defs' & defs & fpd & l & -> & Hl & _). simpl.
      by rewrite Hl. }
  exists data, h. split.
  { unfold _combine_files. cbv zeta. rewrite Hload. cbn [bind py_items].
    rewrite Hr. cbn [bind]. by rewrite Hbuild. }
  eapply (build_interfaces_inv kvs) in Hbuild as (Hndata & Hbuilt & _ & Hdefined);
    [|done|constructor|by intros ?? ?%elem_of_nil].
  intros name. destruct (dict_get name data) as [i|] eqn:Hget.
  - apply dict_get_Some_elem, Hbuilt in Hget
      as (Hname & Hcls & ifaces & defs0 & Hin & Hi & Hdef).
    split_and!; [done..|].
    destruct (Hsections _ _ Hin) as (defs' & defs & fpd & l & -> & Hl & Hndd & Hsec & Hd).
    cbn [py_items] in Hi. rewrite Hl in Hi. injection Hi as <-.
    destruct (rep_items_elem _ _ _ _ _ _ Hd Hdef) as (t & fpv & Ht & Hv).
    exists defs, t. split_and!; [done| |by exists fpv].
    apply dict_get_elem; [|done]. by rewrite <- (rep_items_keys _ _ _ _ Hd).
  - intros section defs Hin Hname. apply dict_get_None in Hget. apply Hget.
    destruct (rep_items_elem_tree _ _ _ _ _ _ Hitems Hin) as (v & fpv & Hv & Hrv).
    inversion Hrv as [| |l defs' ? fpd Hl Hndd Hd Hfd]; subst.
    apply (Hdefined section (VRef l) defs' name); [done| |].
    + cbn [py_items]. by rewrite Hl.
    + by rewrite (rep_items_keys _ _ _ _ Hd).
Qed.

Lemma configuration_of_files_witness :
  exists data h,
    _combine_files ex_read_yaml 100 ["01-base.yaml"; "50-override.yaml"] [] = inr (data, h)
    /\ forall name,
         match dict_get name data with
         | Some i =>
             iface_name i = name /\
             dict_get (iface_section i) BY_SECTION = Some (iface_class_of i) /\
             exists defs t,
               dict_get (iface_section i) ex_overlay = Some (TDict defs) /\
               dict_get name defs = Some t /\
               unshared h (iface_data i) t
         | None =>
             forall section defs, (section, TDict defs) ∈ ex_overlay -> name ∉ dict_keys defs
         end.
Proof.
  apply (configuration_of_files ex_read_yaml 100 [] ex_docs ex_overlay ex_docs_alias_free).
  - vm_compute. reflexivity.
  - repeat apply Forall_cons_2; [| |apply Forall_nil_2]; eexists; reflexivity.
Defined.

(** ** The depth of the recursion *)

Lemma combine_tree_item_no_recursion_error rec k v cur :
  (match v with TDict _ => forall sub, rec sub v <> inl RecursionError | _ => True end) ->
  combine_tree_item rec (k, v) cur <> inl RecursionError.
Proof.
  intros Hrec. unfold combine_tree_item.
  assert (forall t, tree_setitem cur k t <> inl RecursionError) as Hset.
  { intros t. by destruct cur. }
  assert (forall A (f : tree -> result A),
            (forall t, f t <> inl RecursionError) ->
            (try t := tree_getitem cur k in f t) <> inl RecursionError) as Hget.
  { intros A f Hf. destruct cur as [s|ts|kts]; simpl; try congruence.
    destruct (dict_get k kts); simpl; [apply Hf|congruence]. }
  destruct (tree_contains k cur) as [e|present] eqn:Hc; cbn [bind].
  { destruct cur as [[]|ts|kts]; simpl in Hc; congruence. }
  destruct present; cbn [negb]; [|apply Hset].
  destruct v as [s|ys|items]; [apply Hset| |].
  - apply Hget. intros target.
    destruct target as [s|xs|kts]; cbn [tree_extend bind]; done.
  - apply Hget. intros sub.
    destruct (rec sub (TDict items)) as [e|sub'] eqn:Hr; cbn [bind]; [|apply Hset].
    intros [= ->]. by apply (Hrec sub).
Qed.

Lemma combine_trees_no_recursion_error depth : forall cur new,
  dict_depth new < depth -> combine_trees depth cur new <> inl RecursionError.
Proof.
  induction depth as [|depth IH]; intros cur new Hd; [lia|].
  destruct new as [s|ts|items]; cbn [combine_trees]; try done.
  assert (Forall (fun kv => dict_depth (snd kv) < depth) items) as Hitems.
  { destruct depth as [|d]; [simpl in Hd; lia|].
    assert (dict_depth (TDict items) <= S d) as Hle by lia.
    apply dict_depth_dict in Hle. eapply Forall_impl; [exact Hle|]. simpl. lia. }
  clear Hd. revert cur. induction items as [|[k v] items IHi]; intros cur; cbn [run_tree_items].
  { done. }
  apply Forall_cons in Hitems as [Hv Hitems]. cbn [snd] in Hv.
  destruct (combine_tree_item (combine_trees depth) (k, v) cur) as [e|cur1] eqn:Hstep;
    cbn [bind]; [|by apply IHi].
  intros [= ->]. revert Hstep. apply combine_tree_item_no_recursion_error.
  destruct v; [done..|]. intros sub. by apply IH.
Qed.

(** X18.  The merge of two documents that share nothing does not run out
    of stack when the new document is nested less deeply than the stack
    allows: [RecursionError] is left to documents that are deeper than
    the limit, or that reach themselves through an alias. *)
Theorem shallow_merge_no_recursion_error h cur new tc tn depth :
  separate h cur tc new tn ->
  dict_depth tn < depth ->
  _combine_dicts depth cur new h <> inl RecursionError.
Proof.
  intros (fpc & fpn & Hc & Hn & Hdisj) Hd Herr.
  pose proof (combine_dicts_refines depth h cur new tc tn fpc fpn Hc Hn Hdisj) as Hm.
  unfold merged_into in Hm.
  destruct (combine_trees depth tc tn) as [e|R] eqn:Ht.
  - rewrite Herr in Hm. injection Hm as <-.
    by apply (combine_trees_no_recursion_error depth tc tn).
  - destruct Hm as (h' & fp' & Hm & _). congruence.
Qed.

Lemma shallow_merge_no_recursion_error_witness :
  _combine_dicts 3 (VRef 2) (VRef 5) ex_store <> inl RecursionError.
Proof.
  apply (shallow_merge_no_recursion_error ex_store (VRef 2) (VRef 5) (TDict ex_A) (TDict ex_B) 3).
  - solve_separate.
  - vm_compute. lia.
Defined.
